(** * TROG-2 eye-tracking pipeline: the numeric core of [datapipeline.py]

    A shallow embedding of the cleaning filter, the coordinate normaliser,
    the response-window extractor, the I-VT velocity classifier, the segment
    aggregator, the per-stimulus metric calculator and the inter-group
    statistics routine, followed by the properties stated about them.

    Conventions of the embedding.
    - A [pandas.DataFrame] is the list of its rows, in row order.  Columns
      that a function adds ([dx], [dy], [dt], [speed], [label], [seg_id]) are
      fields of a wider row record.
    - A Python [float] is an exact rational ([Q]); [np.nan] in a scalar
      result is [None] of an [option].  Rounding error, overflow to [inf]
      and [NaN] propagation inside arithmetic are outside this model.
    - [np.sqrt], [scipy.stats.mannwhitneyu] and the flag [SCIPY_OK] are
      parameters of the development.
    - [sort_values] is a stable sort. *)

From Stdlib Require Import Ascii String QArith Qminmax Qround Qabs ZArith List Bool.
From Stdlib Require Import Lia Lqa Sorting.Sorted Permutation OrderedTypeEx.
Import ListNotations.

Open Scope Q_scope.

(** ** Configuration constants (lines 52-54) *)

Definition PERCENTIL_LIMIAR_VEL : Q := 85.
Definition VEL_MIN : Q := 1 # 2.
Definition FIX_MIN_S : Q := 1 # 10.
Definition NORMALIZAR_COORDS : bool := true.

(** The literals [1e-6] (line 386) and [1e-10] (line 135). *)
Definition DT_EPS : Q := 1 # 1000000.
Definition RANGE_EPS : Q := 1 # 10000000000.

(** ** Data model *)

(** One row of the canonical sample table built by [carregar_pasta_csv]. *)
Record Sample : Type := mkSample {
  Key : Z;
  Timestamp : Q;
  t_sec : Q;
  X : Q;
  Y : Q;
  Stimuli : string;
  paciente_id : string;
  grupo : string
}.

Definition DataFrame : Type := list Sample.

Inductive Label : Type := lbl_fix | lbl_sac.

Definition Label_eqb (a b : Label) : bool :=
  match a, b with
  | lbl_fix, lbl_fix | lbl_sac, lbl_sac => true
  | _, _ => false
  end.

(** A row of the table returned by [rotular_ivt]. *)
Record IvtRow : Type := mkIvtRow {
  sample : Sample;
  dx : Q;
  dy : Q;
  dt : Q;
  speed : Q;
  label : Label;
  seg_id : Z
}.

(** ** Python and pandas primitives *)

Definition Qltb (a b : Q) : bool := negb (Qle_bool b a).

(** Python's [max(a, b)]: the first argument unless the second is greater. *)
Definition py_max (a b : Q) : Q := if Qltb a b then b else a.

(** [Series.max()] and [Series.min()]; [None] on an empty series. *)
Definition series_max (l : list Q) : option Q :=
  match l with
  | [] => None
  | a :: l' => Some (fold_left Qmax l' a)
  end.

Definition series_min (l : list Q) : option Q :=
  match l with
  | [] => None
  | a :: l' => Some (fold_left Qmin l' a)
  end.

(** [Series.diff()]: the first entry is missing. *)
Fixpoint diff_from (prev : Q) (l : list Q) : list (option Q) :=
  match l with
  | [] => []
  | a :: l' => Some (a - prev) :: diff_from a l'
  end.

Definition diff (l : list Q) : list (option Q) :=
  match l with
  | [] => []
  | a :: l' => None :: diff_from a l'
  end.

Definition fillna (d : Q) (l : list (option Q)) : list Q :=
  map (fun o => match o with Some v => v | None => d end) l.

(** [Series.replace(old, new)] on numbers. *)
Definition replace (old new : Q) (l : list Q) : list Q :=
  map (fun v => if Qeq_bool v old then new else v) l.

(** [Series.shift(1)]. *)
Definition shift {A : Type} (l : list A) : list (option A) :=
  match l with
  | [] => []
  | _ :: _ => None :: map Some (removelast l)
  end.

(** [Series.cumsum()] of a boolean series. *)
Fixpoint cumsum_from (acc : Z) (l : list bool) : list Z :=
  match l with
  | [] => []
  | b :: l' =>
      let acc' := (acc + if b then 1 else 0)%Z in
      acc' :: cumsum_from acc' l'
  end.

Definition cumsum (l : list bool) : list Z := cumsum_from 0%Z l.

(** Stable insertion sort, the model of [sort_values]. *)
Section Sorting.
Context {A : Type} (leb : A -> A -> bool).

Fixpoint insert_by (a : A) (l : list A) : list A :=
  match l with
  | [] => [a]
  | b :: l' => if leb a b then a :: l else b :: insert_by a l'
  end.

Fixpoint sort_by (l : list A) : list A :=
  match l with
  | [] => []
  | a :: l' => insert_by a (sort_by l')
  end.

(** Ascending for [leb]: every row is below all the rows after it. *)
Definition sorted_by : list A -> Prop :=
  StronglySorted (fun a b => leb a b = true).
End Sorting.

Definition t_leb (a b : Sample) : bool := Qle_bool (t_sec a) (t_sec b).

(** [df.sort_values("t_sec").reset_index(drop=True)]. *)
Definition sort_values_t (df : DataFrame) : DataFrame := sort_by t_leb df.

(** [np.percentile(values, q)] with the default linear interpolation, also
    behind [Series.quantile]: the virtual index [q/100 * (n-1)] is split
    into its floor and its fraction, and the two neighbours are
    interpolated.  [None] on an empty input (NumPy returns [nan]). *)
Definition percentile (values : list Q) (q : Q) : option Q :=
  match values with
  | [] => None
  | v0 :: _ =>
      let s := sort_by Qle_bool values in
      let n := length s in
      let pos := (q / 100) * inject_Z (Z.of_nat (n - 1)) in
      let i := Z.to_nat (Qfloor pos) in
      let g := pos - inject_Z (Qfloor pos) in
      let a := nth i s v0 in
      let b := nth (Nat.min (i + 1) (n - 1)) s v0 in
      Some (a + (b - a) * g)
  end.

(** Python's [round(x, n)]: to the nearest multiple of [10^-n], ties to
    the even one. *)
Definition round_half_even (q : Q) : Z :=
  let f := Qfloor q in
  let r := q - inject_Z f in
  match Qcompare r (1 # 2) with
  | Lt => f
  | Gt => (f + 1)%Z
  | Eq => if Z.even f then f else (f + 1)%Z
  end.

Definition py_round (q : Q) (n : nat) : Q :=
  let scale := inject_Z (10 ^ Z.of_nat n) in
  inject_Z (round_half_even (q * scale)) / scale.

(** ** Response-window extractor: [janela_exploracao] (lines 322-356) *)

Definition key_zero (r : Sample) : bool := (Key r =? 0)%Z.

(** Positions paired with rows: the table after [reset_index(drop=True)]. *)
Definition with_index {A : Type} (l : list A) : list (nat * A) :=
  combine (seq 0 (length l)) l.

Definition janela_exploracao (df_pac : DataFrame)
  : DataFrame * option Q * option Q * option Q * option Z :=
  match df_pac with
  | [] => (df_pac, None, None, None, None)
  | d :: _ =>
      let df_pac := sort_values_t df_pac in
      let t0 := t_sec (hd d df_pac) in
      let respostas :=
        filter (fun ir => negb (Key (snd ir) =? 0)%Z) (with_index df_pac) in
      match respostas with
      | (idx, r) :: _ =>
          let t_resp := t_sec r in
          let resposta := Key r in
          let explore :=
            map snd
              (filter (fun ir => (Key (snd ir) =? 0)%Z && (fst ir <? idx)%nat)
                 (with_index df_pac)) in
          (explore, Some t0, Some t_resp, Some (t_resp - t0), Some resposta)
      | [] =>
          let t_resp := t_sec (last df_pac d) in
          let explore := filter key_zero df_pac in
          (explore, Some t0, Some t_resp, Some (t_resp - t0), None)
      end
  end.

(** The five components of the tuple returned. *)
Definition jan_explore (j : DataFrame * option Q * option Q * option Q * option Z)
  : DataFrame := fst (fst (fst (fst j))).
Definition jan_t0 (j : DataFrame * option Q * option Q * option Q * option Z)
  : option Q := snd (fst (fst (fst j))).
Definition jan_t_resp (j : DataFrame * option Q * option Q * option Q * option Z)
  : option Q := snd (fst (fst j)).
Definition jan_tempo_resposta
    (j : DataFrame * option Q * option Q * option Q * option Z)
  : option Q := snd (fst j).
Definition jan_resposta (j : DataFrame * option Q * option Q * option Q * option Z)
  : option Z := snd j.

(** ** Velocity classifier: [rotular_ivt] (lines 359-414) *)

(** The running count of label changes after a row labelled [prev] whose
    count is [acc]: the recursion that [seg_ids] below unfolds to. *)
Fixpoint seg_from (acc : Z) (prev : Label) (ls : list Label) : list Z :=
  match ls with
  | [] => []
  | l :: ls' =>
      let acc' := (acc + if negb (Label_eqb l prev) then 1 else 0)%Z in
      acc' :: seg_from acc' l ls'
  end.

Section Classifier.
(** [np.sqrt]. *)
Variable np_sqrt : Q -> Q.

Definition zip_ivt (explore : DataFrame) (dxs dys dts speeds : list Q)
    (labels : list Label) (segs : list Z) : list IvtRow :=
  map (fun p =>
         match p with
         | (r, (a, (b, (c, (s, (l, g)))))) => mkIvtRow r a b c s l g
         end)
    (combine explore (combine dxs (combine dys (combine dts
       (combine speeds (combine labels segs)))))).

(** The time deltas as stored in column [dt] (lines 381-387). *)
Definition dt_column (explore : DataFrame) : list Q :=
  let dt := diff (map t_sec explore) in
  let dt := fillna 0 dt in
  let dt := replace 0 DT_EPS dt in
  map (fun x => py_max x DT_EPS) dt.

(** Column [speed] (lines 390-394).  With exact arithmetic and [dt] at
    least [1e-6] no quotient is infinite or missing, so the two
    coercions of lines 393-394 leave the column as it is. *)
Definition speed_column (dxs dys dts : list Q) : list Q :=
  map (fun p =>
         match p with
         | (a, (b, c)) => np_sqrt (a ^ 2 + b ^ 2) / c
         end)
    (combine dxs (combine dys dts)).

(** The adaptive threshold (lines 402-406). *)
Definition limiar (speeds : list Q) : Q :=
  match series_max speeds with
  | Some m =>
      if Qltb 0 m then
        match percentile speeds PERCENTIL_LIMIAR_VEL with
        | Some vt => py_max vt VEL_MIN
        | None => VEL_MIN
        end
      else VEL_MIN
  | None => VEL_MIN
  end.

(** Line 412: [(label != label.shift(1)).cumsum()]. *)
Definition seg_ids (labels : list Label) : list Z :=
  cumsum
    (map (fun p =>
            match snd p with
            | Some l' => negb (Label_eqb (fst p) l')
            | None => true
            end)
       (combine labels (shift labels))).

Definition rotular_ivt (explore : DataFrame) : list IvtRow * Q :=
  if (length explore <? 3)%nat then
    (map (fun r => mkIvtRow r 0 0 0 0 lbl_fix 1%Z) explore, VEL_MIN)
  else
    let explore := sort_values_t explore in
    let dxs := fillna 0 (diff (map X explore)) in
    let dys := fillna 0 (diff (map Y explore)) in
    let dts := dt_column explore in
    let speeds := speed_column dxs dys dts in
    let vt := limiar speeds in
    let labels :=
      map (fun s => if Qle_bool s vt then lbl_fix else lbl_sac) speeds in
    let segs := seg_ids labels in
    (zip_ivt explore dxs dys dts speeds labels segs, vt).

End Classifier.

(** ** Segment aggregator: [segmentos_por_label] (lines 417-438) *)

Module Seg.
Record t : Type := mk {
  seg_id : Z;
  label : Label;
  t_start : Q;
  t_end : Q;
  n : nat;
  x_start : Q;
  y_start : Q;
  x_end : Q;
  y_end : Q;
  dur : Q
}.
End Seg.

(** [Series.unique()]: the distinct values in order of first appearance. *)
Fixpoint unique_by {A : Type} (eqb : A -> A -> bool) (l : list A) : list A :=
  match l with
  | [] => []
  | a :: l' => a :: filter (fun b => negb (eqb a b)) (unique_by eqb l')
  end.

(** The labels are the strings ["fix"] and ["sac"], ordered as strings. *)
Definition Label_leb (a b : Label) : bool :=
  match a, b with
  | lbl_sac, lbl_fix => false
  | _, _ => true
  end.

Definition seg_key (r : IvtRow) : Z * Label := (seg_id r, label r).

Definition seg_key_eqb (a b : Z * Label) : bool :=
  (fst a =? fst b)%Z && Label_eqb (snd a) (snd b).

Definition seg_key_leb (a b : Z * Label) : bool :=
  (fst a <? fst b)%Z || ((fst a =? fst b)%Z && Label_leb (snd a) (snd b)).

(** The aggregation of one group (lines 427-437). *)
Definition agg_group (k : Z * Label) (g : list IvtRow) : list Seg.t :=
  match g with
  | [] => []
  | r0 :: g' =>
      let ts := map (fun r => t_sec (sample r)) g' in
      let t_start := fold_left Qmin ts (t_sec (sample r0)) in
      let t_end := fold_left Qmax ts (t_sec (sample r0)) in
      let rl := last g r0 in
      [ Seg.mk (fst k) (snd k) t_start t_end (length g)
          (X (sample r0)) (Y (sample r0)) (X (sample rl)) (Y (sample rl))
          (t_end - t_start) ]
  end.

(** [groupby(["seg_id", "label"])]: one group per distinct key, the keys in
    ascending order, the rows of a group in table order. *)
Definition segmentos_por_label (explore_ivt : list IvtRow) : list Seg.t :=
  let keys := sort_by seg_key_leb (unique_by seg_key_eqb (map seg_key explore_ivt)) in
  flat_map
    (fun k => agg_group k (filter (fun r => seg_key_eqb (seg_key r) k) explore_ivt))
    keys.

(** ** Dispersion: [dispersao_area_bb] (lines 441-451) *)

Definition dispersao_area_bb (explore : DataFrame) : Q :=
  if (length explore <? 2)%nat then 0
  else
    match series_max (map X explore), series_min (map X explore),
          series_max (map Y explore), series_min (map Y explore) with
    | Some x_max, Some x_min, Some y_max, Some y_min =>
        let x_range := x_max - x_min in
        let y_range := y_max - y_min in
        x_range * y_range
    | _, _, _, _ => 0
    end.

(** ** Metric calculator: [metricas_paciente_por_estimulo] (lines 598-643) *)

Record Metrics : Type := mkMetrics {
  resposta : option Z;
  tempo_resposta_s : option Q;
  n_sacadas : nat;
  tempo_medio_sacada_s : option Q;
  n_fixacoes : nat;
  duracao_media_fix_s : option Q;
  dispersao_area : Q;
  limiar_vt : option Q
}.

Definition Qsum (l : list Q) : Q := fold_left Qplus l 0.

(** [Series.mean()] and [np.mean] on a non-empty input. *)
Definition mean (l : list Q) : Q := Qsum l / inject_Z (Z.of_nat (length l)).

(** [round(float(s["dur"].mean()), 4) if len(s) else np.nan]. *)
Definition mean_dur (segs : list Seg.t) : option Q :=
  match segs with
  | [] => None
  | _ :: _ => Some (py_round (mean (map Seg.dur segs)) 4)
  end.

Definition is_fix (s : Seg.t) : bool := Label_eqb (Seg.label s) lbl_fix.
Definition is_sac (s : Seg.t) : bool := Label_eqb (Seg.label s) lbl_sac.

(** Lines 630-631: the two selections of the segment table. *)
Definition fix_segments (seg : list Seg.t) : list Seg.t :=
  filter (fun s => is_fix s && Qle_bool FIX_MIN_S (Seg.dur s)) seg.

Definition sac_segments (seg : list Seg.t) : list Seg.t := filter is_sac seg.

Section MetricCalculator.
Variable np_sqrt : Q -> Q.

Definition metricas_paciente_por_estimulo (df_pac_est : DataFrame) : Metrics :=
  match df_pac_est with
  | [] => mkMetrics None None 0 None 0 None 0 None
  | _ :: _ =>
      match janela_exploracao df_pac_est with
      | (explore, t0, t_resp, t_total, resposta) =>
          let tempo := option_map (fun t => py_round t 3) t_total in
          match explore with
          | [] => mkMetrics resposta tempo 0 None 0 None 0 None
          | _ :: _ =>
              let (explore_ivt, vt) := rotular_ivt np_sqrt explore in
              let seg := segmentos_por_label explore_ivt in
              let fix_ := fix_segments seg in
              let sac := sac_segments seg in
              let disp := dispersao_area_bb explore in
              mkMetrics resposta tempo
                (length sac) (mean_dur sac)
                (length fix_) (mean_dur fix_)
                (py_round disp 6) (Some (py_round vt 4))
          end
      end
  end.

(** The segment table [seg] of line 629. *)
Definition segmentos_do_estimulo (df_pac_est : DataFrame) : list Seg.t :=
  segmentos_por_label
    (fst (rotular_ivt np_sqrt (jan_explore (janela_exploracao df_pac_est)))).

End MetricCalculator.

(** ** Grouping by subject *)

Definition same_pid (p : string) (r : Sample) : bool :=
  String.eqb (paciente_id r) p.

(** [len(df["paciente_id"].unique())]. *)
Definition n_pacientes (df : DataFrame) : nat :=
  length (unique_by String.eqb (map paciente_id df)).

(** The rows of one subject, in table order: one group of
    [df.groupby("paciente_id")]. *)
Definition grupo_de (p : string) (df : DataFrame) : DataFrame :=
  filter (same_pid p) df.

(** pandas puts the per-group results of a row-preserving function back
    on the row labels of the table: the value at a row is the one its group
    computed for that row.  [res p] is what remains of the result of
    group [p]. *)
Fixpoint align {B : Type} (res : string -> list B) (df : DataFrame) : list B :=
  match df with
  | [] => []
  | r :: df' =>
      match res (paciente_id r) with
      | b :: bs =>
          b :: align (fun p => if String.eqb p (paciente_id r) then bs else res p) df'
      | [] => align res df'
      end
  end.

(** [df.groupby("paciente_id", group_keys=False).apply(f)] for an [f]
    that returns one value per row of its group. *)
Definition groupby_apply {B : Type} (f : DataFrame -> list B) (df : DataFrame)
  : list B :=
  align (fun p => f (grupo_de p df)) df.

(** ** Coordinate normaliser: [normalizar_coordenadas] (lines 121-152) *)

Definition set_X (r : Sample) (v : Q) : Sample :=
  mkSample (Key r) (Timestamp r) (t_sec r) v (Y r)
    (Stimuli r) (paciente_id r) (grupo r).

Definition set_Y (r : Sample) (v : Q) : Sample :=
  mkSample (Key r) (Timestamp r) (t_sec r) (X r) v
    (Stimuli r) (paciente_id r) (grupo r).

Definition _normalizar_grupo (g : DataFrame) : DataFrame :=
  match series_min (map X g), series_max (map X g),
        series_min (map Y g), series_max (map Y g) with
  | Some x_min, Some x_max, Some y_min, Some y_max =>
      let g :=
        if Qltb RANGE_EPS (x_max - x_min)
        then map (fun r => set_X r ((X r - x_min) / (x_max - x_min))) g
        else map (fun r => set_X r (1 # 2)) g in
      let g :=
        if Qltb RANGE_EPS (y_max - y_min)
        then map (fun r => set_Y r ((Y r - y_min) / (y_max - y_min))) g
        else map (fun r => set_Y r (1 # 2)) g in
      g
  | _, _, _, _ => g
  end.

(** What lines 135-138 (and 140-143) store for a coordinate [v] of a group
    whose column has minimum [mn] and maximum [mx]. *)
Definition escala (mn mx v : Q) : Q :=
  if Qltb RANGE_EPS (mx - mn) then (v - mn) / (mx - mn) else 1 # 2.

(** Both coordinates of a row lie in the unit interval. *)
Definition unit_coords (r : Sample) : Prop :=
  0 <= X r <= 1 /\ 0 <= Y r <= 1.

(** What [_normalizar_grupo] makes of one row of the group [g]. *)
Definition normalizar_linha (g : DataFrame) (r : Sample) : Sample :=
  match series_min (map X g), series_max (map X g),
        series_min (map Y g), series_max (map Y g) with
  | Some x_min, Some x_max, Some y_min, Some y_max =>
      set_Y (set_X r (escala x_min x_max (X r))) (escala y_min y_max (Y r))
  | _, _, _, _ => r
  end.

Definition is_empty {A : Type} (l : list A) : bool :=
  match l with [] => true | _ :: _ => false end.

Definition normalizar_coordenadas (df : DataFrame) : DataFrame :=
  if negb NORMALIZAR_COORDS || is_empty df then df
  else if (1 <? n_pacientes df)%nat
       then groupby_apply _normalizar_grupo df
       else _normalizar_grupo df.

(** ** Cleaning and outlier filter: [limpar_e_outliers] (lines 260-319) *)

(** [sort_values(["paciente_id", "t_sec"])]. *)
Definition pid_t_leb (a b : Sample) : bool :=
  match String.compare (paciente_id a) (paciente_id b) with
  | Lt => true
  | Eq => Qle_bool (t_sec a) (t_sec b)
  | Gt => false
  end.

(** Lines 278-282.  A missing quartile (empty group) compares false. *)
Definition _iqr_mask (g : DataFrame) (col : Sample -> Q) : list bool :=
  match percentile (map col g) 25, percentile (map col g) 75 with
  | Some q1, Some q3 =>
      let iqr := q3 - q1 in
      let lo := q1 - (3 # 2) * iqr in
      let hi := q3 + (3 # 2) * iqr in
      map (fun r => Qle_bool lo (col r) && Qle_bool (col r) hi) g
  | _, _ => map (fun _ => false) g
  end.

(** [df[mask]] for a boolean series on the rows of [df]. *)
Definition select {A : Type} (df : list A) (mask : list bool) : list A :=
  map fst (filter snd (combine df mask)).

(** Line 312: [(df["dt"] != 0) | (df["dt"].isna())]. *)
Definition dt_keep (d : option Q) : bool :=
  match d with
  | Some v => negb (Qeq_bool v 0)
  | None => true
  end.

Definition limpar_e_outliers (df : DataFrame) : DataFrame :=
  if is_empty df then df
  else
    let df := filter (fun r => negb (Qeq_bool (X r) 0 && Qeq_bool (Y r) 0)) df in
    let df := sort_by pid_t_leb df in
    let mask_x :=
      if (1 <? n_pacientes df)%nat
      then groupby_apply (fun g => _iqr_mask g X) df
      else _iqr_mask df X in
    let mask_y :=
      if (1 <? n_pacientes df)%nat
      then groupby_apply (fun g => _iqr_mask g Y) df
      else _iqr_mask df Y in
    let df := select df (map (fun p => fst p && snd p) (combine mask_x mask_y)) in
    let dts :=
      if (1 <? n_pacientes df)%nat
      then groupby_apply (fun g => diff (map t_sec g)) df
      else diff (map t_sec df) in
    select df (map dt_keep dts).

(** The stages of [limpar_e_outliers], named for the proofs: the dropout
    test of line 270, the outlier filter of lines 284-300 and the duplicate
    filter of lines 305-312, each on a whole table and on one group. *)
Definition nao_nulo (r : Sample) : bool :=
  negb (Qeq_bool (X r) 0 && Qeq_bool (Y r) 0).

Definition e_mascaras (mx my : list bool) : list bool :=
  map (fun p => fst p && snd p) (combine mx my).

Definition iqr_grupo (g : DataFrame) : DataFrame :=
  select g (e_mascaras (_iqr_mask g X) (_iqr_mask g Y)).

Definition dup_grupo (g : DataFrame) : DataFrame :=
  select g (map dt_keep (diff (map t_sec g))).

Definition iqr_stage (df : DataFrame) : DataFrame :=
  select df
    (e_mascaras
       (if (1 <? n_pacientes df)%nat
        then groupby_apply (fun g => _iqr_mask g X) df else _iqr_mask df X)
       (if (1 <? n_pacientes df)%nat
        then groupby_apply (fun g => _iqr_mask g Y) df else _iqr_mask df Y)).

Definition dup_stage (df : DataFrame) : DataFrame :=
  select df
    (map dt_keep
       (if (1 <? n_pacientes df)%nat
        then groupby_apply (fun g => diff (map t_sec g)) df
        else diff (map t_sec df))).

(** Lines 279-282 on one row of the group [g]. *)
Definition dentro_iqr (g : DataFrame) (col : Sample -> Q) (r : Sample) : bool :=
  match percentile (map col g) 25, percentile (map col g) 75 with
  | Some q1, Some q3 =>
      Qle_bool (q1 - (3 # 2) * (q3 - q1)) (col r) &&
      Qle_bool (col r) (q3 + (3 # 2) * (q3 - q1))
  | _, _ => false
  end.

(** ** Inter-group statistics: [estatisticas_inter_grupo] (lines 941-1030) *)

(** A row of a metric table: the dictionary of
    [metricas_paciente_por_estimulo] with the three identifying columns
    added by the callers (lines 693-695). *)
Record MetRow : Type := mkMetRow {
  met : Metrics;
  met_paciente_id : string;
  met_grupo : string;
  met_Stimuli : string
}.

Definition of_nat_Q (k : nat) : Q := inject_Z (Z.of_nat k).

(** The compared columns, by name, with their readers; [None] is a
    missing entry, which [dropna] removes. *)
Definition METRICAS_COMPARAR : list (string * (Metrics -> option Q)) :=
  [ ("tempo_resposta_s"%string, tempo_resposta_s);
    ("n_sacadas"%string, fun m => Some (of_nat_Q (n_sacadas m)));
    ("tempo_medio_sacada_s"%string, tempo_medio_sacada_s);
    ("n_fixacoes"%string, fun m => Some (of_nat_Q (n_fixacoes m)));
    ("duracao_media_fix_s"%string, duracao_media_fix_s);
    ("dispersao_area"%string, fun m => Some (dispersao_area m)) ].

Module Stat.
Record t : Type := mk {
  Stimuli : string;
  Metrica : string;
  Controle_media : option Q;
  Controle_desvio : option Q;
  Afasico_media : option Q;
  Afasico_desvio : option Q;
  MannWhitney_U : option Q;
  p_value : option Q
}.
End Stat.

(** [ctrl[m].dropna().values]. *)
Fixpoint dropna (l : list (option Q)) : list Q :=
  match l with
  | [] => []
  | Some v :: l' => v :: dropna l'
  | None :: l' => dropna l'
  end.

Definition round6 (o : option Q) : option Q :=
  option_map (fun v => py_round v 6) o.

(** [sort_values(["Stimuli", "Metrica"])]. *)
Definition stat_leb (a b : Stat.t) : bool :=
  match String.compare (Stat.Stimuli a) (Stat.Stimuli b) with
  | Lt => true
  | Eq => String.leb (Stat.Metrica a) (Stat.Metrica b)
  | Gt => false
  end.

(** Lines 978-983: the non-missing values of column [m] among the rows of
    stimulus [stim]. *)
Definition valores (m : string * (Metrics -> option Q)) (stim : string)
    (mets : list MetRow) : list Q :=
  dropna (map (fun r => snd m (met r))
            (filter (fun r => String.eqb (met_Stimuli r) stim) mets)).

Section InterGroup.
Variable np_sqrt : Q -> Q.
(** Whether SciPy could be imported (lines 37-41). *)
Variable SCIPY_OK : bool.
(** [mannwhitneyu(arr_c, arr_a, alternative="two-sided")]; [None] when the
    call raises. *)
Variable mannwhitneyu : list Q -> list Q -> option (Q * Q).

(** [np.std(arr, ddof=1)]. *)
Definition np_std_ddof1 (arr : list Q) : Q :=
  let m := mean arr in
  np_sqrt (Qsum (map (fun x => (x - m) ^ 2) arr) / of_nat_Q (length arr - 1)).

(** The body of the inner loop (lines 982-1014): the rows it appends. *)
Definition linha (stim : string) (ctrl afa : list MetRow)
    (m : string * (Metrics -> option Q)) : list Stat.t :=
  let arr_c := dropna (map (fun r => snd m (met r)) ctrl) in
  let arr_a := dropna (map (fun r => snd m (met r)) afa) in
  if is_empty arr_c && is_empty arr_a then []
  else
    let media_c := if (0 <? length arr_c)%nat then Some (mean arr_c) else None in
    let desvp_c := if (1 <? length arr_c)%nat then Some (np_std_ddof1 arr_c) else None in
    let media_a := if (0 <? length arr_a)%nat then Some (mean arr_a) else None in
    let desvp_a := if (1 <? length arr_a)%nat then Some (np_std_ddof1 arr_a) else None in
    let up :=
      if SCIPY_OK && (0 <? length arr_c)%nat && (0 <? length arr_a)%nat
      then match mannwhitneyu arr_c arr_a with
           | Some (u, p) => (Some u, Some p)
           | None => (None, None)
           end
      else (None, None) in
    [ Stat.mk stim (fst m) (round6 media_c) (round6 desvp_c)
        (round6 media_a) (round6 desvp_a) (round6 (fst up)) (round6 (snd up)) ].

Definition estatisticas_inter_grupo (mets_ctrl mets_afa : list MetRow)
  : list Stat.t :=
  if is_empty mets_ctrl && is_empty mets_afa then []
  else
    let stim_ctrl := map met_Stimuli mets_ctrl in
    let stim_afa := map met_Stimuli mets_afa in
    let stim_todos :=
      sort_by String.leb (unique_by String.eqb (stim_ctrl ++ stim_afa)) in
    let linhas :=
      flat_map
        (fun stim =>
           let ctrl := filter (fun r => String.eqb (met_Stimuli r) stim) mets_ctrl in
           let afa := filter (fun r => String.eqb (met_Stimuli r) stim) mets_afa in
           flat_map (linha stim ctrl afa) METRICAS_COMPARAR)
        stim_todos in
    sort_by stat_leb linhas.

End InterGroup.

(** ** Group tables: [processar_grupo_segmentado] (lines 723-827) and
    [processar_grupo_agrupado] (lines 830-935)

    Only what the two functions return is modelled; the figures and CSV
    files they write, and the per-subject reports of
    [processar_paciente_individual] whose result is not used, are left
    out. *)

(** [sort_values(["Stimuli", "paciente_id"])]. *)
Definition met_leb (a b : MetRow) : bool :=
  match String.compare (met_Stimuli a) (met_Stimuli b) with
  | Lt => true
  | Eq => String.leb (met_paciente_id a) (met_paciente_id b)
  | Gt => false
  end.

Module Agrup.
Record t : Type := mk {
  paciente_id : string;
  grupo : string;
  n_estimulos : nat;
  tempo_resposta_medio_s : option Q;
  total_sacadas : nat;
  tempo_medio_sacada_s : option Q;
  total_fixacoes : nat;
  duracao_media_fix_s : option Q;
  dispersao_media : Q
}.
End Agrup.

(** The running totals of lines 864-871. *)
Record Acc : Type := mkAcc {
  total_tempo : Q;
  total_sac : nat;
  total_fix : nat;
  soma_dur_sac : Q;
  soma_dur_fix : Q;
  soma_disp : Q;
  n_estimulos : nat
}.

(** One turn of the loop over the stimuli (lines 876-890). *)
Definition acumular (acc : Acc) (m : Metrics) : Acc :=
  mkAcc
    (match tempo_resposta_s m with
     | Some t => total_tempo acc + t
     | None => total_tempo acc
     end)
    (total_sac acc + n_sacadas m)
    (total_fix acc + n_fixacoes m)
    (match tempo_medio_sacada_s m with
     | Some d => soma_dur_sac acc + d * of_nat_Q (n_sacadas m)
     | None => soma_dur_sac acc
     end)
    (match duracao_media_fix_s m with
     | Some d => soma_dur_fix acc + d * of_nat_Q (n_fixacoes m)
     | None => soma_dur_fix acc
     end)
    (soma_disp acc + dispersao_area m)
    (match tempo_resposta_s m with
     | Some _ => S (n_estimulos acc)
     | None => n_estimulos acc
     end).

(** Lines 893-908: the row of one subject from the final totals. *)
Definition linha_agrupada (pid grupo : string) (acc : Acc) : Agrup.t :=
  let tempo_medio :=
    if (0 <? n_estimulos acc)%nat
    then Some (total_tempo acc / of_nat_Q (n_estimulos acc)) else None in
  let tempo_medio_sac :=
    if (0 <? total_sac acc)%nat
    then Some (soma_dur_sac acc / of_nat_Q (total_sac acc)) else None in
  let dur_media_fix :=
    if (0 <? total_fix acc)%nat
    then Some (soma_dur_fix acc / of_nat_Q (total_fix acc)) else None in
  let disp_media :=
    if (0 <? n_estimulos acc)%nat
    then soma_disp acc / of_nat_Q (n_estimulos acc) else 0 in
  Agrup.mk pid grupo (n_estimulos acc)
    (option_map (fun t => py_round t 3) tempo_medio)
    (total_sac acc)
    (option_map (fun t => py_round t 4) tempo_medio_sac)
    (total_fix acc)
    (option_map (fun t => py_round t 4) dur_media_fix)
    (py_round disp_media 6).

Section GroupTables.
Variable np_sqrt : Q -> Q.

(** The metric dictionaries of one subject, one per stimulus, in order of
    first appearance of the stimuli (lines 873-875). *)
Definition metricas_por_estimulo (df_pac : DataFrame) : list Metrics :=
  map (fun stim =>
         metricas_paciente_por_estimulo np_sqrt
           (filter (fun r => String.eqb (Stimuli r) stim) df_pac))
    (unique_by String.eqb (map Stimuli df_pac)).

Definition processar_grupo_agrupado (df_grupo : DataFrame) (grupo : string)
  : list Agrup.t :=
  if is_empty df_grupo then []
  else
    let mets_rows :=
      map (fun pid =>
             let df_pac := filter (fun r => String.eqb (paciente_id r) pid) df_grupo in
             linha_agrupada pid grupo
               (fold_left acumular (metricas_por_estimulo df_pac)
                  (mkAcc 0 0 0 0 0 0 0)))
        (unique_by String.eqb (map paciente_id df_grupo)) in
    sort_by (fun a b => String.leb (Agrup.paciente_id a) (Agrup.paciente_id b))
      mets_rows.

Definition processar_grupo_segmentado (df_grupo : DataFrame) (grupo : string)
  : DataFrame * list MetRow :=
  if is_empty df_grupo then (df_grupo, [])
  else
    let df_grupo := normalizar_coordenadas df_grupo in
    let estimulos :=
      sort_by String.leb (unique_by String.eqb (map Stimuli df_grupo)) in
    let mets_rows :=
      flat_map
        (fun stim =>
           let df_est := filter (fun r => String.eqb (Stimuli r) stim) df_grupo in
           map (fun pid =>
                  let df_pac :=
                    filter (fun r => String.eqb (paciente_id r) pid) df_est in
                  mkMetRow (metricas_paciente_por_estimulo np_sqrt df_pac)
                    pid grupo stim)
             (unique_by String.eqb (map paciente_id df_est)))
        estimulos in
    (df_grupo, sort_by met_leb mets_rows).

End GroupTables.

(** ** Subject identifier from a file name: [extrair_paciente_id]
    (lines 75-87)

    [os.path] is the POSIX one: the separator is ["/"]. *)

Fixpoint contem (c : ascii) (s : string) : bool :=
  match s with
  | EmptyString => false
  | String a s' => Ascii.eqb a c || contem c s'
  end.

(** [s[s.rfind(c) + 1:]]: all of [s] when [c] does not occur. *)
Fixpoint depois_do_ultimo (c : ascii) (s : string) : string :=
  match s with
  | EmptyString => EmptyString
  | String a s' =>
      if contem c s' then depois_do_ultimo c s'
      else if Ascii.eqb a c then s' else s
  end.

(** [s[:s.rfind(c)]] for an [s] in which [c] occurs. *)
Fixpoint antes_do_ultimo (c : ascii) (s : string) : string :=
  match s with
  | EmptyString => EmptyString
  | String a s' =>
      if contem c s' then String a (antes_do_ultimo c s') else EmptyString
  end.

Fixpoint so_pontos (s : string) : bool :=
  match s with
  | EmptyString => true
  | String a s' => Ascii.eqb a "." && so_pontos s'
  end.

(** [os.path.basename]. *)
Definition basename (p : string) : string := depois_do_ultimo "/" p.

(** [os.path.splitext(b)[0]] for a [b] without separator: the part before
    the last dot, unless only dots come before it. *)
Definition splitext_root (b : string) : string :=
  if contem "." b then
    let r := antes_do_ultimo "." b in
    if so_pontos r then b else r
  else b.

(** [s.split(c, 1)[1]] when [c] is in [s]. *)
Fixpoint depois_do_primeiro (c : ascii) (s : string) : option string :=
  match s with
  | EmptyString => None
  | String a s' => if Ascii.eqb a c then Some s' else depois_do_primeiro c s'
  end.

Definition extrair_paciente_id (nome_arquivo : string) : string :=
  let base := basename nome_arquivo in
  let stem := splitext_root base in
  match depois_do_primeiro "_" stem with
  | Some r => r
  | None => stem
  end.

(** ** Running the model *)

(** An executable square root for the examples: the integer square root of
    the argument scaled by [10^24]. *)
Definition sqrt_approx (q : Q) : Q :=
  inject_Z (Z.sqrt (Qfloor (q * inject_Z (10 ^ 24)))) / inject_Z (10 ^ 12).

Definition amostra (p : string) (k : Z) (t x y : Q) : Sample :=
  mkSample k (t * 1000000) t x y "trog1.png" p "controle".

(** The scenario of the specification: three exploration samples and a
    response. *)
Definition scenario : DataFrame :=
  [ amostra "p1" 0 0 (1 # 10) (1 # 10);
    amostra "p1" 0 (50 # 1000) (1 # 10) (1 # 10);
    amostra "p1" 0 (300 # 1000) (9 # 10) (9 # 10);
    amostra "p1" 1 (310 # 1000) (91 # 100) (9 # 10) ].

(** Three samples of one trial, the second half a microsecond after the
    first. *)
Definition sub_microsecond : DataFrame :=
  [ amostra "p1" 0 0 0 0;
    amostra "p1" 0 (1 # 2000000) 0 0;
    amostra "p1" 0 1 (1 # 2) (1 # 2) ].

(** A trial answered on its very first sample. *)
Definition resposta_imediata : DataFrame :=
  [ amostra "p1" 0 (2 # 10) (1 # 10) (1 # 10);
    amostra "p1" 3 (1 # 10) (1 # 10) (1 # 10);
    amostra "p1" 0 (3 # 10) (2 # 10) (1 # 10) ].

(** Three samples at rest over 80 ms, then a jump and the response. *)
Definition fixacao_curta : DataFrame :=
  [ amostra "p1" 0 0 (1 # 10) (1 # 10);
    amostra "p1" 0 (4 # 100) (1 # 10) (1 # 10);
    amostra "p1" 0 (8 # 100) (1 # 10) (1 # 10);
    amostra "p1" 0 (9 # 100) (9 # 10) (9 # 10);
    amostra "p1" 2 (10 # 100) (9 # 10) (9 # 10) ].

(** A metric table with one subject and one stimulus. *)
Definition mets_um_paciente : list MetRow :=
  [ mkMetRow (mkMetrics (Some 1%Z) (Some (31 # 100)) 1 (Some 0) 0 None
                (64 # 100) (Some (3 # 1)))
      "p1" "afasico" "trog1.png" ].

(** One subject, three samples, nothing to remove. *)
Definition tabela_limpa : DataFrame :=
  [ amostra "p1" 0 0 1 1; amostra "p1" 0 1 2 2; amostra "p1" 0 2 3 3 ].

Definition two_subjects : DataFrame :=
  [ amostra "p2" 0 (2 # 10) 5 7; amostra "p1" 0 0 100 200;
    amostra "p2" 0 (1 # 10) 3 9; amostra "p1" 0 (1 # 10) 300 200;
    amostra "p1" 0 (1 # 10) 200 250; amostra "p2" 0 0 0 0;
    amostra "p1" 0 (3 # 10) 150 100; amostra "p2" 0 (3 # 10) 4 8 ].

(** * Properties *)

(** ** Lists and columns *)

Lemma map_fst_combine {A B : Type} (l : list A) (l' : list B) :
  (length l <= length l')%nat -> map fst (combine l l') = l.
Proof.
  revert l'; induction l as [|a l IH]; intros [|b l'] H; simpl in *;
    try reflexivity; try lia.
  f_equal. apply IH. lia.
Qed.

Lemma map_snd_combine {A B : Type} (l : list A) (l' : list B) :
  (length l' <= length l)%nat -> map snd (combine l l') = l'.
Proof.
  revert l'; induction l as [|a l IH]; intros [|b l'] H; simpl in *;
    try reflexivity; try lia.
  f_equal. apply IH. lia.
Qed.

Lemma diff_from_length (p : Q) (l : list Q) : length (diff_from p l) = length l.
Proof. revert p; induction l; intros; simpl; auto. Qed.

Lemma diff_length (l : list Q) : length (diff l) = length l.
Proof. destruct l; simpl; auto using diff_from_length. Qed.

Lemma fillna_length (d : Q) (l : list (option Q)) : length (fillna d l) = length l.
Proof. apply length_map. Qed.

Lemma replace_length (a b : Q) (l : list Q) : length (replace a b l) = length l.
Proof. apply length_map. Qed.

Lemma cumsum_from_length (acc : Z) (l : list bool) :
  length (cumsum_from acc l) = length l.
Proof. revert acc; induction l; intros; simpl; auto. Qed.

Lemma shift_length {A : Type} (l : list A) : length (shift l) = length l.
Proof.
  destruct l as [|a l]; [reflexivity|].
  unfold shift. cbn [length]. rewrite length_map.
  assert (H : forall (x : A) (m : list A), length (removelast (x :: m)) = length m).
  { intros x m; revert x; induction m as [|y m IH]; intros x; [reflexivity|].
    change (removelast (x :: y :: m)) with (x :: removelast (y :: m)).
    cbn [length]. now rewrite IH. }
  now rewrite H.
Qed.

Lemma seg_ids_length (labels : list Label) : length (seg_ids labels) = length labels.
Proof.
  unfold seg_ids, cumsum.
  rewrite cumsum_from_length, length_map, length_combine, shift_length. lia.
Qed.

Lemma dt_column_length (e : DataFrame) : length (dt_column e) = length e.
Proof.
  unfold dt_column.
  now rewrite length_map, replace_length, fillna_length, diff_length, length_map.
Qed.

(** ** The sort *)

Section SortFacts.
Context {A : Type} (leb : A -> A -> bool).

Lemma insert_by_perm (a : A) (l : list A) : Permutation (a :: l) (insert_by leb a l).
Proof.
  induction l as [|b l IH]; simpl; [reflexivity|].
  destruct (leb a b); [reflexivity|].
  rewrite perm_swap. now apply perm_skip.
Qed.

Lemma sort_by_perm (l : list A) : Permutation l (sort_by leb l).
Proof.
  induction l as [|a l IH]; simpl; [reflexivity|].
  rewrite <- insert_by_perm. now apply perm_skip.
Qed.

Lemma sort_by_length (l : list A) : length (sort_by leb l) = length l.
Proof. symmetry. apply Permutation_length, sort_by_perm. Qed.

Lemma sort_by_In (x : A) (l : list A) : In x (sort_by leb l) <-> In x l.
Proof.
  split; intros H.
  - eapply Permutation_in; [symmetry; apply sort_by_perm | exact H].
  - eapply Permutation_in; [apply sort_by_perm | exact H].
Qed.

Hypothesis leb_total : forall a b, leb a b = true \/ leb b a = true.
Hypothesis leb_trans : forall a b c, leb a b = true -> leb b c = true -> leb a c = true.

Lemma insert_by_sorted (a : A) (l : list A) :
  sorted_by leb l -> sorted_by leb (insert_by leb a l).
Proof.
  induction 1 as [|b l Hs IH Hb]; simpl.
  - repeat constructor.
  - destruct (leb a b) eqn:E.
    + constructor; [constructor; assumption|].
      constructor; [assumption|].
      eapply Forall_impl; [|exact Hb]. intros c Hc. eauto.
    + constructor; [assumption|].
      rewrite Forall_forall. intros c Hc.
      apply (Permutation_in _ (Permutation_sym (insert_by_perm a l))) in Hc.
      destruct Hc as [<-|Hc].
      * destruct (leb_total a b) as [H|H]; [congruence|exact H].
      * rewrite Forall_forall in Hb. now apply Hb.
Qed.

Lemma sort_by_sorted (l : list A) : sorted_by leb (sort_by leb l).
Proof.
  induction l; simpl; [constructor | now apply insert_by_sorted].
Qed.

(** A stable sort commutes with the selection of rows. *)
Lemma filter_insert_by (P : A -> bool) (a : A) (l : list A) :
  sorted_by leb l ->
  filter P (insert_by leb a l) =
  if P a then insert_by leb a (filter P l) else filter P l.
Proof.
  induction 1 as [|b l Hs IH Hb]; simpl.
  - destruct (P a); reflexivity.
  - destruct (leb a b) eqn:E.
    + simpl. destruct (P a) eqn:Pa; [|reflexivity].
      destruct (P b) eqn:Pb; simpl; [now rewrite E|].
      assert (Hall : Forall (fun c => leb a c = true) (filter P l)).
      { rewrite Forall_forall. intros c Hc. apply filter_In in Hc.
        destruct Hc as [Hc _]. rewrite Forall_forall in Hb.
        eapply leb_trans; [exact E | now apply Hb]. }
      destruct (filter P l) as [|c m]; [reflexivity|].
      simpl. inversion Hall as [|? ? Hc _]; subst. now rewrite Hc.
    + simpl. rewrite IH.
      destruct (P b) eqn:Pb; destruct (P a) eqn:Pa; simpl;
        try rewrite E; reflexivity.
Qed.

Lemma filter_sort_by (P : A -> bool) (l : list A) :
  filter P (sort_by leb l) = sort_by leb (filter P l).
Proof.
  induction l as [|a l IH]; simpl; [reflexivity|].
  rewrite filter_insert_by by apply sort_by_sorted.
  destruct (P a); simpl; now rewrite IH.
Qed.

End SortFacts.

(** ** Segment numbering *)

Lemma Label_eqb_eq (a b : Label) : Label_eqb a b = true <-> a = b.
Proof. destruct a, b; simpl; split; congruence. Qed.

Lemma seg_from_shift (rest : list Label) (acc : Z) (prev : Label) :
  cumsum_from acc
    (map (fun p : Label * option Label =>
            match snd p with
            | Some l' => negb (Label_eqb (fst p) l')
            | None => true
            end)
       (combine rest (map Some (removelast (prev :: rest)))))
  = seg_from acc prev rest.
Proof.
  revert acc prev; induction rest as [|l rest IH]; intros acc prev.
  - reflexivity.
  - change (removelast (prev :: l :: rest)) with (prev :: removelast (l :: rest)).
    cbn [map combine cumsum_from seg_from fst snd].
    f_equal. apply IH.
Qed.

Lemma seg_ids_cons (l0 : Label) (rest : list Label) :
  seg_ids (l0 :: rest) = 1%Z :: seg_from 1 l0 rest.
Proof.
  unfold seg_ids, cumsum, shift.
  cbn [combine map cumsum_from snd]. f_equal.
  apply seg_from_shift.
Qed.

Lemma seg_from_adjacent (ls : list Label) :
  forall (acc : Z) (prev : Label) (i : nat) (la lb : Label) (sa sb : Z),
    nth_error (prev :: ls) i = Some la ->
    nth_error (prev :: ls) (S i) = Some lb ->
    nth_error (acc :: seg_from acc prev ls) i = Some sa ->
    nth_error (acc :: seg_from acc prev ls) (S i) = Some sb ->
    sb = (sa + if negb (Label_eqb lb la) then 1 else 0)%Z.
Proof.
  induction ls as [|l ls IH]; intros acc prev i la lb sa sb Ha Hb Hsa Hsb.
  - destruct i; simpl in Hb; [discriminate | destruct i; discriminate].
  - destruct i as [|i].
    + cbn [nth_error seg_from] in Ha, Hb, Hsa, Hsb.
      injection Ha as <-. injection Hb as <-. injection Hsa as <-.
      injection Hsb as <-. reflexivity.
    + cbn [seg_from] in Hsa, Hsb.
      eapply (IH _ l i la lb sa sb); eauto.
Qed.

Lemma seg_from_lower (ls : list Label) (acc : Z) (prev : Label) :
  Forall (fun s => (acc <= s)%Z) (seg_from acc prev ls).
Proof.
  revert acc prev; induction ls as [|l ls IH]; intros acc prev; simpl.
  - constructor.
  - constructor.
    + destruct (negb (Label_eqb l prev)); lia.
    + eapply Forall_impl; [|apply IH]. intros s Hs. cbv beta in Hs.
      destruct (negb (Label_eqb l prev)); lia.
Qed.

Lemma seg_from_sorted (ls : list Label) (acc : Z) (prev : Label) :
  StronglySorted Z.le (acc :: seg_from acc prev ls).
Proof.
  revert acc prev; induction ls as [|l ls IH]; intros acc prev.
  - repeat constructor.
  - constructor; [|apply seg_from_lower].
    cbn [seg_from]. specialize (IH (acc + (if negb (Label_eqb l prev) then 1 else 0))%Z l).
    exact IH.
Qed.

Lemma StronglySorted_nth_error {A : Type} (R : A -> A -> Prop) (l : list A) :
  StronglySorted R l ->
  forall i j a b, (i < j)%nat ->
    nth_error l i = Some a -> nth_error l j = Some b -> R a b.
Proof.
  induction 1 as [|x l Hs IH Hx]; intros i j a b Hij Ha Hb.
  - destruct i; discriminate.
  - destruct j as [|j]; [lia|]. simpl in Hb.
    destruct i as [|i]; simpl in Ha.
    + injection Ha as <-. rewrite Forall_forall in Hx.
      apply Hx. eapply nth_error_In; eauto.
    + eapply IH; [|eauto|eauto]. lia.
Qed.

(** What line 412 guarantees for any column of labels. *)
Lemma seg_ids_spec (labels : list Label) :
  (forall l0 rest, labels = l0 :: rest -> hd_error (seg_ids labels) = Some 1%Z) /\
  (forall i j sa sb, (i <= j)%nat ->
     nth_error (seg_ids labels) i = Some sa ->
     nth_error (seg_ids labels) j = Some sb -> (sa <= sb)%Z) /\
  (forall i la lb sa sb,
     nth_error labels i = Some la -> nth_error labels (S i) = Some lb ->
     nth_error (seg_ids labels) i = Some sa ->
     nth_error (seg_ids labels) (S i) = Some sb ->
     sb = (sa + if negb (Label_eqb lb la) then 1 else 0)%Z).
Proof.
  destruct labels as [|l0 rest].
  - split; [|split]; intros.
    + discriminate.
    + destruct i; discriminate.
    + destruct i; discriminate.
  - rewrite seg_ids_cons. split; [|split].
    + reflexivity.
    + intros i j sa sb Hij Ha Hb.
      destruct (Nat.eq_dec i j) as [->|Hne]; [assert (sa = sb) by congruence; lia|].
      eapply (StronglySorted_nth_error Z.le _ (seg_from_sorted rest 1 l0) i j);
        eauto; lia.
    + intros. eapply seg_from_adjacent; eauto.
Qed.

(** ** The velocity classifier *)

Lemma py_max_lower (a b : Q) : b <= py_max a b.
Proof.
  unfold py_max, Qltb. destruct (Qle_bool b a) eqn:E; simpl.
  - now apply Qle_bool_iff.
  - apply Qle_refl.
Qed.

Lemma py_max_Qmax (a b : Q) : py_max a b == Qmax a b.
Proof.
  unfold py_max, Qltb. destruct (Qle_bool b a) eqn:E; simpl.
  - apply Qle_bool_iff in E. symmetry. now apply Q.max_l.
  - assert (H : ~ b <= a) by (intros H; apply Qle_bool_iff in H; congruence).
    symmetry. apply Q.max_r. apply Qnot_le_lt in H. now apply Qlt_le_weak.
Qed.

Lemma limiar_lower (speeds : list Q) : VEL_MIN <= limiar speeds.
Proof.
  unfold limiar.
  destruct (series_max speeds) as [m|]; [|apply Qle_refl].
  destruct (Qltb 0 m); [|apply Qle_refl].
  destruct (percentile speeds PERCENTIL_LIMIAR_VEL); [apply py_max_lower | apply Qle_refl].
Qed.

Section ClassifierFacts.
Variable np_sqrt : Q -> Q.

Lemma speed_column_length (dxs dys dts : list Q) :
  length dxs = length dts -> length dys = length dts ->
  length (speed_column np_sqrt dxs dys dts) = length dts.
Proof.
  intros H1 H2. unfold speed_column.
  rewrite length_map, !length_combine. lia.
Qed.

Lemma zip_ivt_columns (e : DataFrame) (dxs dys dts speeds : list Q)
    (labels : list Label) (segs : list Z) :
  length dxs = length e -> length dys = length e -> length dts = length e ->
  length speeds = length e -> length labels = length e ->
  length segs = length e ->
  map sample (zip_ivt e dxs dys dts speeds labels segs) = e /\
  map dx (zip_ivt e dxs dys dts speeds labels segs) = dxs /\
  map dy (zip_ivt e dxs dys dts speeds labels segs) = dys /\
  map dt (zip_ivt e dxs dys dts speeds labels segs) = dts /\
  map speed (zip_ivt e dxs dys dts speeds labels segs) = speeds /\
  map label (zip_ivt e dxs dys dts speeds labels segs) = labels /\
  map seg_id (zip_ivt e dxs dys dts speeds labels segs) = segs.
Proof.
  revert dxs dys dts speeds labels segs.
  induction e as [|r e IH];
    intros [|a dxs] [|b dys] [|c dts] [|s speeds] [|l labels] [|g segs];
    cbn [length]; intros H1 H2 H3 H4 H5 H6; try discriminate.
  - repeat split.
  - injection H1 as H1. injection H2 as H2. injection H3 as H3.
    injection H4 as H4. injection H5 as H5. injection H6 as H6.
    destruct (IH dxs dys dts speeds labels segs H1 H2 H3 H4 H5 H6)
      as (E0 & E1 & E2 & E3 & E4 & E5 & E6).
    unfold zip_ivt in *. cbn [combine map sample dx dy dt speed label seg_id].
    rewrite E0, E1, E2, E3, E4, E5, E6. repeat split.
Qed.

Lemma rotular_ivt_small (explore : DataFrame) :
  (length explore < 3)%nat ->
  rotular_ivt np_sqrt explore =
  (map (fun r => mkIvtRow r 0 0 0 0 lbl_fix 1%Z) explore, VEL_MIN).
Proof.
  intros H. unfold rotular_ivt.
  apply Nat.ltb_lt in H. now rewrite H.
Qed.

(** The columns of the normal case, over the time-sorted window. *)
Lemma rotular_ivt_normal (explore : DataFrame) :
  (3 <= length explore)%nat ->
  let s := sort_values_t explore in
  let dxs := fillna 0 (diff (map X s)) in
  let dys := fillna 0 (diff (map Y s)) in
  let dts := dt_column s in
  let speeds := speed_column np_sqrt dxs dys dts in
  let vt := limiar speeds in
  let labels := map (fun v => if Qle_bool v vt then lbl_fix else lbl_sac) speeds in
  let rows := fst (rotular_ivt np_sqrt explore) in
  snd (rotular_ivt np_sqrt explore) = vt /\
  length rows = length explore /\
  map sample rows = s /\ map dx rows = dxs /\ map dy rows = dys /\
  map dt rows = dts /\ map speed rows = speeds /\ map label rows = labels /\
  map seg_id rows = seg_ids labels.
Proof.
  intros H s dxs dys dts speeds vt labels rows.
  assert (Hn : (length explore <? 3)%nat = false) by (apply Nat.ltb_ge; lia).
  assert (Ls : length s = length explore) by apply sort_by_length.
  assert (L1 : length dxs = length s)
    by (unfold dxs; now rewrite fillna_length, diff_length, length_map).
  assert (L2 : length dys = length s)
    by (unfold dys; now rewrite fillna_length, diff_length, length_map).
  assert (L3 : length dts = length s) by apply dt_column_length.
  assert (L4 : length speeds = length s)
    by (unfold speeds; rewrite speed_column_length; lia).
  assert (L5 : length labels = length s) by (unfold labels; now rewrite length_map).
  assert (L6 : length (seg_ids labels) = length s) by now rewrite seg_ids_length.
  destruct (zip_ivt_columns s dxs dys dts speeds labels (seg_ids labels)
              L1 L2 L3 L4 L5 L6) as (E0 & E1 & E2 & E3 & E4 & E5 & E6).
  unfold rows, rotular_ivt. rewrite Hn. cbn [fst snd].
  fold s. fold dxs. fold dys. fold dts. fold speeds. fold vt. fold labels.
  repeat split; try assumption.
  rewrite <- Ls. rewrite <- E0 at 2. now rewrite length_map.
Qed.

Lemma rotular_ivt_seg_ids (explore : DataFrame) :
  map seg_id (fst (rotular_ivt np_sqrt explore)) =
  seg_ids (map label (fst (rotular_ivt np_sqrt explore))).
Proof.
  destruct (Nat.lt_ge_cases (length explore) 3) as [H|H].
  - rewrite rotular_ivt_small by assumption. cbn [fst].
    rewrite !map_map. cbn [seg_id label].
    destruct explore as [|r e]; [reflexivity|].
    cbn [map]. rewrite seg_ids_cons. f_equal.
    clear H.
    induction e as [|r' e IH]; [reflexivity|].
    cbn [map seg_from Label_eqb negb]. change (1 + 0)%Z with 1%Z.
    f_equal. exact IH.
  - destruct (rotular_ivt_normal explore H) as (_ & _ & _ & _ & _ & _ & _ & E5 & E6).
    now rewrite E6, E5.
Qed.

(** C1.  A window of fewer than three samples, the empty one included, is
    returned row for row with every sample labelled fixation, the columns
    [dx], [dy], [dt] and [speed] all zero and segment id 1 throughout, and
    the threshold returned is the velocity floor [VEL_MIN], which is 0.5. *)
Theorem rotular_ivt_degenerate (explore : DataFrame) :
  (length explore < 3)%nat ->
  map sample (fst (rotular_ivt np_sqrt explore)) = explore /\
  Forall (fun r => label r = lbl_fix /\ dx r = 0 /\ dy r = 0 /\ dt r = 0 /\
                   speed r = 0 /\ seg_id r = 1%Z)
    (fst (rotular_ivt np_sqrt explore)) /\
  snd (rotular_ivt np_sqrt explore) = VEL_MIN /\ VEL_MIN = 1 # 2.
Proof.
  intros H. rewrite rotular_ivt_small by assumption. cbn [fst snd].
  split; [|split; [|split; reflexivity]].
  - rewrite map_map. cbn [sample]. apply map_id.
  - rewrite Forall_forall. intros r Hr.
    apply in_map_iff in Hr. destruct Hr as (x & <- & _).
    repeat split.
Qed.

(** C3.  The threshold returned is never below the velocity floor.  With
    fewer than three samples it is the floor; otherwise the speed column
    has a maximum [m] and an 85th percentile [p], and the threshold is
    [max(p, VEL_MIN)] when [m > 0] and the floor when it is not. *)
Theorem limiar_acima_do_piso (explore : DataFrame) :
  VEL_MIN <= snd (rotular_ivt np_sqrt explore) /\
  ((length explore < 3)%nat -> snd (rotular_ivt np_sqrt explore) = VEL_MIN) /\
  ((3 <= length explore)%nat ->
   exists m p,
     series_max (map speed (fst (rotular_ivt np_sqrt explore))) = Some m /\
     percentile (map speed (fst (rotular_ivt np_sqrt explore)))
       PERCENTIL_LIMIAR_VEL = Some p /\
     (0 < m -> snd (rotular_ivt np_sqrt explore) = py_max p VEL_MIN /\
               snd (rotular_ivt np_sqrt explore) == Qmax p VEL_MIN) /\
     (~ 0 < m -> snd (rotular_ivt np_sqrt explore) = VEL_MIN)).
Proof.
  split; [|split].
  - destruct (Nat.lt_ge_cases (length explore) 3) as [H|H].
    + rewrite rotular_ivt_small by assumption. apply Qle_refl.
    + destruct (rotular_ivt_normal explore H) as (-> & _). apply limiar_lower.
  - intros H. now rewrite rotular_ivt_small.
  - intros H.
    destruct (rotular_ivt_normal explore H)
      as (-> & Hlen & _ & _ & _ & _ & -> & _).
    remember (speed_column np_sqrt _ _ _) as speeds eqn:Hs.
    assert (Hl : length speeds = length explore).
    { rewrite <- Hlen, Hs.
      destruct (rotular_ivt_normal explore H) as (_ & _ & _ & _ & _ & _ & E & _).
      rewrite <- E. now rewrite length_map. }
    destruct speeds as [|v speeds]; [simpl in Hl; lia|].
    unfold limiar. cbn [series_max percentile].
    eexists; eexists. split; [reflexivity|]. split; [reflexivity|].
    unfold Qltb.
    destruct (Qle_bool (fold_left Qmax speeds v) 0) eqn:E; cbn [negb]; split.
    + intros Hm. apply Qle_bool_iff in E. exfalso.
      apply (Qlt_irrefl 0). eapply Qlt_le_trans; eauto.
    + reflexivity.
    + intros _. split; [reflexivity | apply py_max_Qmax].
    + intros Hm. exfalso. apply Hm. apply Qnot_le_lt.
      intros Hle. apply Qle_bool_iff in Hle. congruence.
Qed.

(** C4.  In every table the classifier returns, the first row has segment
    id 1, segment ids never decrease along the table, and from one row to
    the next the id grows (by exactly one) if and only if the label
    changes, and is the same when the label is the same. *)
Theorem seg_id_muda_com_label (explore : DataFrame) :
  (forall r rest, fst (rotular_ivt np_sqrt explore) = r :: rest ->
     seg_id r = 1%Z) /\
  (forall i j a b, (i <= j)%nat ->
     nth_error (fst (rotular_ivt np_sqrt explore)) i = Some a ->
     nth_error (fst (rotular_ivt np_sqrt explore)) j = Some b ->
     (seg_id a <= seg_id b)%Z) /\
  (forall i a b,
     nth_error (fst (rotular_ivt np_sqrt explore)) i = Some a ->
     nth_error (fst (rotular_ivt np_sqrt explore)) (S i) = Some b ->
     ((seg_id a < seg_id b)%Z <-> label b <> label a) /\
     (label b <> label a -> seg_id b = (seg_id a + 1)%Z) /\
     (label b = label a -> seg_id b = seg_id a)).
Proof.
  pose proof (rotular_ivt_seg_ids explore) as E.
  remember (fst (rotular_ivt np_sqrt explore)) as rows eqn:Hrows. clear Hrows.
  destruct (seg_ids_spec (map label rows)) as (H1 & H2 & H3).
  rewrite <- E in H1, H2, H3.
  split; [|split].
  - intros r rest ->. specialize (H1 (label r) (map label rest) eq_refl).
    cbn in H1. congruence.
  - intros i j a b Hij Ha Hb.
    apply (H2 i j); [assumption| |]; now apply map_nth_error.
  - intros i a b Ha Hb.
    assert (Hs : seg_id b =
                 (seg_id a + if negb (Label_eqb (label b) (label a)) then 1 else 0)%Z).
    { apply (H3 i); now apply map_nth_error. }
    destruct (Label_eqb (label b) (label a)) eqn:L; cbn [negb] in Hs.
    + apply Label_eqb_eq in L. repeat split; intros; try lia; congruence.
    + assert (label b <> label a).
      { intros Heq. apply Label_eqb_eq in Heq. congruence. }
      repeat split; intros; try lia; try congruence.
Qed.

End ClassifierFacts.

Lemma rotular_ivt_degenerate_witness :
  (length (firstn 2 scenario) < 3)%nat /\
  snd (rotular_ivt sqrt_approx (firstn 2 scenario)) = VEL_MIN.
Proof.
  split; [simpl; lia|].
  apply (rotular_ivt_degenerate sqrt_approx (firstn 2 scenario)).
  simpl; lia.
Defined.

Lemma limiar_acima_do_piso_witness :
  VEL_MIN <= snd (rotular_ivt sqrt_approx (firstn 3 scenario)).
Proof. apply (limiar_acima_do_piso sqrt_approx (firstn 3 scenario)). Defined.

(** ** Deltas against the preceding sample *)

Lemma diff_from_nth_error (l : list Q) :
  forall (x : Q) (i : nat) (a b : Q),
    nth_error (x :: l) i = Some a -> nth_error l i = Some b ->
    nth_error (diff_from x l) i = Some (Some (b - a)).
Proof.
  induction l as [|y l IH]; intros x i a b Ha Hb.
  - destruct i; discriminate.
  - destruct i as [|i]; cbn [nth_error diff_from] in *.
    + congruence.
    + now apply IH.
Qed.

Lemma diff_nth_error (l : list Q) (i : nat) (a b : Q) :
  nth_error l i = Some a -> nth_error l (S i) = Some b ->
  nth_error (diff l) (S i) = Some (Some (b - a)).
Proof.
  destruct l as [|x l]; [destruct i; discriminate|].
  intros Ha Hb. cbn [diff nth_error] in *. now apply diff_from_nth_error.
Qed.

Lemma column_diff_nth_error (col : Sample -> Q) (s : DataFrame) (i : nat)
    (a b : Sample) :
  nth_error s i = Some a -> nth_error s (S i) = Some b ->
  nth_error (fillna 0 (diff (map col s))) (S i) = Some (col b - col a).
Proof.
  intros Ha Hb.
  pose proof (diff_nth_error (map col s) i (col a) (col b)
                (map_nth_error col _ _ Ha) (map_nth_error col _ _ Hb)) as D.
  unfold fillna. now rewrite (map_nth_error _ _ _ D).
Qed.

(** Lines 386-387 on one value: it is raised to [1e-6] when it is below
    it and kept otherwise. *)
Lemma dt_clamp (raw : Q) :
  (raw < DT_EPS -> py_max (if Qeq_bool raw 0 then DT_EPS else raw) DT_EPS = DT_EPS) /\
  (DT_EPS <= raw -> py_max (if Qeq_bool raw 0 then DT_EPS else raw) DT_EPS = raw).
Proof.
  destruct (Qeq_bool raw 0) eqn:E.
  - apply Qeq_bool_iff in E. split; intros H; [reflexivity|].
    exfalso. rewrite E in H. revert H. unfold DT_EPS. apply Qlt_not_le. reflexivity.
  - unfold py_max, Qltb. split; intros H.
    + destruct (Qle_bool DT_EPS raw) eqn:L; [|reflexivity].
      apply Qle_bool_iff in L. exfalso. now apply (Qlt_not_le _ _ H).
    + apply Qle_bool_iff in H. now rewrite H.
Qed.

Lemma dt_column_nth_error (s : DataFrame) (i : nat) (a b : Sample) :
  nth_error s i = Some a -> nth_error s (S i) = Some b ->
  nth_error (dt_column s) (S i) =
  Some (py_max (if Qeq_bool (t_sec b - t_sec a) 0 then DT_EPS
                else t_sec b - t_sec a) DT_EPS).
Proof.
  intros Ha Hb. unfold dt_column, replace.
  pose proof (column_diff_nth_error t_sec s i a b Ha Hb) as D.
  now rewrite (map_nth_error _ _ _ (map_nth_error _ _ _ D)).
Qed.

Lemma t_leb_total (a b : Sample) : t_leb a b = true \/ t_leb b a = true.
Proof.
  unfold t_leb. destruct (Qlt_le_dec (t_sec b) (t_sec a)) as [H|H].
  - right. apply Qle_bool_iff. now apply Qlt_le_weak.
  - left. now apply Qle_bool_iff.
Qed.

Lemma t_leb_trans (a b c : Sample) :
  t_leb a b = true -> t_leb b c = true -> t_leb a c = true.
Proof.
  unfold t_leb. rewrite !Qle_bool_iff. apply Qle_trans.
Qed.

Lemma sort_values_t_sorted (df : DataFrame) : sorted_by t_leb (sort_values_t df).
Proof. apply sort_by_sorted; [exact t_leb_total | exact t_leb_trans]. Qed.

Section DeltaFacts.
Variable np_sqrt : Q -> Q.

(** C2, as amended.  With three samples or more the rows returned are the
    window in ascending time order; the first row has [dx = dy = 0] and,
    its missing time delta counting as 0, the stored [dt] is the epsilon;
    every later row has [dx], [dy] and the raw time delta taken against
    the row just before it, and the stored [dt] is the epsilon [1e-6]
    exactly when the raw delta is below [1e-6], and the raw delta itself
    when it is at least [1e-6]. *)
Theorem deltas_contra_amostra_anterior (explore : DataFrame) :
  (3 <= length explore)%nat ->
  map sample (fst (rotular_ivt np_sqrt explore)) = sort_values_t explore /\
  sorted_by t_leb (sort_values_t explore) /\
  Permutation explore (sort_values_t explore) /\
  (forall r rest, fst (rotular_ivt np_sqrt explore) = r :: rest ->
     dx r = 0 /\ dy r = 0 /\ dt r = DT_EPS) /\
  (forall i a b,
     nth_error (fst (rotular_ivt np_sqrt explore)) i = Some a ->
     nth_error (fst (rotular_ivt np_sqrt explore)) (S i) = Some b ->
     dx b = X (sample b) - X (sample a) /\
     dy b = Y (sample b) - Y (sample a) /\
     (t_sec (sample b) - t_sec (sample a) < DT_EPS -> dt b = DT_EPS) /\
     (DT_EPS <= t_sec (sample b) - t_sec (sample a) ->
      dt b = t_sec (sample b) - t_sec (sample a))).
Proof.
  intros H.
  destruct (rotular_ivt_normal np_sqrt explore H)
    as (_ & Hlen & E0 & E1 & E2 & E3 & _).
  remember (fst (rotular_ivt np_sqrt explore)) as rows eqn:Hrows. clear Hrows.
  split; [exact E0|].
  split; [apply sort_values_t_sorted|].
  split; [apply sort_by_perm|].
  split.
  - intros r rest ->. cbn [map] in E0, E1, E2, E3.
    rewrite <- E0 in E1, E2, E3. cbn [map diff fillna dt_column replace] in E1, E2, E3.
    injection E1 as E1 _. injection E2 as E2 _. injection E3 as E3 _.
    repeat split; assumption.
  - intros i a b Ha Hb.
    assert (Sa : nth_error (sort_values_t explore) i = Some (sample a))
      by (rewrite <- E0; now apply map_nth_error).
    assert (Sb : nth_error (sort_values_t explore) (S i) = Some (sample b))
      by (rewrite <- E0; now apply map_nth_error).
    pose proof (column_diff_nth_error X _ _ _ _ Sa Sb) as Dx.
    pose proof (column_diff_nth_error Y _ _ _ _ Sa Sb) as Dy.
    pose proof (dt_column_nth_error _ _ _ _ Sa Sb) as Dt.
    rewrite <- E1 in Dx. rewrite <- E2 in Dy. rewrite <- E3 in Dt.
    rewrite (map_nth_error dx _ _ Hb) in Dx.
    rewrite (map_nth_error dy _ _ Hb) in Dy.
    rewrite (map_nth_error dt _ _ Hb) in Dt.
    injection Dx as Dx. injection Dy as Dy. injection Dt as Dt.
    destruct (dt_clamp (t_sec (sample b) - t_sec (sample a))) as (C1 & C2).
    repeat split; try assumption; intros Hc; rewrite Dt; auto.
Qed.

End DeltaFacts.

Lemma deltas_contra_amostra_anterior_witness :
  (3 <= length sub_microsecond)%nat /\
  map sample (fst (rotular_ivt sqrt_approx sub_microsecond))
  = sort_values_t sub_microsecond.
Proof.
  split; [simpl; lia|].
  apply (deltas_contra_amostra_anterior sqrt_approx sub_microsecond).
  simpl; lia.
Defined.

(** C2 as stated fails: the second sample of [sub_microsecond] comes
    half a microsecond after the first, a strictly positive time delta,
    and its stored [dt] is not that delta but the epsilon. *)
Lemma dt_positivo_substituido :
  exists a b,
    nth_error (fst (rotular_ivt sqrt_approx sub_microsecond)) 0 = Some a /\
    nth_error (fst (rotular_ivt sqrt_approx sub_microsecond)) 1 = Some b /\
    0 < t_sec (sample b) - t_sec (sample a) /\
    ~ dt b == t_sec (sample b) - t_sec (sample a) /\
    dt b = DT_EPS.
Proof.
  eexists; eexists.
  split; [reflexivity|]. split; [reflexivity|].
  split; [reflexivity|]. split; [|reflexivity].
  intros H. vm_compute in H. discriminate.
Qed.

Lemma seg_id_muda_com_label_witness :
  exists a b,
    nth_error (fst (rotular_ivt sqrt_approx (firstn 3 scenario))) 1 = Some a /\
    nth_error (fst (rotular_ivt sqrt_approx (firstn 3 scenario))) 2 = Some b /\
    ((seg_id a < seg_id b)%Z <-> label b <> label a).
Proof.
  eexists; eexists.
  split; [reflexivity|]. split; [reflexivity|].
  apply (proj2 (proj2 (seg_id_muda_com_label sqrt_approx (firstn 3 scenario)))
           1%nat);
    reflexivity.
Defined.

(** ** The response window *)

(** The first row of an indexed table with a non-zero [Key], if any
    (lines 340-343). *)
Lemma primeira_resposta (s : DataFrame) :
  forall k : nat,
    match filter (fun ir : nat * Sample => negb (Key (snd ir) =? 0)%Z)
            (combine (seq k (length s)) s) with
    | [] => forall r, In r s -> Key r = 0%Z
    | (idx, r) :: _ =>
        exists j, idx = (k + j)%nat /\ nth_error s j = Some r /\ Key r <> 0%Z /\
                  forall j' r', (j' < j)%nat -> nth_error s j' = Some r' ->
                                Key r' = 0%Z
    end.
Proof.
  induction s as [|x s IH]; intros k.
  - simpl. intros r [].
  - cbn [length seq combine filter snd].
    destruct (Key x =? 0)%Z eqn:E; cbn [negb].
    + apply Z.eqb_eq in E. specialize (IH (S k)).
      destruct (filter _ (combine (seq (S k) (length s)) s)) as [|[idx r] rest].
      * intros r [<-|Hr]; auto.
      * destruct IH as (j & -> & Hn & Hk & Hbefore).
        exists (S j). split; [lia|]. split; [exact Hn|]. split; [exact Hk|].
        intros [|j'] r' Hlt Hr'; cbn [nth_error] in Hr'.
        -- congruence.
        -- apply (Hbefore j'); [lia | assumption].
    + apply Z.eqb_neq in E. exists 0%nat.
      split; [lia|]. split; [reflexivity|]. split; [exact E|].
      intros j' r' Hlt. lia.
Qed.

(** Line 347: the rows with [Key == 0] whose position is below [idx]. *)
Lemma antes_da_resposta (idx : nat) (s : DataFrame) :
  forall k : nat,
    map snd
      (filter (fun ir : nat * Sample => (Key (snd ir) =? 0)%Z && (fst ir <? idx)%nat)
         (combine (seq k (length s)) s))
    = filter key_zero (firstn (idx - k) s).
Proof.
  induction s as [|x s IH]; intros k.
  - now rewrite firstn_nil.
  - cbn [length seq combine filter fst snd].
    destruct (Nat.ltb_spec k idx) as [Hlt|Hge].
    + replace (idx - k)%nat with (S (idx - S k)) by lia.
      cbn [firstn filter]. unfold key_zero at 1.
      rewrite andb_true_r.
      destruct (Key x =? 0)%Z; cbn [map snd]; now rewrite IH.
    + rewrite andb_false_r. rewrite IH.
      replace (idx - S k)%nat with 0%nat by lia.
      replace (idx - k)%nat with 0%nat by lia.
      reflexivity.
Qed.

Lemma last_default {A : Type} (l : list A) (d d' : A) :
  l <> [] -> last l d = last l d'.
Proof.
  induction l as [|a l IH]; [congruence|]. intros _.
  destruct l as [|b l]; [reflexivity|].
  change (last (b :: l) d = last (b :: l) d'). apply IH. discriminate.
Qed.

Lemma janela_exploracao_unfold (df : DataFrame) (r0 : Sample) (d : Sample) :
  df <> [] ->
  hd_error (sort_values_t df) = Some r0 ->
  janela_exploracao df =
  match filter (fun ir : nat * Sample => negb (Key (snd ir) =? 0)%Z)
          (with_index (sort_values_t df)) with
  | (idx, r) :: _ =>
      (filter key_zero (firstn idx (sort_values_t df)),
       Some (t_sec r0), Some (t_sec r), Some (t_sec r - t_sec r0), Some (Key r))
  | [] =>
      (filter key_zero (sort_values_t df),
       Some (t_sec r0), Some (t_sec (last (sort_values_t df) d)),
       Some (t_sec (last (sort_values_t df) d) - t_sec r0), None)
  end.
Proof.
  intros Hne Hhd. destruct df as [|x df]; [congruence|].
  unfold janela_exploracao.
  remember (sort_values_t (x :: df)) as s eqn:Hs.
  destruct s as [|y s]; [discriminate|].
  injection Hhd as ->. cbn [hd].
  destruct (filter _ (with_index (r0 :: s))) as [|[idx r] rest].
  - rewrite (last_default (r0 :: s) x d) by discriminate. reflexivity.
  - unfold with_index. rewrite (antes_da_resposta idx (r0 :: s) 0).
    now rewrite Nat.sub_0_r.
Qed.

(** C5.  The extractor returns nothing but an empty window for an empty
    table.  Otherwise it works on the table sorted by time, [t0] is the time
    of its first row, and: when position [k] holds the first row with a
    non-zero response code, the response time stamp and code are those of
    that row and the window is the rows with code 0 before position [k];
    when no row has a non-zero code, the response time stamp is the time of
    the last row, the code is undefined and the window is all the rows with
    code 0.  In both cases the response time is [t_resp - t0]. *)
Theorem janela_exploracao_spec (df : DataFrame) :
  janela_exploracao [] = ([], None, None, None, None) /\
  sorted_by t_leb (sort_values_t df) /\
  Permutation df (sort_values_t df) /\
  (forall k r r0,
     hd_error (sort_values_t df) = Some r0 ->
     nth_error (sort_values_t df) k = Some r ->
     Key r <> 0%Z ->
     (forall j r', (j < k)%nat -> nth_error (sort_values_t df) j = Some r' ->
                   Key r' = 0%Z) ->
     janela_exploracao df =
     (filter key_zero (firstn k (sort_values_t df)),
      Some (t_sec r0), Some (t_sec r), Some (t_sec r - t_sec r0),
      Some (Key r))) /\
  (forall r0 d,
     hd_error (sort_values_t df) = Some r0 ->
     (forall r, In r (sort_values_t df) -> Key r = 0%Z) ->
     janela_exploracao df =
     (filter key_zero (sort_values_t df),
      Some (t_sec r0), Some (t_sec (last (sort_values_t df) d)),
      Some (t_sec (last (sort_values_t df) d) - t_sec r0), None)).
Proof.
  split; [reflexivity|].
  split; [apply sort_values_t_sorted|].
  split; [apply sort_by_perm|].
  assert (Hne : forall r0, hd_error (sort_values_t df) = Some r0 -> df <> []).
  { intros r0 H ->. discriminate. }
  split.
  - intros k r r0 Hhd Hk Hnz Hbefore.
    rewrite (janela_exploracao_unfold df r0 r0 (Hne _ Hhd) Hhd).
    pose proof (primeira_resposta (sort_values_t df) 0) as P.
    unfold with_index.
    destruct (filter _ (combine (seq 0 _) (sort_values_t df))) as [|[idx r'] rest].
    + exfalso. apply Hnz. apply P. eapply nth_error_In; eauto.
    + destruct P as (j & -> & Hj & Hjnz & Hjbefore). cbn [Nat.add].
      assert (j = k).
      { destruct (Nat.lt_trichotomy j k) as [Hlt|[Heq|Hgt]]; [|assumption|].
        - exfalso. apply Hjnz. eapply Hbefore; eauto.
        - exfalso. apply Hnz. eapply Hjbefore; eauto. }
      subst j. assert (r' = r) by congruence. subst r'. reflexivity.
  - intros r0 d Hhd Hall.
    rewrite (janela_exploracao_unfold df r0 d (Hne _ Hhd) Hhd).
    pose proof (primeira_resposta (sort_values_t df) 0) as P.
    unfold with_index.
    destruct (filter _ (combine (seq 0 _) (sort_values_t df))) as [|[idx r'] rest].
    + reflexivity.
    + destruct P as (j & _ & Hj & Hjnz & _).
      exfalso. apply Hjnz. apply Hall. eapply nth_error_In; eauto.
Qed.

Lemma janela_exploracao_spec_witness :
  janela_exploracao scenario =
  (firstn 3 scenario, Some 0, Some (310 # 1000), Some ((310 # 1000) - 0),
   Some 1%Z).
Proof.
  apply (proj1 (proj2 (proj2 (proj2 (janela_exploracao_spec scenario))))
           3%nat (amostra "p1" 1 (310 # 1000) (91 # 100) (9 # 10))
           (amostra "p1" 0 0 (1 # 10) (1 # 10))).
  - reflexivity.
  - reflexivity.
  - discriminate.
  - intros j r' Hj.
    destruct j as [|[|[|j]]]; [| | |lia]; cbn; intros [= <-]; reflexivity.
Defined.

(** ** The metric calculator *)

Lemma py_round_comp (q q' : Q) (n : nat) : q == q' -> py_round q n = py_round q' n.
Proof.
  intros H. unfold py_round, round_half_even.
  set (scale := inject_Z (10 ^ Z.of_nat n)).
  assert (E : q * scale == q' * scale) by now rewrite H.
  rewrite (Qfloor_comp _ _ E).
  assert (C : Qcompare (q * scale - inject_Z (Qfloor (q' * scale))) (1 # 2) =
              Qcompare (q' * scale - inject_Z (Qfloor (q' * scale))) (1 # 2)).
  { apply Qcompare_comp; [now rewrite E | reflexivity]. }
  now rewrite C.
Qed.

Lemma sort_values_t_hd (df : DataFrame) :
  df <> [] -> exists r0, hd_error (sort_values_t df) = Some r0.
Proof.
  intros H. pose proof (sort_by_length t_leb df) as L.
  fold (sort_values_t df) in L.
  destruct (sort_values_t df) as [|r0 s]; [|now exists r0].
  destruct df; [congruence | discriminate].
Qed.

(** A non-empty trial has an empty exploration window exactly in the
    shape of line 347 with [idx = 0]: its first sample in time order
    already carries the response. *)
Lemma janela_vazia (df : DataFrame) :
  df <> [] -> jan_explore (janela_exploracao df) = [] ->
  exists r0,
    hd_error (sort_values_t df) = Some r0 /\ Key r0 <> 0%Z /\
    janela_exploracao df =
    ([], Some (t_sec r0), Some (t_sec r0), Some (t_sec r0 - t_sec r0),
     Some (Key r0)).
Proof.
  intros Hne Hexp. destruct (sort_values_t_hd df Hne) as (r0 & Hhd).
  exists r0. split; [exact Hhd|].
  rewrite (janela_exploracao_unfold df r0 r0 Hne Hhd) in Hexp |- *.
  pose proof (primeira_resposta (sort_values_t df) 0) as P.
  unfold with_index in Hexp |- *.
  destruct (sort_values_t df) as [|x s] eqn:Hs; [discriminate|].
  injection Hhd as ->.
  destruct (filter _ (combine (seq 0 _) (r0 :: s))) as [|[idx r] rest].
  - exfalso. unfold jan_explore in Hexp. cbn [fst filter] in Hexp.
    unfold key_zero at 1 in Hexp. rewrite (P r0 (or_introl eq_refl)) in Hexp.
    discriminate.
  - destruct P as (j & -> & Hj & Hnz & Hbefore). cbn [Nat.add] in Hexp |- *.
    destruct j as [|j].
    + injection Hj as <-. split; [exact Hnz | reflexivity].
    + exfalso. unfold jan_explore in Hexp. cbn [fst firstn filter] in Hexp.
      unfold key_zero at 1 in Hexp.
      rewrite (Hbefore 0%nat r0 (Nat.lt_0_succ j) eq_refl) in Hexp.
      discriminate.
Qed.

Section MetricFacts.
Variable np_sqrt : Q -> Q.

(** C10.  When a non-empty trial has an empty exploration window, the
    row returned has no saccade and no fixation, dispersion 0, both mean
    durations undefined, the response code of the extractor, the response
    time of the extractor (it is 0, and so is its rounding), and an
    undefined velocity threshold: the classifier is not run and the
    threshold reported is not the velocity floor.  This happens exactly
    when the first sample in time order carries the response. *)
Theorem metricas_janela_vazia (df : DataFrame) :
  df <> [] -> jan_explore (janela_exploracao df) = [] ->
  metricas_paciente_por_estimulo np_sqrt df =
  mkMetrics (jan_resposta (janela_exploracao df))
    (option_map (fun t => py_round t 3) (jan_tempo_resposta (janela_exploracao df)))
    0 None 0 None 0 None /\
  (exists t v,
     jan_tempo_resposta (janela_exploracao df) = Some t /\
     tempo_resposta_s (metricas_paciente_por_estimulo np_sqrt df) = Some v /\
     v == t) /\
  limiar_vt (metricas_paciente_por_estimulo np_sqrt df) = None /\
  limiar_vt (metricas_paciente_por_estimulo np_sqrt df)
    <> Some (py_round VEL_MIN 4) /\
  (exists r0, hd_error (sort_values_t df) = Some r0 /\ Key r0 <> 0%Z /\
              jan_resposta (janela_exploracao df) = Some (Key r0)).
Proof.
  intros Hne Hexp.
  destruct (janela_vazia df Hne Hexp) as (r0 & Hhd & Hnz & Hj).
  assert (Hm : metricas_paciente_por_estimulo np_sqrt df =
               mkMetrics (Some (Key r0))
                 (Some (py_round (t_sec r0 - t_sec r0) 3)) 0 None 0 None 0 None).
  { unfold metricas_paciente_por_estimulo.
    destruct df as [|x df]; [congruence|]. now rewrite Hj. }
  rewrite Hm, Hj. unfold jan_resposta, jan_tempo_resposta. cbn.
  split; [reflexivity|]. split; [|split; [reflexivity|split; [discriminate|]]].
  - exists (t_sec r0 - t_sec r0), (py_round (t_sec r0 - t_sec r0) 3).
    split; [reflexivity|]. split; [reflexivity|].
    assert (Z0 : t_sec r0 - t_sec r0 == 0) by ring.
    rewrite (py_round_comp _ 0 3 Z0). rewrite Z0. reflexivity.
  - exists r0. repeat split; assumption.
Qed.

Lemma metricas_janela_cheia (df : DataFrame) :
  jan_explore (janela_exploracao df) <> [] ->
  metricas_paciente_por_estimulo np_sqrt df =
  mkMetrics (jan_resposta (janela_exploracao df))
    (option_map (fun t => py_round t 3) (jan_tempo_resposta (janela_exploracao df)))
    (length (sac_segments (segmentos_do_estimulo np_sqrt df)))
    (mean_dur (sac_segments (segmentos_do_estimulo np_sqrt df)))
    (length (fix_segments (segmentos_do_estimulo np_sqrt df)))
    (mean_dur (fix_segments (segmentos_do_estimulo np_sqrt df)))
    (py_round (dispersao_area_bb (jan_explore (janela_exploracao df))) 6)
    (Some (py_round
             (snd (rotular_ivt np_sqrt (jan_explore (janela_exploracao df)))) 4)).
Proof.
  intros H. unfold metricas_paciente_por_estimulo, segmentos_do_estimulo.
  destruct df as [|x df]; [now contradiction H|].
  destruct (janela_exploracao (x :: df)) as [[[[e t0] tr] tt] resp].
  unfold jan_explore, jan_resposta, jan_tempo_resposta in *. cbn [fst snd] in *.
  destruct e as [|y e]; [now contradiction H|].
  destruct (rotular_ivt np_sqrt (y :: e)) as [rows vt]. reflexivity.
Qed.

Lemma fix_segments_In (seg : list Seg.t) (s : Seg.t) :
  In s (fix_segments seg) <->
  In s seg /\ Seg.label s = lbl_fix /\ FIX_MIN_S <= Seg.dur s.
Proof.
  unfold fix_segments, is_fix. rewrite filter_In, andb_true_iff.
  rewrite Label_eqb_eq, Qle_bool_iff. reflexivity.
Qed.

Lemma sac_segments_In (seg : list Seg.t) (s : Seg.t) :
  In s (sac_segments seg) <-> In s seg /\ Seg.label s = lbl_sac.
Proof.
  unfold sac_segments, is_sac. rewrite filter_In, Label_eqb_eq. reflexivity.
Qed.

Lemma fix_segments_skip (a b : list Seg.t) (s : Seg.t) :
  Seg.dur s < FIX_MIN_S -> fix_segments (a ++ s :: b) = fix_segments (a ++ b).
Proof.
  intros H. unfold fix_segments. rewrite !filter_app. cbn [filter].
  destruct (Qle_bool FIX_MIN_S (Seg.dur s)) eqn:E.
  - apply Qle_bool_iff in E. exfalso. now apply (Qlt_not_le _ _ H).
  - now rewrite andb_false_r.
Qed.

(** C6.  From the segment table of a trial, the fixation count is the
    number of segments labelled fixation that last at least [FIX_MIN_S]
    (0.100 s) and the mean fixation duration is taken over those segments
    only; the saccade count and mean are over all segments labelled
    saccade, whatever their duration.  A fixation segment of 0.08 s, or
    of any duration below 0.100 s, stays in the table with its label and
    is left out of both the count and the mean. *)
Theorem fixacoes_com_duracao_minima (df : DataFrame) :
  jan_explore (janela_exploracao df) <> [] ->
  n_fixacoes (metricas_paciente_por_estimulo np_sqrt df) =
    length (fix_segments (segmentos_do_estimulo np_sqrt df)) /\
  duracao_media_fix_s (metricas_paciente_por_estimulo np_sqrt df) =
    mean_dur (fix_segments (segmentos_do_estimulo np_sqrt df)) /\
  n_sacadas (metricas_paciente_por_estimulo np_sqrt df) =
    length (sac_segments (segmentos_do_estimulo np_sqrt df)) /\
  tempo_medio_sacada_s (metricas_paciente_por_estimulo np_sqrt df) =
    mean_dur (sac_segments (segmentos_do_estimulo np_sqrt df)) /\
  (forall s, In s (fix_segments (segmentos_do_estimulo np_sqrt df)) <->
             In s (segmentos_do_estimulo np_sqrt df) /\
             Seg.label s = lbl_fix /\ FIX_MIN_S <= Seg.dur s) /\
  (forall s, In s (sac_segments (segmentos_do_estimulo np_sqrt df)) <->
             In s (segmentos_do_estimulo np_sqrt df) /\ Seg.label s = lbl_sac) /\
  (forall s, Seg.dur s == 8 # 100 ->
             ~ In s (fix_segments (segmentos_do_estimulo np_sqrt df))) /\
  (forall a s b,
     segmentos_do_estimulo np_sqrt df = a ++ s :: b ->
     Seg.label s = lbl_fix -> Seg.dur s < FIX_MIN_S ->
     n_fixacoes (metricas_paciente_por_estimulo np_sqrt df) =
       length (fix_segments (a ++ b)) /\
     duracao_media_fix_s (metricas_paciente_por_estimulo np_sqrt df) =
       mean_dur (fix_segments (a ++ b))).
Proof.
  intros H. rewrite (metricas_janela_cheia df H). cbn [n_fixacoes
    duracao_media_fix_s n_sacadas tempo_medio_sacada_s].
  repeat (split; [reflexivity|]).
  split; [apply fix_segments_In|].
  split; [apply sac_segments_In|].
  split.
  - intros s Hd Hin. apply fix_segments_In in Hin.
    destruct Hin as (_ & _ & Hle). rewrite Hd in Hle.
    revert Hle. apply Qlt_not_le. reflexivity.
  - intros a s b -> _ Hd. now rewrite (fix_segments_skip a b s Hd).
Qed.

End MetricFacts.

Lemma metricas_janela_vazia_witness :
  limiar_vt (metricas_paciente_por_estimulo sqrt_approx resposta_imediata) = None.
Proof.
  apply (metricas_janela_vazia sqrt_approx resposta_imediata).
  - discriminate.
  - reflexivity.
Defined.

Lemma fixacoes_com_duracao_minima_witness :
  exists s b,
    segmentos_do_estimulo sqrt_approx fixacao_curta = s :: b /\
    Seg.label s = lbl_fix /\ Seg.dur s == 8 # 100 /\
    n_fixacoes (metricas_paciente_por_estimulo sqrt_approx fixacao_curta) =
    length (fix_segments b).
Proof.
  eexists; eexists.
  split; [vm_compute; reflexivity|].
  split; [reflexivity|]. split; [reflexivity|].
  eapply (proj2 (proj2 (proj2 (proj2 (proj2 (proj2 (proj2
            (fixacoes_com_duracao_minima sqrt_approx fixacao_curta _))))))) []).
  - vm_compute; reflexivity.
  - reflexivity.
  - reflexivity.
  Unshelve. vm_compute; discriminate.
Defined.

(** ** Minimum, maximum and the normalised range *)

Lemma fold_Qmax_spec (l : list Q) (a : Q) :
  a <= fold_left Qmax l a /\ Forall (fun x => x <= fold_left Qmax l a) l.
Proof.
  revert a; induction l as [|b l IH]; intros a; cbn [fold_left].
  - split; [apply Qle_refl | constructor].
  - destruct (IH (Qmax a b)) as (H1 & H2). split; [|constructor].
    + eapply Qle_trans; [apply Q.le_max_l | exact H1].
    + eapply Qle_trans; [apply Q.le_max_r | exact H1].
    + exact H2.
Qed.

Lemma fold_Qmin_spec (l : list Q) (a : Q) :
  fold_left Qmin l a <= a /\ Forall (fun x => fold_left Qmin l a <= x) l.
Proof.
  revert a; induction l as [|b l IH]; intros a; cbn [fold_left].
  - split; [apply Qle_refl | constructor].
  - destruct (IH (Qmin a b)) as (H1 & H2). split; [|constructor].
    + eapply Qle_trans; [exact H1 | apply Q.le_min_l].
    + eapply Qle_trans; [exact H1 | apply Q.le_min_r].
    + exact H2.
Qed.

Lemma fold_Qmax_closed (P : Q -> Prop) (l : list Q) (a : Q) :
  P a -> Forall P l -> P (fold_left Qmax l a).
Proof.
  revert a; induction l as [|b l IH]; intros a Ha Hl; cbn [fold_left]; [exact Ha|].
  inversion Hl; subst. apply IH; [|assumption].
  unfold Qmax, GenericMinMax.gmax. destruct (Qcompare a b); assumption.
Qed.

Lemma fold_Qmin_closed (P : Q -> Prop) (l : list Q) (a : Q) :
  P a -> Forall P l -> P (fold_left Qmin l a).
Proof.
  revert a; induction l as [|b l IH]; intros a Ha Hl; cbn [fold_left]; [exact Ha|].
  inversion Hl; subst. apply IH; [|assumption].
  unfold Qmin, GenericMinMax.gmin. destruct (Qcompare a b); assumption.
Qed.

Lemma series_min_max_bounds (l : list Q) (mn mx : Q) :
  series_min l = Some mn -> series_max l = Some mx ->
  forall x, In x l -> mn <= x <= mx.
Proof.
  destruct l as [|a l]; [discriminate|]. cbn [series_min series_max].
  intros [= <-] [= <-] x Hx.
  destruct (fold_Qmin_spec l a) as (M1 & M2).
  destruct (fold_Qmax_spec l a) as (N1 & N2).
  rewrite Forall_forall in M2, N2.
  destruct Hx as [<-|Hx]; split; auto.
Qed.

Lemma series_min_max_closed (P : Q -> Prop) (l : list Q) (mn mx : Q) :
  Forall P l -> series_min l = Some mn -> series_max l = Some mx ->
  P mn /\ P mx /\ mn <= mx.
Proof.
  destruct l as [|a l]; [discriminate|]. cbn [series_min series_max].
  intros Hl [= <-] [= <-]. inversion Hl; subst.
  split; [now apply fold_Qmin_closed|]. split; [now apply fold_Qmax_closed|].
  eapply Qle_trans; [apply fold_Qmin_spec | apply fold_Qmax_spec].
Qed.

Lemma min_max_scaled (x mn mx : Q) :
  mn <= x <= mx -> RANGE_EPS < mx - mn ->
  0 <= (x - mn) / (mx - mn) <= 1.
Proof.
  intros (H1 & H2) Hr.
  assert (Hpos : 0 < mx - mn).
  { eapply Qlt_trans; [|exact Hr]. reflexivity. }
  split.
  - apply Qle_shift_div_l; [exact Hpos|]. lra.
  - apply Qle_shift_div_r; [exact Hpos|]. lra.
Qed.

Lemma Qltb_true (a b : Q) : Qltb a b = true <-> a < b.
Proof.
  unfold Qltb. rewrite negb_true_iff. split; intros H.
  - apply Qnot_le_lt. intros L. apply Qle_bool_iff in L. congruence.
  - destruct (Qle_bool b a) eqn:E; [|reflexivity].
    apply Qle_bool_iff in E. exfalso. now apply (Qlt_not_le _ _ H).
Qed.

(** ** Grouping by subject *)

Lemma unique_by_In (l : list string) (x : string) :
  In x (unique_by String.eqb l) <-> In x l.
Proof.
  induction l as [|a l IH]; [reflexivity|].
  cbn [unique_by In]. rewrite filter_In, IH, negb_true_iff.
  destruct (String.eqb_spec a x) as [->|Hne]; intuition congruence.
Qed.

Lemma filter_none {A : Type} (P : A -> bool) (l : list A) :
  (forall x, In x l -> P x = false) -> filter P l = [].
Proof.
  induction l as [|a l IH]; intros H; [reflexivity|].
  cbn [filter]. rewrite (H a (or_introl eq_refl)). apply IH.
  intros x Hx. apply H. now right.
Qed.

Lemma n_pacientes_single (df : DataFrame) :
  (1 <? n_pacientes df)%nat = false ->
  forall r r', In r df -> In r' df -> paciente_id r = paciente_id r'.
Proof.
  unfold n_pacientes. intros H.
  assert (K : forall r a, In r df -> hd_error (map paciente_id df) = Some a ->
                          paciente_id r = a).
  { intros r a Hr Ha. destruct df as [|x df]; [contradiction|].
    cbn [map hd_error] in Ha. injection Ha as <-.
    cbn [map unique_by length] in H. apply Nat.ltb_ge in H.
    destruct (String.eqb_spec (paciente_id x) (paciente_id r)) as [E|Hne];
      [now symmetry|].
    exfalso. assert (Hin : In (paciente_id r)
      (filter (fun b => negb (String.eqb (paciente_id x) b))
         (unique_by String.eqb (map paciente_id df)))).
    { apply filter_In. split.
      - apply unique_by_In. destruct Hr as [->|Hr]; [congruence|].
        now apply in_map.
      - apply negb_true_iff. now apply String.eqb_neq. }
    destruct (filter _ _); [contradiction | cbn [length] in H; lia]. }
  intros r r' Hr Hr'. destruct df as [|x df]; [contradiction|].
  rewrite (K r (paciente_id x) Hr eq_refl), (K r' (paciente_id x) Hr' eq_refl).
  reflexivity.
Qed.

Lemma grupo_de_all (p : string) (df : DataFrame) :
  (forall r, In r df -> paciente_id r = p) -> grupo_de p df = df.
Proof.
  intros H. unfold grupo_de. apply forallb_filter_id. apply forallb_forall.
  intros r Hr. unfold same_pid. rewrite (H r Hr). apply String.eqb_refl.
Qed.

Lemma grupo_de_none (p : string) (df : DataFrame) :
  (forall r, In r df -> paciente_id r <> p) -> grupo_de p df = [].
Proof.
  intros H. unfold grupo_de. induction df as [|x df IH]; [reflexivity|].
  cbn [filter]. unfold same_pid at 1.
  destruct (String.eqb_spec (paciente_id x) p) as [E|_].
  - exfalso. apply (H x); [now left | exact E].
  - apply IH. intros r Hr. apply H. now right.
Qed.

Lemma grupo_de_idem (p : string) (df : DataFrame) :
  grupo_de p (grupo_de p df) = grupo_de p df.
Proof.
  apply grupo_de_all. intros r Hr. apply filter_In in Hr.
  destruct Hr as (_ & Hr). now apply String.eqb_eq in Hr.
Qed.

Lemma n_pacientes_grupo_de (p : string) (df : DataFrame) :
  (1 <? n_pacientes (grupo_de p df))%nat = false.
Proof.
  apply Nat.ltb_ge. unfold n_pacientes.
  assert (H : Forall (eq p) (map paciente_id (grupo_de p df))).
  { rewrite Forall_forall. intros x Hx. apply in_map_iff in Hx.
    destruct Hx as (r & <- & Hr). apply filter_In in Hr.
    destruct Hr as (_ & Hr). apply String.eqb_eq in Hr. now symmetry. }
  destruct (map paciente_id (grupo_de p df)) as [|a l]; [cbn; lia|].
  cbn [unique_by length]. apply Forall_cons_iff in H. destruct H as (<- & Hl).
  assert (E : filter (fun b => negb (String.eqb p b)) (unique_by String.eqb l) = []).
  { apply filter_none. intros x Hx. apply (proj1 (unique_by_In _ _)) in Hx.
    rewrite Forall_forall in Hl. rewrite <- (Hl x Hx).
    now rewrite String.eqb_refl. }
  rewrite E. cbn. lia.
Qed.

Lemma align_In {B : Type} (df : DataFrame) :
  forall (res : string -> list B) (b : B),
    In b (align res df) -> exists p, In b (res p).
Proof.
  induction df as [|r df IH]; intros res b Hb; [contradiction|].
  cbn [align] in Hb. destruct (res (paciente_id r)) as [|c cs] eqn:E.
  - now apply IH in Hb.
  - destruct Hb as [<-|Hb].
    + exists (paciente_id r). rewrite E. now left.
    + apply IH in Hb. destruct Hb as (p & Hp).
      destruct (String.eqb p (paciente_id r)) eqn:Ep.
      * apply String.eqb_eq in Ep. subst p. exists (paciente_id r).
        rewrite E. now right.
      * now exists p.
Qed.

(** The values that [align] puts on the rows of subject [p] are, in
    order, the result of the group of [p]. *)
Lemma align_combine {B : Type} (df : DataFrame) :
  forall (res : string -> list B) (p : string),
    (forall q, length (res q) = length (grupo_de q df)) ->
    length (align res df) = length df /\
    map snd (filter (fun x => same_pid p (fst x)) (combine df (align res df)))
    = res p.
Proof.
  induction df as [|r df IH]; intros res p Hlen.
  - specialize (Hlen p). cbn in Hlen. destruct (res p); [now split | discriminate].
  - cbn [align].
    pose proof (Hlen (paciente_id r)) as Hr.
    unfold grupo_de in Hr. cbn [filter] in Hr. unfold same_pid at 1 in Hr.
    rewrite String.eqb_refl in Hr. cbn [length] in Hr.
    destruct (res (paciente_id r)) as [|b bs] eqn:E; [discriminate|].
    injection Hr as Hr.
    set (res' := fun q => if String.eqb q (paciente_id r) then bs else res q).
    assert (Hlen' : forall q, length (res' q) = length (grupo_de q df)).
    { intros q. unfold res'. destruct (String.eqb_spec q (paciente_id r)) as [->|Hne].
      - exact Hr.
      - rewrite Hlen. unfold grupo_de. cbn [filter]. unfold same_pid at 1.
        destruct (String.eqb_spec (paciente_id r) q) as [Heq|_]; [congruence|].
        reflexivity. }
    destruct (IH res' p Hlen') as (L & F). split; [cbn [length]; now rewrite L|].
    cbn [combine filter fst]. unfold same_pid at 1.
    destruct (String.eqb_spec (paciente_id r) p) as [Heq|Hne].
    + cbn [map snd]. rewrite F. unfold res'. subst p.
      rewrite String.eqb_refl. now rewrite E.
    + rewrite F. unfold res'.
      destruct (String.eqb_spec p (paciente_id r)) as [Heq|_]; [congruence|].
      reflexivity.
Qed.

(** When the group results are rows that keep their subject, the rows
    of subject [p] in the aligned table are the result of the group. *)
Lemma align_grupo_de (df : DataFrame) (res : string -> DataFrame) (p : string) :
  (forall q, length (res q) = length (grupo_de q df)) ->
  (forall q r, In r (res q) -> paciente_id r = q) ->
  grupo_de p (align res df) = res p.
Proof.
  revert res. induction df as [|r df IH]; intros res Hlen Hpid.
  - specialize (Hlen p). cbn in Hlen. destruct (res p); [reflexivity | discriminate].
  - cbn [align].
    pose proof (Hlen (paciente_id r)) as Hr.
    unfold grupo_de in Hr. cbn [filter] in Hr. unfold same_pid at 1 in Hr.
    rewrite String.eqb_refl in Hr. cbn [length] in Hr.
    destruct (res (paciente_id r)) as [|b bs] eqn:E; [discriminate|].
    injection Hr as Hr.
    set (res' := fun q => if String.eqb q (paciente_id r) then bs else res q).
    assert (Hlen' : forall q, length (res' q) = length (grupo_de q df)).
    { intros q. unfold res'. destruct (String.eqb_spec q (paciente_id r)) as [->|Hne].
      - exact Hr.
      - rewrite Hlen. unfold grupo_de. cbn [filter]. unfold same_pid at 1.
        destruct (String.eqb_spec (paciente_id r) q) as [Heq|_]; [congruence|].
        reflexivity. }
    assert (Hpid' : forall q x, In x (res' q) -> paciente_id x = q).
    { intros q x. unfold res'.
      destruct (String.eqb_spec q (paciente_id r)) as [->|Hne]; intros Hx.
      - apply Hpid. rewrite E. now right.
      - now apply Hpid. }
    assert (Hb : paciente_id b = paciente_id r).
    { apply Hpid. rewrite E. now left. }
    unfold grupo_de. cbn [filter]. unfold same_pid at 1. rewrite Hb.
    fold (grupo_de p (align res' df)). rewrite (IH res' Hlen' Hpid').
    unfold res'.
    destruct (String.eqb_spec (paciente_id r) p) as [Heq|Hne].
    + subst p. rewrite String.eqb_refl. now rewrite E.
    + destruct (String.eqb_spec p (paciente_id r)) as [Heq|_]; [congruence|].
      reflexivity.
Qed.

(** ** The normaliser *)

Lemma normalizar_grupo_rows (g : DataFrame) (x_min x_max y_min y_max : Q) :
  series_min (map X g) = Some x_min -> series_max (map X g) = Some x_max ->
  series_min (map Y g) = Some y_min -> series_max (map Y g) = Some y_max ->
  _normalizar_grupo g =
  map (fun r => set_Y (set_X r (escala x_min x_max (X r)))
                      (escala y_min y_max (Y r))) g.
Proof.
  intros H1 H2 H3 H4. unfold _normalizar_grupo, escala.
  rewrite H1, H2, H3, H4.
  destruct (Qltb RANGE_EPS (x_max - x_min)), (Qltb RANGE_EPS (y_max - y_min));
    rewrite map_map; apply map_ext; intros r; reflexivity.
Qed.

Lemma series_defined (l : list Q) :
  l <> [] -> exists mn mx, series_min l = Some mn /\ series_max l = Some mx.
Proof.
  destruct l as [|a l]; [congruence|]. intros _. cbn. eauto.
Qed.

Lemma escala_unit (mn mx v : Q) : mn <= v <= mx -> 0 <= escala mn mx v <= 1.
Proof.
  intros H. unfold escala. destruct (Qltb RANGE_EPS (mx - mn)) eqn:E.
  - apply min_max_scaled; [exact H | now apply Qltb_true].
  - split; discriminate.
Qed.

Lemma escala_const (mn mx v : Q) : mx - mn <= RANGE_EPS -> escala mn mx v = 1 # 2.
Proof.
  intros H. unfold escala. destruct (Qltb RANGE_EPS (mx - mn)) eqn:E; [|reflexivity].
  apply Qltb_true in E. exfalso. now apply (Qlt_not_le _ _ E).
Qed.

Lemma normalizar_grupo_length (g : DataFrame) :
  length (_normalizar_grupo g) = length g.
Proof.
  destruct g as [|r g]; [reflexivity|].
  destruct (series_defined (map X (r :: g))) as (a & b & H1 & H2); [discriminate|].
  destruct (series_defined (map Y (r :: g))) as (c & d & H3 & H4); [discriminate|].
  rewrite (normalizar_grupo_rows _ _ _ _ _ H1 H2 H3 H4). apply length_map.
Qed.

Lemma normalizar_grupo_pid (g : DataFrame) (r : Sample) :
  In r (_normalizar_grupo g) -> exists r', In r' g /\ paciente_id r = paciente_id r'.
Proof.
  destruct g as [|x g]; [intros []|].
  destruct (series_defined (map X (x :: g))) as (a & b & H1 & H2); [discriminate|].
  destruct (series_defined (map Y (x :: g))) as (c & d & H3 & H4); [discriminate|].
  rewrite (normalizar_grupo_rows _ _ _ _ _ H1 H2 H3 H4).
  intros Hr. apply in_map_iff in Hr. destruct Hr as (r' & <- & Hr'). eauto.
Qed.

Lemma normalizar_grupo_unit (g : DataFrame) (r : Sample) :
  g <> [] -> In r (_normalizar_grupo g) -> unit_coords r.
Proof.
  intros Hne.
  destruct (series_defined (map X g)) as (a & b & H1 & H2);
    [destruct g; [congruence | discriminate]|].
  destruct (series_defined (map Y g)) as (c & d & H3 & H4);
    [destruct g; [congruence | discriminate]|].
  rewrite (normalizar_grupo_rows _ _ _ _ _ H1 H2 H3 H4).
  intros Hr. apply in_map_iff in Hr. destruct Hr as (r' & <- & Hr').
  split; cbn [X Y set_X set_Y]; apply escala_unit.
  - apply (series_min_max_bounds _ _ _ H1 H2). now apply in_map.
  - apply (series_min_max_bounds _ _ _ H3 H4). now apply in_map.
Qed.

(** The rows of subject [p] after normalisation are the normalised rows
    of subject [p], in a table with one subject or with many. *)
Lemma grupo_de_normalizar (p : string) (df : DataFrame) :
  grupo_de p (normalizar_coordenadas df) = _normalizar_grupo (grupo_de p df).
Proof.
  unfold normalizar_coordenadas. cbn [NORMALIZAR_COORDS negb orb].
  destruct df as [|x df]; [reflexivity|]. cbn [is_empty].
  destruct (1 <? n_pacientes (x :: df))%nat eqn:E.
  - unfold groupby_apply. apply align_grupo_de.
    + intros q. apply normalizar_grupo_length.
    + intros q r Hr. apply normalizar_grupo_pid in Hr.
      destruct Hr as (r' & Hr' & ->). apply filter_In in Hr'.
      destruct Hr' as (_ & Hr'). now apply String.eqb_eq in Hr'.
  - pose proof (n_pacientes_single _ E) as S.
    destruct (String.eqb_spec (paciente_id x) p) as [Heq|Hne].
    + assert (G : grupo_de p (x :: df) = x :: df).
      { apply grupo_de_all. intros r Hr. rewrite <- Heq.
        apply S; [exact Hr | now left]. }
      rewrite G. apply grupo_de_all. intros r Hr.
      apply normalizar_grupo_pid in Hr. destruct Hr as (r' & Hr' & ->).
      rewrite <- Heq. apply S; [exact Hr' | now left].
    + assert (G : grupo_de p (x :: df) = []).
      { apply grupo_de_none. intros r Hr Hp. apply Hne. rewrite <- Hp.
        apply S; [now left | exact Hr]. }
      rewrite G. apply grupo_de_none. intros r Hr Hp.
      apply normalizar_grupo_pid in Hr. destruct Hr as (r' & Hr' & Hpid).
      apply Hne. rewrite <- Hp, Hpid. apply S; [now left | exact Hr'].
Qed.

Lemma normalizar_single (g : DataFrame) :
  (1 <? n_pacientes g)%nat = false -> normalizar_coordenadas g = _normalizar_grupo g.
Proof.
  intros H. unfold normalizar_coordenadas. cbn [NORMALIZAR_COORDS negb orb].
  destruct g as [|x g]; [reflexivity|]. cbn [is_empty]. now rewrite H.
Qed.

Lemma In_grupo_de (r : Sample) (df : DataFrame) :
  In r df -> In r (grupo_de (paciente_id r) df).
Proof.
  intros H. apply filter_In. split; [exact H|]. apply String.eqb_refl.
Qed.

Lemma dispersao_unit (w : DataFrame) :
  Forall unit_coords w -> 0 <= dispersao_area_bb w <= 1.
Proof.
  intros H. unfold dispersao_area_bb.
  destruct (length w <? 2)%nat; [split; discriminate|].
  destruct w as [|r w]; [split; discriminate|].
  destruct (series_defined (map X (r :: w))) as (a & b & H1 & H2); [discriminate|].
  destruct (series_defined (map Y (r :: w))) as (c & d & H3 & H4); [discriminate|].
  rewrite H1, H2, H3, H4.
  assert (HX : Forall (fun v => 0 <= v <= 1) (map X (r :: w))).
  { rewrite Forall_forall in H |- *. intros v Hv. apply in_map_iff in Hv.
    destruct Hv as (x & <- & Hx). apply (H x Hx). }
  assert (HY : Forall (fun v => 0 <= v <= 1) (map Y (r :: w))).
  { rewrite Forall_forall in H |- *. intros v Hv. apply in_map_iff in Hv.
    destruct Hv as (x & <- & Hx). apply (H x Hx). }
  destruct (series_min_max_closed _ _ _ _ HX H1 H2) as ((A1 & A2) & (B1 & B2) & AB).
  destruct (series_min_max_closed _ _ _ _ HY H3 H4) as ((C1 & C2) & (D1 & D2) & CD).
  split.
  - apply Qmult_le_0_compat; lra.
  - setoid_replace 1 with (1 * 1) by reflexivity.
    apply Qmult_le_compat_nonneg; split; lra.
Qed.

(** C7.  After the normalisation of a non-empty table every coordinate
    lies in [0,1]; a coordinate whose range within its subject is below
    [1e-10] is 0.5 on all rows of the subject; and so the area of the
    bounding box of any window of normalised rows lies in [0,1].  The area
    is 0 for a window of fewer than two points. *)
Theorem normalizacao_no_intervalo_unitario (df : DataFrame) :
  df <> [] ->
  (forall r, In r (normalizar_coordenadas df) -> unit_coords r) /\
  (forall p mn mx r,
     series_min (map X (grupo_de p df)) = Some mn ->
     series_max (map X (grupo_de p df)) = Some mx ->
     mx - mn < RANGE_EPS ->
     In r (normalizar_coordenadas df) -> paciente_id r = p -> X r = 1 # 2) /\
  (forall p mn mx r,
     series_min (map Y (grupo_de p df)) = Some mn ->
     series_max (map Y (grupo_de p df)) = Some mx ->
     mx - mn < RANGE_EPS ->
     In r (normalizar_coordenadas df) -> paciente_id r = p -> Y r = 1 # 2) /\
  (forall w, incl w (normalizar_coordenadas df) ->
             0 <= dispersao_area_bb w <= 1) /\
  (forall w, (length w < 2)%nat -> dispersao_area_bb w = 0).
Proof.
  intros Hne.
  assert (U : forall r, In r (normalizar_coordenadas df) -> unit_coords r).
  { intros r Hr. apply In_grupo_de in Hr. rewrite grupo_de_normalizar in Hr.
    apply (normalizar_grupo_unit (grupo_de (paciente_id r) df)); [|exact Hr].
    intros E. rewrite E in Hr. exact Hr. }
  assert (G : forall p r, In r (normalizar_coordenadas df) -> paciente_id r = p ->
                          In r (_normalizar_grupo (grupo_de p df))).
  { intros p r Hr <-. apply In_grupo_de in Hr. now rewrite grupo_de_normalizar in Hr. }
  split; [exact U|]. split; [|split; [|split]].
  - intros p mn mx r H1 H2 Hlt Hr Hp. specialize (G p r Hr Hp).
    destruct (series_defined (map Y (grupo_de p df))) as (c & d & H3 & H4).
    { intros E. apply map_eq_nil in E. rewrite E in H1. discriminate. }
    rewrite (normalizar_grupo_rows _ _ _ _ _ H1 H2 H3 H4) in G.
    apply in_map_iff in G. destruct G as (r' & <- & _). cbn [X set_X set_Y].
    apply escala_const. now apply Qlt_le_weak.
  - intros p mn mx r H3 H4 Hlt Hr Hp. specialize (G p r Hr Hp).
    destruct (series_defined (map X (grupo_de p df))) as (a & b & H1 & H2).
    { intros E. apply map_eq_nil in E. rewrite E in H3. discriminate. }
    rewrite (normalizar_grupo_rows _ _ _ _ _ H1 H2 H3 H4) in G.
    apply in_map_iff in G. destruct G as (r' & <- & _). cbn [Y set_X set_Y].
    apply escala_const. now apply Qlt_le_weak.
  - intros w Hw. apply dispersao_unit. rewrite Forall_forall.
    intros r Hr. apply U. now apply Hw.
  - intros w Hw. unfold dispersao_area_bb. apply Nat.ltb_lt in Hw. now rewrite Hw.
Qed.

Lemma normalizacao_no_intervalo_unitario_witness :
  0 <= dispersao_area_bb (normalizar_coordenadas two_subjects) <= 1.
Proof.
  apply (normalizacao_no_intervalo_unitario two_subjects).
  - discriminate.
  - apply incl_refl.
Defined.

(** ** The cleaning filter *)

Lemma limpar_e_outliers_stages (df : DataFrame) :
  limpar_e_outliers df =
  dup_stage (iqr_stage (sort_by pid_t_leb (filter nao_nulo df))).
Proof.
  destruct df as [|x df]; reflexivity.
Qed.

Lemma iqr_mask_pointwise (g : DataFrame) (col : Sample -> Q) :
  _iqr_mask g col = map (dentro_iqr g col) g.
Proof.
  unfold _iqr_mask, dentro_iqr.
  destruct (percentile (map col g) 25), (percentile (map col g) 75); reflexivity.
Qed.

Lemma pid_t_leb_total (a b : Sample) : pid_t_leb a b = true \/ pid_t_leb b a = true.
Proof.
  unfold pid_t_leb. rewrite (String.compare_antisym (paciente_id a) (paciente_id b)).
  destruct (String.compare (paciente_id b) (paciente_id a)); cbn [CompOpp]; auto.
  apply t_leb_total.
Qed.

Lemma string_compare_lt_trans (a b c : string) :
  String.compare a b = Lt -> String.compare b c = Lt -> String.compare a c = Lt.
Proof.
  intros H1 H2. apply String_as_OT.cmp_lt.
  apply String_as_OT.cmp_lt in H1. apply String_as_OT.cmp_lt in H2.
  eapply String_as_OT.lt_trans; eauto.
Qed.

Lemma pid_t_leb_trans (a b c : Sample) :
  pid_t_leb a b = true -> pid_t_leb b c = true -> pid_t_leb a c = true.
Proof.
  unfold pid_t_leb.
  destruct (String.compare (paciente_id a) (paciente_id b)) eqn:E1; try discriminate;
    destruct (String.compare (paciente_id b) (paciente_id c)) eqn:E2; try discriminate.
  - apply String.compare_eq_iff in E1. apply String.compare_eq_iff in E2.
    rewrite E1, E2.
    assert (E : String.compare (paciente_id c) (paciente_id c) = Eq)
      by (apply (proj2 (String_as_OT.cmp_eq _ _)); reflexivity).
    rewrite E. apply t_leb_trans.
  - apply String.compare_eq_iff in E1. rewrite E1, E2. reflexivity.
  - apply String.compare_eq_iff in E2. rewrite <- E2, E1. reflexivity.
  - now rewrite (string_compare_lt_trans _ _ _ E1 E2).
Qed.

Lemma filter_comm {A : Type} (P Q : A -> bool) (l : list A) :
  filter P (filter Q l) = filter Q (filter P l).
Proof.
  induction l as [|a l IH]; [reflexivity|]. cbn [filter].
  destruct (P a) eqn:Pa, (Q a) eqn:Qa; cbn [filter];
    rewrite ?Pa, ?Qa, IH; reflexivity.
Qed.

Lemma combine_fst_snd {A B : Type} (l : list (A * B)) :
  combine (map fst l) (map snd l) = l.
Proof.
  induction l as [|[a b] l IH]; [reflexivity|]. cbn. now rewrite IH.
Qed.

Lemma select_map {A B : Type} (f : B -> bool) (df : list A) (m : list B) :
  select df (map f m) = map fst (filter (fun x => f (snd x)) (combine df m)).
Proof.
  unfold select. revert m; induction df as [|a df IH]; intros [|b m];
    try reflexivity.
  cbn [map combine filter snd]. destruct (f b); cbn [map fst]; now rewrite IH.
Qed.

Lemma select_pointwise {A : Type} (hx hy : A -> bool) (df : list A) :
  select df (e_mascaras (map hx df) (map hy df)) = filter (fun r => hx r && hy r) df.
Proof.
  unfold select, e_mascaras. induction df as [|a df IH]; [reflexivity|].
  cbn [map combine filter fst snd].
  destruct (hx a && hy a); cbn [map fst]; now rewrite IH.
Qed.

Lemma select_incl {A : Type} (df : list A) (m : list bool) : incl (select df m) df.
Proof.
  unfold select. intros a Ha. apply in_map_iff in Ha.
  destruct Ha as ([x b] & <- & Hx). apply filter_In in Hx.
  destruct Hx as (Hx & _). cbn. eapply in_combine_l; eauto.
Qed.

Lemma n_pacientes_incl (g df : DataFrame) :
  incl g df -> (1 <? n_pacientes df)%nat = false -> (1 <? n_pacientes g)%nat = false.
Proof.
  intros Hi Hs. pose proof (n_pacientes_single df Hs) as S.
  destruct g as [|x g]; [reflexivity|].
  assert (E : grupo_de (paciente_id x) (x :: g) = x :: g).
  { apply grupo_de_all. intros r Hr. apply S; apply Hi; [exact Hr | now left]. }
  rewrite <- E. apply n_pacientes_grupo_de.
Qed.

(** A row-selecting function commutes with the choice of a subject on a
    table that has one subject only. *)
Lemma single_subject_commute (F : DataFrame -> DataFrame) (df : DataFrame)
    (p : string) :
  (forall g, incl (F g) g) -> (1 <? n_pacientes df)%nat = false ->
  grupo_de p (F df) = F (grupo_de p df).
Proof.
  intros Hi Hs. pose proof (n_pacientes_single df Hs) as S.
  assert (Hnil : F [] = []).
  { destruct (F []) as [|a l] eqn:E; [reflexivity|].
    exfalso. apply (Hi [] a). rewrite E. now left. }
  destruct df as [|x df].
  - cbn. rewrite Hnil. reflexivity.
  - destruct (String.eqb_spec (paciente_id x) p) as [Heq|Hne].
    + assert (G : grupo_de p (x :: df) = x :: df).
      { apply grupo_de_all. intros r Hr. rewrite <- Heq. apply S; [exact Hr | now left]. }
      rewrite G. apply grupo_de_all. intros r Hr. rewrite <- Heq.
      apply S; [now apply Hi | now left].
    + assert (G : grupo_de p (x :: df) = []).
      { apply grupo_de_none. intros r Hr Hp. apply Hne. rewrite <- Hp.
        apply S; [now left | exact Hr]. }
      rewrite G, Hnil. apply grupo_de_none. intros r Hr Hp. apply Hne.
      rewrite <- Hp. apply S; [now left | now apply Hi].
Qed.

Lemma align_pointwise {B : Type} (df : DataFrame) :
  forall (res : string -> list B) (k : string -> Sample -> B),
    (forall q, res q = map (k q) (grupo_de q df)) ->
    align res df = map (fun r => k (paciente_id r) r) df.
Proof.
  induction df as [|r df IH]; intros res k Hres; [reflexivity|].
  cbn [align map]. pose proof (Hres (paciente_id r)) as Hr.
  unfold grupo_de in Hr. cbn [filter] in Hr. unfold same_pid at 1 in Hr.
  rewrite String.eqb_refl in Hr. cbn [map] in Hr. rewrite Hr. f_equal.
  apply IH. intros q.
  destruct (String.eqb_spec q (paciente_id r)) as [->|Hne]; [reflexivity|].
  rewrite Hres. unfold grupo_de. cbn [filter]. unfold same_pid at 1.
  destruct (String.eqb_spec (paciente_id r) q) as [Heq|_]; [congruence|].
  reflexivity.
Qed.

Lemma iqr_grupo_filter (g : DataFrame) :
  iqr_grupo g = filter (fun r => dentro_iqr g X r && dentro_iqr g Y r) g.
Proof.
  unfold iqr_grupo. rewrite !iqr_mask_pointwise. apply select_pointwise.
Qed.

Lemma iqr_stage_single (d : DataFrame) :
  (1 <? n_pacientes d)%nat = false -> iqr_stage d = iqr_grupo d.
Proof. intros H. unfold iqr_stage. now rewrite H. Qed.

Lemma dup_stage_single (d : DataFrame) :
  (1 <? n_pacientes d)%nat = false -> dup_stage d = dup_grupo d.
Proof. intros H. unfold dup_stage. now rewrite H. Qed.

Lemma grupo_de_iqr_stage (p : string) (d : DataFrame) :
  grupo_de p (iqr_stage d) = iqr_grupo (grupo_de p d).
Proof.
  destruct (1 <? n_pacientes d)%nat eqn:E.
  - unfold iqr_stage. rewrite E. unfold groupby_apply.
    rewrite (align_pointwise d _ (fun q => dentro_iqr (grupo_de q d) X))
      by (intros q; apply iqr_mask_pointwise).
    rewrite (align_pointwise d _ (fun q => dentro_iqr (grupo_de q d) Y))
      by (intros q; apply iqr_mask_pointwise).
    rewrite (select_pointwise
               (fun r => dentro_iqr (grupo_de (paciente_id r) d) X r)
               (fun r => dentro_iqr (grupo_de (paciente_id r) d) Y r)).
    rewrite iqr_grupo_filter. unfold grupo_de at 1. rewrite filter_comm.
    fold (grupo_de p d). apply filter_ext_in. intros r Hr.
    apply filter_In in Hr. destruct Hr as (_ & Hr).
    apply String.eqb_eq in Hr. now rewrite Hr.
  - rewrite (iqr_stage_single d E).
    apply single_subject_commute; [|exact E].
    intros g. unfold iqr_grupo. apply select_incl.
Qed.

Lemma grupo_de_dup_stage (p : string) (d : DataFrame) :
  grupo_de p (dup_stage d) = dup_grupo (grupo_de p d).
Proof.
  destruct (1 <? n_pacientes d)%nat eqn:E.
  - unfold dup_stage. rewrite E. unfold groupby_apply.
    set (res := fun q => diff (map t_sec (grupo_de q d))).
    destruct (align_combine d res p) as (L & F).
    { intros q. unfold res. now rewrite diff_length, length_map. }
    rewrite select_map. unfold grupo_de at 1. rewrite filter_map_swap.
    rewrite filter_comm.
    assert (C : filter (fun x => same_pid p (fst x)) (combine d (align res d))
                = combine (grupo_de p d) (res p)).
    { rewrite <- (combine_fst_snd (filter _ (combine d (align res d)))).
      rewrite F. f_equal.
      rewrite <- (filter_map_swap (same_pid p) fst).
      rewrite map_fst_combine by lia. reflexivity. }
    rewrite C. unfold dup_grupo. now rewrite select_map.
  - rewrite (dup_stage_single d E).
    apply single_subject_commute; [|exact E].
    intros g. unfold dup_grupo. apply select_incl.
Qed.

Lemma limpar_single_subject (g : DataFrame) (p : string) :
  (forall r, In r g -> paciente_id r = p) ->
  limpar_e_outliers g =
  dup_grupo (iqr_grupo (sort_by pid_t_leb (filter nao_nulo g))).
Proof.
  intros Hp. rewrite limpar_e_outliers_stages.
  set (g2 := sort_by pid_t_leb (filter nao_nulo g)).
  assert (H2 : forall r, In r g2 -> paciente_id r = p).
  { intros r Hr. apply Hp. unfold g2 in Hr. apply sort_by_In in Hr.
    apply filter_In in Hr. tauto. }
  assert (S2 : (1 <? n_pacientes g2)%nat = false).
  { rewrite <- (grupo_de_all p g2 H2). apply n_pacientes_grupo_de. }
  rewrite (iqr_stage_single g2 S2).
  rewrite dup_stage_single; [reflexivity|].
  apply (n_pacientes_incl _ g2); [|exact S2]. unfold iqr_grupo. apply select_incl.
Qed.

(** C8.  For every table and every subject, the rows of the subject in
    the cleaned table are the result of cleaning the rows of the subject
    alone, and the rows of the subject in the normalised table are the
    result of normalising the rows of the subject alone: the branch taken
    for several subjects and the branch taken for one compute the same
    thing for each subject. *)
Theorem um_paciente_ou_varios :
  (forall (df : DataFrame) (p : string),
     grupo_de p (limpar_e_outliers df) = limpar_e_outliers (grupo_de p df)) /\
  (forall (df : DataFrame) (p : string),
     grupo_de p (normalizar_coordenadas df) =
     normalizar_coordenadas (grupo_de p df)).
Proof.
  split; intros df p.
  - rewrite (limpar_single_subject (grupo_de p df) p).
    + rewrite limpar_e_outliers_stages.
      rewrite grupo_de_dup_stage, grupo_de_iqr_stage.
      unfold grupo_de at 1.
      rewrite (filter_sort_by pid_t_leb pid_t_leb_total pid_t_leb_trans).
      rewrite filter_comm. reflexivity.
    + intros r Hr. apply filter_In in Hr. destruct Hr as (_ & Hr).
      now apply String.eqb_eq in Hr.
  - rewrite grupo_de_normalizar.
    now rewrite (normalizar_single _ (n_pacientes_grupo_de p df)).
Qed.

(** ** Inter-group statistics *)

Section InterGroupFacts.
Variable np_sqrt : Q -> Q.
Variable SCIPY_OK : bool.
Variable mannwhitneyu : list Q -> list Q -> option (Q * Q).

Lemma valores_stim (m : string * (Metrics -> option Q)) (stim : string)
    (mets : list MetRow) :
  valores m stim mets <> [] -> In stim (map met_Stimuli mets).
Proof.
  unfold valores. intros H.
  destruct (filter (fun r => String.eqb (met_Stimuli r) stim) mets) as [|r l] eqn:E.
  - now contradiction H.
  - assert (Hr : In r (filter (fun r => String.eqb (met_Stimuli r) stim) mets))
      by (rewrite E; now left).
    apply filter_In in Hr. destruct Hr as (Hr & Hs).
    apply String.eqb_eq in Hs. rewrite <- Hs. now apply in_map.
Qed.

Lemma linha_In (ctrl afa : list MetRow) (stim : string)
    (m : string * (Metrics -> option Q)) (row : Stat.t) :
  In m METRICAS_COMPARAR ->
  In stim (map met_Stimuli ctrl ++ map met_Stimuli afa) ->
  In row (linha np_sqrt SCIPY_OK mannwhitneyu stim
            (filter (fun r => String.eqb (met_Stimuli r) stim) ctrl)
            (filter (fun r => String.eqb (met_Stimuli r) stim) afa) m) ->
  In row (estatisticas_inter_grupo np_sqrt SCIPY_OK mannwhitneyu ctrl afa).
Proof.
  intros Hm Hs Hrow. unfold estatisticas_inter_grupo.
  destruct (is_empty ctrl && is_empty afa) eqn:E.
  - exfalso. apply andb_true_iff in E. destruct E as (E1 & E2).
    destruct ctrl, afa; try discriminate. exact Hs.
  - apply sort_by_In. apply in_flat_map. exists stim. split.
    + apply sort_by_In. now apply unique_by_In.
    + apply in_flat_map. exists m. split; assumption.
Qed.

(** C9, as amended.  When, for a stimulus and a compared metric, one
    group has no non-missing value and the other has at least one, the
    table returned has the row of that stimulus and metric: the mean of the
    non-empty group is filled in, its standard deviation is filled in when
    the group has two values or more and undefined when it has one, the
    mean and deviation of the empty group are undefined, and so are the
    rank statistic and the p-value, whatever the rank test would do. *)
Theorem linha_com_grupo_vazio (ctrl afa : list MetRow) (stim : string)
    (m : string * (Metrics -> option Q)) :
  In m METRICAS_COMPARAR ->
  (valores m stim ctrl = [] -> valores m stim afa <> [] ->
   In (Stat.mk stim (fst m) None None
         (Some (py_round (mean (valores m stim afa)) 6))
         (if (1 <? length (valores m stim afa))%nat
          then Some (py_round (np_std_ddof1 np_sqrt (valores m stim afa)) 6)
          else None)
         None None)
      (estatisticas_inter_grupo np_sqrt SCIPY_OK mannwhitneyu ctrl afa)) /\
  (valores m stim afa = [] -> valores m stim ctrl <> [] ->
   In (Stat.mk stim (fst m)
         (Some (py_round (mean (valores m stim ctrl)) 6))
         (if (1 <? length (valores m stim ctrl))%nat
          then Some (py_round (np_std_ddof1 np_sqrt (valores m stim ctrl)) 6)
          else None)
         None None None None)
      (estatisticas_inter_grupo np_sqrt SCIPY_OK mannwhitneyu ctrl afa)).
Proof.
  intros Hm. split; intros Hempty Hfull.
  - apply (linha_In ctrl afa stim m _ Hm).
    + apply in_or_app. right. eapply valores_stim; eauto.
    + unfold linha. fold (valores m stim ctrl). fold (valores m stim afa).
      rewrite Hempty.
      destruct (valores m stim afa) as [|v l] eqn:E; [congruence|].
      left. destruct SCIPY_OK, l; reflexivity.
  - apply (linha_In ctrl afa stim m _ Hm).
    + apply in_or_app. left. eapply valores_stim; eauto.
    + unfold linha. fold (valores m stim ctrl). fold (valores m stim afa).
      rewrite Hempty.
      destruct (valores m stim ctrl) as [|v l] eqn:E; [congruence|].
      left. destruct SCIPY_OK, l; reflexivity.
Qed.

End InterGroupFacts.

Lemma linha_com_grupo_vazio_witness :
  In (Stat.mk "trog1.png" "n_sacadas" None None (Some (py_round (mean [1]) 6))
        None None None)
     (estatisticas_inter_grupo sqrt_approx true (fun _ _ => None) []
        mets_um_paciente).
Proof.
  apply (proj1 (linha_com_grupo_vazio sqrt_approx true (fun _ _ => None) []
                  mets_um_paciente "trog1.png"
                  ("n_sacadas"%string, fun m => Some (of_nat_Q (n_sacadas m)))
                  ltac:(right; left; reflexivity))).
  - reflexivity.
  - discriminate.
Defined.

(** C9 as stated fails: with one subject in the only non-empty group,
    the row of ["trog1.png"] and ["n_sacadas"] is there, the group has
    one non-missing value and a mean, and its standard deviation is
    undefined. *)
Lemma desvio_indefinido_com_uma_amostra :
  valores ("n_sacadas"%string, fun m => Some (of_nat_Q (n_sacadas m)))
    "trog1.png" mets_um_paciente = [1] /\
  map (fun r => (Stat.Afasico_media r, Stat.Afasico_desvio r))
    (filter (fun r => String.eqb (Stat.Stimuli r) "trog1.png" &&
                      String.eqb (Stat.Metrica r) "n_sacadas")
       (estatisticas_inter_grupo sqrt_approx true (fun _ _ => None) []
          mets_um_paciente))
  = [(Some (py_round 1 6), None)].
Proof. split; reflexivity. Qed.

(** ** Worked examples *)

(** The scenario of the specification: the window is the first three
    samples, the first two form a fixation run and the jump at 0.300 s a
    saccade run. *)
Example scenario_janela :
  jan_explore (janela_exploracao scenario) = firstn 3 scenario /\
  jan_resposta (janela_exploracao scenario) = Some 1%Z.
Proof. split; reflexivity. Qed.

Example scenario_labels :
  map (fun r => (label r, seg_id r))
    (fst (rotular_ivt sqrt_approx (jan_explore (janela_exploracao scenario))))
  = [ (lbl_fix, 1%Z); (lbl_fix, 1%Z); (lbl_sac, 2%Z) ].
Proof. vm_compute. reflexivity. Qed.

Example scenario_metricas :
  n_sacadas (metricas_paciente_por_estimulo sqrt_approx scenario) = 1%nat /\
  n_fixacoes (metricas_paciente_por_estimulo sqrt_approx scenario) = 0%nat.
Proof. split; vm_compute; reflexivity. Qed.

(** Two subjects in one table: the dropout row of ["p2"], the outlier and
    the duplicate time stamp of ["p1"] are removed, each subject on its own
    quartiles. *)
Example two_subjects_limpos :
  map (fun r => (paciente_id r, Qred (t_sec r)))
    (limpar_e_outliers two_subjects)
  = [ ("p1"%string, 0); ("p1"%string, 1 # 10);
      ("p2"%string, 1 # 10); ("p2"%string, 1 # 5); ("p2"%string, 3 # 10) ].
Proof. vm_compute. reflexivity. Qed.

Example two_subjects_normalizados :
  map (fun r => (paciente_id r, Qred (X r)))
    (normalizar_coordenadas two_subjects)
  = [ ("p2"%string, 1); ("p1"%string, 0); ("p2"%string, 3 # 5);
      ("p1"%string, 1); ("p1"%string, 1 # 2); ("p2"%string, 0);
      ("p1"%string, 1 # 4); ("p2"%string, 4 # 5) ].
Proof. vm_compute. reflexivity. Qed.

(** * Further properties of the pipeline *)

(** ** The classifier: rows, labels and speeds *)

Lemma sqrt_approx_nonneg (q : Q) : 0 <= sqrt_approx q.
Proof.
  unfold sqrt_approx. apply Qle_shift_div_l; [reflexivity|].
  rewrite Qmult_0_l. change 0 with (inject_Z 0). rewrite <- Zle_Qle.
  apply Z.sqrt_nonneg.
Qed.

Lemma DT_EPS_pos : 0 < DT_EPS.
Proof. reflexivity. Qed.

Lemma dt_column_lower (s : DataFrame) : Forall (fun d => DT_EPS <= d) (dt_column s).
Proof.
  unfold dt_column. rewrite Forall_forall. intros d Hd.
  apply in_map_iff in Hd. destruct Hd as (x & <- & _). apply py_max_lower.
Qed.

Lemma In_combine3 (dxs dys dts : list Q) (a b c : Q) :
  In (a, (b, c)) (combine dxs (combine dys dts)) -> In c dts.
Proof.
  intros H. apply in_combine_r in H. now apply in_combine_r in H.
Qed.

Section ClassifierMore.
Variable np_sqrt : Q -> Q.

(** The table returned has one row per sample of the window, and its
    samples are the samples of the window, reordered by time when there
    are three or more. *)
Theorem rotular_ivt_mesmas_amostras (explore : DataFrame) :
  length (fst (rotular_ivt np_sqrt explore)) = length explore /\
  Permutation explore (map sample (fst (rotular_ivt np_sqrt explore))).
Proof.
  destruct (Nat.lt_ge_cases (length explore) 3) as [H|H].
  - rewrite rotular_ivt_small by assumption. cbn [fst].
    rewrite length_map, map_map. cbn [sample]. rewrite map_id. split; reflexivity.
  - destruct (rotular_ivt_normal np_sqrt explore H) as (_ & L & E & _).
    split; [exact L|]. rewrite E. apply sort_by_perm.
Qed.

(** Whatever the window, a row is labelled fixation exactly when its
    speed is at most the threshold returned with the table, and saccade
    otherwise: a speed equal to the threshold is a fixation. *)
Theorem label_por_limiar (explore : DataFrame) (r : IvtRow) :
  In r (fst (rotular_ivt np_sqrt explore)) ->
  (label r = lbl_fix <-> speed r <= snd (rotular_ivt np_sqrt explore)) /\
  (label r = lbl_sac <-> snd (rotular_ivt np_sqrt explore) < speed r).
Proof.
  intros Hr.
  assert (K : label r =
              if Qle_bool (speed r) (snd (rotular_ivt np_sqrt explore))
              then lbl_fix else lbl_sac).
  { destruct (Nat.lt_ge_cases (length explore) 3) as [H|H].
    - rewrite rotular_ivt_small in Hr |- * by assumption. cbn [fst snd] in *.
      apply in_map_iff in Hr. destruct Hr as (x & <- & _). reflexivity.
    - destruct (rotular_ivt_normal np_sqrt explore H)
        as (-> & _ & _ & _ & _ & _ & E4 & E5 & _).
      rewrite <- E4, map_map in E5. rewrite <- E4.
      apply (ext_in_map E5). exact Hr. }
  rewrite K.
  destruct (Qle_bool (speed r) (snd (rotular_ivt np_sqrt explore))) eqn:E.
  - apply Qle_bool_iff in E. split; split; intros H; auto; try discriminate.
    exfalso. now apply (Qlt_not_le _ _ H).
  - assert (N : ~ speed r <= snd (rotular_ivt np_sqrt explore)).
    { intros L. apply Qle_bool_iff in L. congruence. }
    split; split; intros H; auto; try discriminate; try contradiction.
    now apply Qnot_le_lt.
Qed.

(** With three samples or more, every stored time delta is at least
    [1e-6], so the quotient of line 390 never divides by zero or by a
    negative number. *)
Theorem dt_nunca_abaixo_de_epsilon (explore : DataFrame) :
  (3 <= length explore)%nat ->
  Forall (fun r => DT_EPS <= dt r /\ 0 < dt r) (fst (rotular_ivt np_sqrt explore)).
Proof.
  intros H.
  destruct (rotular_ivt_normal np_sqrt explore H) as (_ & _ & _ & _ & _ & E3 & _).
  pose proof (dt_column_lower (sort_values_t explore)) as L.
  rewrite <- E3 in L. rewrite Forall_forall in L |- *.
  intros r Hr. assert (D : DT_EPS <= dt r) by (apply L; now apply in_map).
  split; [exact D|]. eapply Qlt_le_trans; [apply DT_EPS_pos | exact D].
Qed.

(** When the square root is non-negative, no speed is negative. *)
Theorem speed_nao_negativa (explore : DataFrame) :
  (forall q, 0 <= np_sqrt q) ->
  Forall (fun r => 0 <= speed r) (fst (rotular_ivt np_sqrt explore)).
Proof.
  intros Hs. rewrite Forall_forall. intros r Hr.
  destruct (Nat.lt_ge_cases (length explore) 3) as [H|H].
  - rewrite rotular_ivt_small in Hr by assumption. cbn [fst] in Hr.
    apply in_map_iff in Hr. destruct Hr as (x & <- & _). apply Qle_refl.
  - destruct (rotular_ivt_normal np_sqrt explore H)
      as (_ & _ & _ & _ & _ & _ & E4 & _).
    assert (Hin : In (speed r) (map speed (fst (rotular_ivt np_sqrt explore))))
      by now apply in_map.
    rewrite E4 in Hin. unfold speed_column in Hin.
    apply in_map_iff in Hin. destruct Hin as ([a [b c]] & <- & Hin).
    apply In_combine3 in Hin.
    pose proof (dt_column_lower (sort_values_t explore)) as L.
    rewrite Forall_forall in L. specialize (L c Hin).
    apply Qle_shift_div_l.
    + eapply Qlt_le_trans; [apply DT_EPS_pos | exact L].
    + rewrite Qmult_0_l. apply Hs.
Qed.

End ClassifierMore.

Lemma label_por_limiar_witness :
  exists r,
    nth_error (fst (rotular_ivt sqrt_approx (firstn 3 scenario))) 2 = Some r /\
    (label r = lbl_sac <->
     snd (rotular_ivt sqrt_approx (firstn 3 scenario)) < speed r).
Proof.
  eexists. split; [reflexivity|].
  apply (label_por_limiar sqrt_approx (firstn 3 scenario)).
  vm_compute. right. right. left. reflexivity.
Defined.

Lemma dt_nunca_abaixo_de_epsilon_witness :
  (3 <= length sub_microsecond)%nat /\
  Forall (fun r => DT_EPS <= dt r /\ 0 < dt r)
    (fst (rotular_ivt sqrt_approx sub_microsecond)).
Proof.
  split; [simpl; lia|].
  apply (dt_nunca_abaixo_de_epsilon sqrt_approx sub_microsecond). simpl; lia.
Defined.

Lemma speed_nao_negativa_witness :
  Forall (fun r => 0 <= speed r) (fst (rotular_ivt sqrt_approx scenario)).
Proof.
  apply (speed_nao_negativa sqrt_approx scenario). exact sqrt_approx_nonneg.
Defined.

(** ** The response window: what it contains *)

Lemma sorted_by_filter {A : Type} (leb : A -> A -> bool) (P : A -> bool)
    (l : list A) :
  sorted_by leb l -> sorted_by leb (filter P l).
Proof.
  induction 1 as [|a l Hs IH Ha]; cbn [filter]; [constructor|].
  destruct (P a); [|exact IH].
  constructor; [exact IH|].
  rewrite Forall_forall in Ha |- *. intros x Hx. apply Ha.
  apply filter_In in Hx. tauto.
Qed.

Lemma sorted_by_firstn {A : Type} (leb : A -> A -> bool) (k : nat) (l : list A) :
  sorted_by leb l -> sorted_by leb (firstn k l).
Proof.
  intros H. revert k. induction H as [|a l Hs IH Ha]; intros [|k];
    cbn [firstn]; try constructor.
  - apply IH.
  - rewrite Forall_forall in Ha |- *. intros x Hx. apply Ha.
    rewrite <- (firstn_skipn k l). apply in_or_app. now left.
Qed.

Lemma firstn_incl {A : Type} (k : nat) (l : list A) : incl (firstn k l) l.
Proof.
  intros x Hx. rewrite <- (firstn_skipn k l). apply in_or_app. now left.
Qed.

Lemma last_In {A : Type} (l : list A) (d : A) : l <> [] -> In (last l d) l.
Proof.
  intros H. destruct (exists_last H) as (l' & z & ->).
  rewrite last_last. apply in_or_app. right. now left.
Qed.

Lemma key_zero_true (r : Sample) : key_zero r = true <-> Key r = 0%Z.
Proof. unfold key_zero. apply Z.eqb_eq. Qed.

(** The two shapes of the result on a non-empty table, with the position
    of the response when there is one. *)
Lemma janela_exploracao_cases (df : DataFrame) :
  df <> [] ->
  exists r0,
    hd_error (sort_values_t df) = Some r0 /\
    ((exists k r,
        nth_error (sort_values_t df) k = Some r /\ Key r <> 0%Z /\
        janela_exploracao df =
        (filter key_zero (firstn k (sort_values_t df)),
         Some (t_sec r0), Some (t_sec r), Some (t_sec r - t_sec r0),
         Some (Key r))) \/
     ((forall r, In r (sort_values_t df) -> Key r = 0%Z) /\
      janela_exploracao df =
      (filter key_zero (sort_values_t df),
       Some (t_sec r0), Some (t_sec (last (sort_values_t df) r0)),
       Some (t_sec (last (sort_values_t df) r0) - t_sec r0), None))).
Proof.
  intros Hne. destruct (sort_values_t_hd df Hne) as (r0 & Hhd).
  exists r0. split; [exact Hhd|].
  rewrite (janela_exploracao_unfold df r0 r0 Hne Hhd).
  pose proof (primeira_resposta (sort_values_t df) 0) as P.
  unfold with_index.
  destruct (filter _ (combine (seq 0 _) (sort_values_t df))) as [|[idx r] rest].
  - right. split; [exact P | reflexivity].
  - left. destruct P as (j & -> & Hj & Hnz & _). cbn [Nat.add].
    exists j, r. repeat split; assumption.
Qed.

Lemma sorted_hd_le (s : DataFrame) (r0 r : Sample) :
  sorted_by t_leb s -> hd_error s = Some r0 -> In r s -> t_sec r0 <= t_sec r.
Proof.
  intros Hs Hhd Hr. destruct s as [|x s]; [discriminate|].
  injection Hhd as ->. destruct Hr as [<-|Hr]; [apply Qle_refl|].
  inversion Hs as [|? ? _ Hall]; subst. rewrite Forall_forall in Hall.
  apply Qle_bool_iff. apply (Hall r Hr).
Qed.

(** Every sample of the exploration window has response code 0 and is a
    sample of the trial, and the window is in ascending time order. *)
Theorem janela_so_amostras_sem_resposta (df : DataFrame) :
  Forall (fun r => Key r = 0%Z) (jan_explore (janela_exploracao df)) /\
  incl (jan_explore (janela_exploracao df)) df /\
  sorted_by t_leb (jan_explore (janela_exploracao df)).
Proof.
  destruct df as [|x df].
  - cbn. repeat split; [constructor | intros r [] | constructor].
  - destruct (janela_exploracao_cases (x :: df)) as (r0 & Hhd & C); [discriminate|].
    pose proof (sort_values_t_sorted (x :: df)) as Hs.
    assert (I : incl (sort_values_t (x :: df)) (x :: df)).
    { intros r Hr. now apply sort_by_In in Hr. }
    destruct C as [(k & r & _ & _ & ->)|(_ & ->)]; unfold jan_explore; cbn [fst].
    + split; [|split].
      * rewrite Forall_forall. intros y Hy. apply filter_In in Hy.
        now apply key_zero_true.
      * intros y Hy. apply filter_In in Hy. apply I.
        apply (firstn_incl k). tauto.
      * apply sorted_by_filter. now apply sorted_by_firstn.
    + split; [|split].
      * rewrite Forall_forall. intros y Hy. apply filter_In in Hy.
        now apply key_zero_true.
      * intros y Hy. apply filter_In in Hy. apply I. tauto.
      * now apply sorted_by_filter.
Qed.

(** On a non-empty trial the three times are defined, [t0] is the
    earliest time of the trial, the response time stamp is the time of a
    sample of the trial, and the response time is their difference and is
    not negative. *)
Theorem tempo_resposta_nao_negativo (df : DataFrame) :
  df <> [] ->
  exists t0 t_resp,
    jan_t0 (janela_exploracao df) = Some t0 /\
    jan_t_resp (janela_exploracao df) = Some t_resp /\
    jan_tempo_resposta (janela_exploracao df) = Some (t_resp - t0) /\
    (forall r, In r df -> t0 <= t_sec r) /\
    (exists r, In r df /\ t_sec r = t_resp) /\
    0 <= t_resp - t0.
Proof.
  intros Hne.
  destruct (janela_exploracao_cases df Hne) as (r0 & Hhd & C).
  pose proof (sort_values_t_sorted df) as Hs.
  assert (Hmin : forall r, In r df -> t_sec r0 <= t_sec r).
  { intros r Hr. apply (sorted_hd_le (sort_values_t df)); auto.
    now apply sort_by_In. }
  destruct C as [(k & r & Hk & _ & ->)|(_ & ->)];
    unfold jan_t0, jan_t_resp, jan_tempo_resposta; cbn [fst snd].
  - assert (Hr : In r df).
    { apply (sort_by_In t_leb). eapply nth_error_In; eauto. }
    exists (t_sec r0), (t_sec r). repeat split; auto.
    + now exists r.
    + specialize (Hmin r Hr). lra.
  - assert (Hl : In (last (sort_values_t df) r0) df).
    { apply (sort_by_In t_leb). apply last_In.
      intros E. unfold sort_values_t in Hhd. rewrite E in Hhd. discriminate. }
    exists (t_sec r0), (t_sec (last (sort_values_t df) r0)).
    repeat split; auto.
    + now exists (last (sort_values_t df) r0).
    + specialize (Hmin _ Hl). lra.
Qed.

Lemma tempo_resposta_nao_negativo_witness :
  exists t0 t_resp,
    jan_t0 (janela_exploracao scenario) = Some t0 /\
    jan_t_resp (janela_exploracao scenario) = Some t_resp /\
    jan_tempo_resposta (janela_exploracao scenario) = Some (t_resp - t0) /\
    (forall r, In r scenario -> t0 <= t_sec r) /\
    (exists r, In r scenario /\ t_sec r = t_resp) /\
    0 <= t_resp - t0.
Proof. apply (tempo_resposta_nao_negativo scenario). discriminate. Defined.

(** ** The segment table *)

Lemma list_sum_cons_eq (a : nat) (l : list nat) :
  list_sum (a :: l) = (a + list_sum l)%nat.
Proof. reflexivity. Qed.

Section UniqueFacts.
Context {K : Type} (eqb : K -> K -> bool).
Hypothesis eqb_eq : forall a b, eqb a b = true <-> a = b.

Lemma unique_by_In_iff (l : list K) (x : K) : In x (unique_by eqb l) <-> In x l.
Proof.
  induction l as [|a l IH]; [reflexivity|].
  cbn [unique_by In]. rewrite filter_In, IH, negb_true_iff.
  destruct (eqb a x) eqn:E.
  - apply eqb_eq in E. subst. intuition congruence.
  - assert (a <> x) by (intros ->; rewrite (proj2 (eqb_eq x x) eq_refl) in E;
                        discriminate).
    intuition congruence.
Qed.

Lemma unique_by_NoDup (l : list K) : NoDup (unique_by eqb l).
Proof.
  induction l as [|a l IH]; cbn [unique_by]; constructor.
  - intros H. apply filter_In in H. destruct H as (_ & H).
    rewrite (proj2 (eqb_eq a a) eq_refl) in H. discriminate.
  - now apply NoDup_filter.
Qed.

(** In a duplicate-free list of keys, a key that is there is met once. *)
Lemma indicator_sum (u : list K) (x : K) :
  NoDup u -> In x u ->
  list_sum (map (fun k => if eqb x k then 1 else 0)%nat u) = 1%nat.
Proof.
  induction 1 as [|a u Hna Hnd IH]; intros Hin; [contradiction|].
  cbn [map]. rewrite list_sum_cons_eq. destruct Hin as [->|Hin].
  - rewrite (proj2 (eqb_eq x x) eq_refl).
    assert (Z0 : list_sum (map (fun k => if eqb x k then 1 else 0)%nat u) = 0%nat).
    { clear IH Hnd. induction u as [|b u IHu]; [reflexivity|].
      cbn [map]. rewrite list_sum_cons_eq. destruct (eqb x b) eqn:E.
      - apply eqb_eq in E. subst. exfalso. apply Hna. now left.
      - rewrite IHu; [reflexivity|]. intros H. apply Hna. now right. }
    rewrite Z0. reflexivity.
  - destruct (eqb x a) eqn:E.
    + apply eqb_eq in E. subst. contradiction.
    + now rewrite IH.
Qed.

(** Groups by key partition a table: over a duplicate-free list of keys
    that has the key of every row, the group sizes add up to the number of
    rows. *)
Lemma group_sizes {R : Type} (key : R -> K) (u : list K) (l : list R) :
  NoDup u -> (forall r, In r l -> In (key r) u) ->
  list_sum (map (fun k => length (filter (fun r => eqb (key r) k) l)) u)
  = length l.
Proof.
  intros Hnd. induction l as [|a l IH]; intros Hall.
  - cbn [filter length]. clear Hnd Hall.
    induction u as [|k u IHu]; [reflexivity|].
    cbn [map]. rewrite list_sum_cons_eq. exact IHu.
  - assert (E : forall u',
      list_sum (map (fun k => length (filter (fun r => eqb (key r) k) (a :: l))) u')
      = (list_sum (map (fun k => if eqb (key a) k then 1 else 0) u')
         + list_sum (map (fun k => length (filter (fun r => eqb (key r) k) l)) u'))%nat).
    { induction u' as [|k u' IHu']; [reflexivity|].
      cbn [map]. rewrite !list_sum_cons_eq, IHu'. cbn [filter].
      destruct (eqb (key a) k); cbn [length]; lia. }
    rewrite E, IH by (intros r Hr; apply Hall; now right).
    rewrite (indicator_sum u (key a) Hnd) by (apply Hall; now left).
    reflexivity.
Qed.

End UniqueFacts.

Lemma seg_key_eqb_eq (a b : Z * Label) : seg_key_eqb a b = true <-> a = b.
Proof.
  destruct a as [i l], b as [j m]. unfold seg_key_eqb. cbn [fst snd].
  rewrite andb_true_iff, Z.eqb_eq, Label_eqb_eq. split.
  - intros (-> & ->). reflexivity.
  - intros [= -> ->]. tauto.
Qed.

Lemma agg_group_n (k : Z * Label) (g : list IvtRow) :
  list_sum (map Seg.n (agg_group k g)) = length g.
Proof. destruct g; cbn; [reflexivity | lia]. Qed.

Lemma seg_keys_NoDup (rows : list IvtRow) :
  NoDup (sort_by seg_key_leb (unique_by seg_key_eqb (map seg_key rows))).
Proof.
  eapply Permutation_NoDup; [apply sort_by_perm|].
  apply unique_by_NoDup. exact seg_key_eqb_eq.
Qed.

Lemma seg_keys_In (rows : list IvtRow) (r : IvtRow) :
  In r rows ->
  In (seg_key r) (sort_by seg_key_leb (unique_by seg_key_eqb (map seg_key rows))).
Proof.
  intros H. apply sort_by_In. apply (unique_by_In_iff _ seg_key_eqb_eq).
  now apply in_map.
Qed.

Lemma segmentos_list_sum (rows : list IvtRow) :
  list_sum (map Seg.n (segmentos_por_label rows)) = length rows.
Proof.
  unfold segmentos_por_label.
  set (keys := sort_by seg_key_leb (unique_by seg_key_eqb (map seg_key rows))).
  rewrite <- (group_sizes seg_key_eqb seg_key_eqb_eq seg_key keys rows
                (seg_keys_NoDup rows) (fun r => seg_keys_In rows r)).
  induction keys as [|k keys IH]; [reflexivity|].
  cbn [flat_map map]. rewrite list_sum_cons_eq, map_app, list_sum_app, agg_group_n.
  now rewrite IH.
Qed.

Lemma segmentos_In (rows : list IvtRow) (s : Seg.t) :
  In s (segmentos_por_label rows) ->
  exists r0 g,
    filter (fun r => seg_key_eqb (seg_key r) (Seg.seg_id s, Seg.label s)) rows
    = r0 :: g /\
    Seg.n s = length (r0 :: g) /\
    Seg.t_start s = fold_left Qmin (map (fun r => t_sec (sample r)) g)
                      (t_sec (sample r0)) /\
    Seg.t_end s = fold_left Qmax (map (fun r => t_sec (sample r)) g)
                    (t_sec (sample r0)) /\
    Seg.dur s = Seg.t_end s - Seg.t_start s /\
    Seg.x_start s = X (sample r0) /\ Seg.y_start s = Y (sample r0) /\
    Seg.x_end s = X (sample (last (r0 :: g) r0)) /\
    Seg.y_end s = Y (sample (last (r0 :: g) r0)).
Proof.
  unfold segmentos_por_label. intros H. apply in_flat_map in H.
  destruct H as ([i l] & _ & H).
  destruct (filter (fun r => seg_key_eqb (seg_key r) (i, l)) rows)
    as [|r0 g] eqn:E; [contradiction|].
  cbn [agg_group fst snd] in H. destruct H as [<-|[]].
  cbn [Seg.seg_id Seg.label Seg.n Seg.t_start Seg.t_end Seg.dur
       Seg.x_start Seg.y_start Seg.x_end Seg.y_end].
  exists r0, g. rewrite E. repeat split.
Qed.

(** The sample counts of the segments add up to the number of rows of
    the labelled table: every sample is counted in exactly one segment. *)
Theorem soma_das_contagens (explore_ivt : list IvtRow) :
  list_sum (map Seg.n (segmentos_por_label explore_ivt)) = length explore_ivt.
Proof. apply segmentos_list_sum. Qed.

(** Every segment holds at least one sample, all its rows carry its
    segment id and label, it starts no later than it ends, and its
    duration is the difference of the two and is not negative. *)
Theorem segmento_bem_formado (explore_ivt : list IvtRow) (s : Seg.t) :
  In s (segmentos_por_label explore_ivt) ->
  (1 <= Seg.n s)%nat /\
  Seg.n s =
    length (filter (fun r => (seg_id r =? Seg.seg_id s)%Z &&
                             Label_eqb (label r) (Seg.label s)) explore_ivt) /\
  Seg.t_start s <= Seg.t_end s /\
  Seg.dur s = Seg.t_end s - Seg.t_start s /\
  0 <= Seg.dur s.
Proof.
  intros H. destruct (segmentos_In explore_ivt s H)
    as (r0 & g & E & Hn & Hs & He & Hd & _).
  assert (L : Seg.t_start s <= Seg.t_end s).
  { rewrite Hs, He. eapply Qle_trans; [apply fold_Qmin_spec | apply fold_Qmax_spec]. }
  split; [rewrite Hn; cbn; lia|].
  split; [rewrite Hn, <- E; reflexivity|].
  split; [exact L|]. split; [exact Hd|]. rewrite Hd. lra.
Qed.

Lemma segmento_bem_formado_witness :
  exists s,
    hd_error (segmentos_do_estimulo sqrt_approx fixacao_curta) = Some s /\
    (1 <= Seg.n s)%nat /\ 0 <= Seg.dur s.
Proof.
  eexists. split; [vm_compute; reflexivity|].
  destruct (segmento_bem_formado
              (fst (rotular_ivt sqrt_approx
                      (jan_explore (janela_exploracao fixacao_curta)))) _
              ltac:(vm_compute; left; reflexivity)) as (H1 & _ & _ & _ & H5).
  split; [exact H1 | exact H5].
Defined.

(** ** Bounds on the metrics *)

Lemma dispersao_nonneg (w : DataFrame) : 0 <= dispersao_area_bb w.
Proof.
  unfold dispersao_area_bb. destruct (length w <? 2)%nat; [apply Qle_refl|].
  destruct (series_max (map X w)) as [x_max|] eqn:H2; [|apply Qle_refl].
  destruct (series_min (map X w)) as [x_min|] eqn:H1; [|apply Qle_refl].
  destruct (series_max (map Y w)) as [y_max|] eqn:H4; [|apply Qle_refl].
  destruct (series_min (map Y w)) as [y_min|] eqn:H3; [|apply Qle_refl].
  assert (T : forall l : list Q, Forall (fun _ => True) l)
    by (intros l; rewrite Forall_forall; auto).
  destruct (series_min_max_closed _ _ _ _ (T (map X w)) H1 H2) as (_ & _ & A).
  destruct (series_min_max_closed _ _ _ _ (T (map Y w)) H3 H4) as (_ & _ & B).
  apply Qmult_le_0_compat; lra.
Qed.

Lemma filter_disjoint_length {A : Type} (P Q : A -> bool) (l : list A) :
  (forall x, P x = true -> Q x = true -> False) ->
  (length (filter P l) + length (filter Q l) <= length l)%nat.
Proof.
  intros H. induction l as [|a l IH]; [reflexivity|]. cbn [filter].
  destruct (P a) eqn:Pa, (Q a) eqn:Qa; cbn [length]; try lia.
  exfalso. eauto.
Qed.

Lemma segmentos_length (rows : list IvtRow) :
  (length (segmentos_por_label rows) <= length rows)%nat.
Proof.
  assert (H : forall s, In s (segmentos_por_label rows) -> (1 <= Seg.n s)%nat).
  { intros s Hs. destruct (segmentos_In rows s Hs) as (r0 & g & _ & -> & _).
    cbn. lia. }
  pose proof (segmentos_list_sum rows) as S.
  assert (G : forall l : list Seg.t,
             (forall s, In s l -> (1 <= Seg.n s)%nat) ->
             (length l <= list_sum (map Seg.n l))%nat).
  { induction l as [|s l IH]; intros Hl; [reflexivity|].
    cbn [map length]. rewrite list_sum_cons_eq.
    pose proof (Hl s (or_introl eq_refl)).
    assert ((length l <= list_sum (map Seg.n l))%nat)
      by (apply IH; intros x Hx; apply Hl; now right).
    lia. }
  specialize (G _ H). lia.
Qed.

Lemma janela_explore_length (df : DataFrame) :
  (length (jan_explore (janela_exploracao df)) <= length df)%nat.
Proof.
  destruct df as [|x df]; [reflexivity|].
  destruct (janela_exploracao_cases (x :: df)) as (r0 & _ & C); [discriminate|].
  pose proof (sort_by_length t_leb (x :: df)) as L.
  fold (sort_values_t (x :: df)) in L.
  destruct C as [(k & r & _ & _ & ->)|(_ & ->)]; unfold jan_explore; cbn [fst].
  - eapply Nat.le_trans; [apply filter_length_le|].
    rewrite <- L. rewrite length_firstn. lia.
  - eapply Nat.le_trans; [apply filter_length_le|]. lia.
Qed.

Section MetricBounds.
Variable np_sqrt : Q -> Q.

Lemma rotular_ivt_length (explore : DataFrame) :
  length (fst (rotular_ivt np_sqrt explore)) = length explore.
Proof.
  destruct (Nat.lt_ge_cases (length explore) 3) as [H|H].
  - rewrite rotular_ivt_small by assumption. apply length_map.
  - now destruct (rotular_ivt_normal np_sqrt explore H) as (_ & L & _).
Qed.

Lemma metricas_contagens (df : DataFrame) :
  n_sacadas (metricas_paciente_por_estimulo np_sqrt df) =
    length (sac_segments (segmentos_do_estimulo np_sqrt df)) /\
  n_fixacoes (metricas_paciente_por_estimulo np_sqrt df) =
    length (fix_segments (segmentos_do_estimulo np_sqrt df)) /\
  0 <= dispersao_area (metricas_paciente_por_estimulo np_sqrt df).
Proof.
  unfold metricas_paciente_por_estimulo, segmentos_do_estimulo.
  destruct df as [|x df]; [repeat split; discriminate|].
  destruct (janela_exploracao (x :: df)) as [[[[e t0] tr] tt] resp].
  unfold jan_explore. cbn [fst].
  destruct e as [|y e]; [repeat split; discriminate|].
  destruct (rotular_ivt np_sqrt (y :: e)) as [rows vt]. cbn [fst].
  cbn [n_sacadas n_fixacoes dispersao_area]. repeat split.
  unfold py_round. apply Qle_shift_div_l; [reflexivity|].
  rewrite Qmult_0_l. change 0 with (inject_Z 0). rewrite <- Zle_Qle.
  unfold round_half_even.
  set (q := dispersao_area_bb (y :: e) * inject_Z (10 ^ Z.of_nat 6)).
  assert (Hq : 0 <= q).
  { unfold q. apply Qmult_le_0_compat; [apply dispersao_nonneg | discriminate]. }
  assert (Hf : (0 <= Qfloor q)%Z).
  { change 0%Z with (Qfloor 0). now apply Qfloor_resp_le. }
  destruct (Qcompare (q - inject_Z (Qfloor q)) (1 # 2));
    try destruct (Z.even (Qfloor q)); lia.
Qed.

(** The saccade count and the fixation count of a trial together never
    exceed the number of samples of its exploration window, which never
    exceeds the number of samples of the trial; and the dispersion
    reported is never negative. *)
Theorem contagens_limitadas (df : DataFrame) :
  (n_sacadas (metricas_paciente_por_estimulo np_sqrt df) +
   n_fixacoes (metricas_paciente_por_estimulo np_sqrt df)
   <= length (jan_explore (janela_exploracao df)))%nat /\
  (length (jan_explore (janela_exploracao df)) <= length df)%nat /\
  0 <= dispersao_area (metricas_paciente_por_estimulo np_sqrt df).
Proof.
  destruct (metricas_contagens df) as (-> & -> & D).
  split; [|split; [apply janela_explore_length | exact D]].
  unfold segmentos_do_estimulo.
  rewrite <- (rotular_ivt_length (jan_explore (janela_exploracao df))).
  eapply Nat.le_trans; [|apply segmentos_length].
  unfold sac_segments, fix_segments. apply filter_disjoint_length.
  intros s Hs Hf. unfold is_sac in Hs. apply andb_true_iff in Hf.
  destruct Hf as (Hf & _). unfold is_fix in Hf.
  apply Label_eqb_eq in Hs. apply Label_eqb_eq in Hf. congruence.
Qed.

End MetricBounds.

(** The bounding-box area of any table is not negative. *)
Theorem dispersao_nao_negativa (explore : DataFrame) :
  0 <= dispersao_area_bb explore.
Proof. apply dispersao_nonneg. Qed.

(** ** What the cleaning filter leaves *)

Lemma select_cons {A : Type} (a : A) (l : list A) (b : bool) (m : list bool) :
  select (a :: l) (b :: m) = if b then a :: select l m else select l m.
Proof. unfold select. cbn [combine filter snd]. destruct b; reflexivity. Qed.

Lemma select_nil_r {A : Type} (l : list A) : select l [] = [].
Proof. unfold select. now rewrite combine_nil. Qed.

Lemma select_sorted {A : Type} (leb : A -> A -> bool) (l : list A) :
  sorted_by leb l -> forall m, sorted_by leb (select l m).
Proof.
  induction 1 as [|a l Hs IH Ha]; intros m; [constructor|].
  destruct m as [|b m]; [rewrite select_nil_r; constructor|].
  rewrite select_cons. destruct b; [|apply IH].
  constructor; [apply IH|].
  rewrite Forall_forall in Ha |- *. intros x Hx. apply Ha.
  now apply (select_incl l m).
Qed.

Lemma dup_stage_incl (d : DataFrame) : incl (dup_stage d) d.
Proof. unfold dup_stage. apply select_incl. Qed.

Lemma iqr_stage_incl (d : DataFrame) : incl (iqr_stage d) d.
Proof. unfold iqr_stage. apply select_incl. Qed.

Lemma nao_nulo_true (r : Sample) :
  nao_nulo r = true <-> ~ (X r == 0 /\ Y r == 0).
Proof.
  unfold nao_nulo. rewrite negb_true_iff, andb_false_iff. split.
  - intros [H|H] (Hx & Hy); [apply Qeq_bool_iff in Hx | apply Qeq_bool_iff in Hy];
      congruence.
  - intros H. destruct (Qeq_bool (X r) 0) eqn:Ex; [|now left].
    destruct (Qeq_bool (Y r) 0) eqn:Ey; [|now right].
    exfalso. apply H. split; now apply Qeq_bool_iff.
Qed.

(** The cleaned table holds rows of the input only, none of them a
    dropout (both coordinates zero), ordered by subject and, within a
    subject, by time. *)
Theorem limpar_mantem_so_amostras_validas (df : DataFrame) :
  incl (limpar_e_outliers df) df /\
  Forall (fun r => ~ (X r == 0 /\ Y r == 0)) (limpar_e_outliers df) /\
  sorted_by pid_t_leb (limpar_e_outliers df).
Proof.
  rewrite limpar_e_outliers_stages.
  assert (I : incl (dup_stage (iqr_stage (sort_by pid_t_leb (filter nao_nulo df))))
                   (filter nao_nulo df)).
  { intros r Hr. apply dup_stage_incl in Hr. apply iqr_stage_incl in Hr.
    now apply sort_by_In in Hr. }
  split; [|split].
  - intros r Hr. apply I in Hr. apply filter_In in Hr. tauto.
  - rewrite Forall_forall. intros r Hr. apply I in Hr. apply filter_In in Hr.
    now apply nao_nulo_true.
  - unfold dup_stage, iqr_stage. apply select_sorted. apply select_sorted.
    apply sort_by_sorted; [exact pid_t_leb_total | exact pid_t_leb_trans].
Qed.

(** The duplicate filter on the rows of one subject in time order: what
    is kept after a row of time [prev]. *)
Lemma dup_keep_strict (g : DataFrame) :
  sorted_by t_leb g ->
  forall prev : Q,
    Forall (fun r => prev <= t_sec r) g ->
    StronglySorted (fun a b => t_sec a < t_sec b)
      (select g (map dt_keep (diff_from prev (map t_sec g)))) /\
    Forall (fun r => prev < t_sec r)
      (select g (map dt_keep (diff_from prev (map t_sec g)))).
Proof.
  induction 1 as [|b g Hs IH Hb]; intros prev Hp.
  - cbn. split; constructor.
  - cbn [map diff_from]. rewrite select_cons.
    assert (Hg : Forall (fun r => t_sec b <= t_sec r) g).
    { eapply Forall_impl; [|exact Hb]. intros r Hr. now apply Qle_bool_iff. }
    destruct (IH (t_sec b) Hg) as (S1 & S2).
    apply Forall_cons_iff in Hp. destruct Hp as (Hpb & _).
    cbn [dt_keep]. destruct (Qeq_bool (t_sec b - prev) 0) eqn:E; cbn [negb].
    + apply Qeq_bool_iff in E. split; [exact S1|].
      eapply Forall_impl; [|exact S2]. intros r Hr. cbv beta in Hr. lra.
    + assert (N : ~ t_sec b - prev == 0).
      { intros Q0. apply Qeq_bool_iff in Q0. congruence. }
      assert (L : prev < t_sec b).
      { destruct (Qlt_le_dec prev (t_sec b)) as [H|H]; [exact H|].
        exfalso. apply N. lra. }
      split.
      * constructor; [exact S1 | exact S2].
      * constructor; [exact L|].
        eapply Forall_impl; [|exact S2]. intros r Hr. cbv beta in Hr. lra.
Qed.

Lemma dup_grupo_strict (g : DataFrame) :
  sorted_by t_leb g ->
  StronglySorted (fun a b => t_sec a < t_sec b) (dup_grupo g).
Proof.
  intros Hs. unfold dup_grupo. destruct g as [|a g]; [constructor|].
  cbn [map diff]. rewrite select_cons. cbn [dt_keep].
  inversion Hs as [|? ? Hs' Ha]; subst.
  assert (Hg : Forall (fun r => t_sec a <= t_sec r) g).
  { eapply Forall_impl; [|exact Ha]. intros r Hr. now apply Qle_bool_iff. }
  destruct (dup_keep_strict g Hs' (t_sec a) Hg) as (S1 & S2).
  constructor; assumption.
Qed.

Lemma sorted_pid_t_same_pid (p : string) (g : DataFrame) :
  sorted_by pid_t_leb g -> (forall r, In r g -> paciente_id r = p) ->
  sorted_by t_leb g.
Proof.
  induction 1 as [|a g Hs IH Ha]; intros Hp; [constructor|].
  constructor.
  - apply IH. intros r Hr. apply Hp. now right.
  - rewrite Forall_forall in Ha |- *. intros r Hr.
    specialize (Ha r Hr). unfold pid_t_leb in Ha.
    rewrite (Hp a (or_introl eq_refl)), (Hp r (or_intror Hr)) in Ha.
    assert (E : String.compare p p = Eq)
      by (apply (proj2 (String_as_OT.cmp_eq _ _)); reflexivity).
    now rewrite E in Ha.
Qed.

(** After cleaning, the time stamps of each subject are strictly
    increasing along the table: no subject keeps two samples with the
    same time. *)
Theorem limpar_tempos_estritamente_crescentes (df : DataFrame) (p : string) :
  StronglySorted (fun a b => t_sec a < t_sec b)
    (grupo_de p (limpar_e_outliers df)).
Proof.
  rewrite limpar_e_outliers_stages, grupo_de_dup_stage.
  apply dup_grupo_strict.
  apply (sorted_pid_t_same_pid p).
  - unfold grupo_de. apply sorted_by_filter. unfold iqr_stage.
    apply select_sorted.
    apply sort_by_sorted; [exact pid_t_leb_total | exact pid_t_leb_trans].
  - intros r Hr. apply filter_In in Hr. destruct Hr as (_ & Hr).
    now apply String.eqb_eq in Hr.
Qed.

(** ** What the normaliser keeps *)

Lemma normalizar_grupo_map (g : DataFrame) :
  _normalizar_grupo g = map (normalizar_linha g) g.
Proof.
  destruct g as [|x g]; [reflexivity|].
  destruct (series_defined (map X (x :: g))) as (a & b & H1 & H2); [discriminate|].
  destruct (series_defined (map Y (x :: g))) as (c & d & H3 & H4); [discriminate|].
  rewrite (normalizar_grupo_rows _ _ _ _ _ H1 H2 H3 H4).
  unfold normalizar_linha. now rewrite H1, H2, H3, H4.
Qed.

(** The normalised table, row by row: each row is rescaled with the
    minimum and maximum of the rows of its own subject. *)
Lemma normalizar_map (df : DataFrame) :
  normalizar_coordenadas df =
  map (fun r => normalizar_linha (grupo_de (paciente_id r) df) r) df.
Proof.
  unfold normalizar_coordenadas. cbn [NORMALIZAR_COORDS negb orb].
  destruct df as [|x df]; [reflexivity|]. cbn [is_empty].
  destruct (1 <? n_pacientes (x :: df))%nat eqn:E.
  - unfold groupby_apply.
    apply (align_pointwise (x :: df) _
             (fun q => normalizar_linha (grupo_de q (x :: df)))).
    intros q. apply normalizar_grupo_map.
  - rewrite normalizar_grupo_map. apply map_ext_in. intros r Hr.
    f_equal. symmetry. apply grupo_de_all. intros r' Hr'.
    now apply (n_pacientes_single _ E).
Qed.

Lemma normalizar_linha_columns (g : DataFrame) (r : Sample) :
  Key (normalizar_linha g r) = Key r /\
  Timestamp (normalizar_linha g r) = Timestamp r /\
  t_sec (normalizar_linha g r) = t_sec r /\
  Stimuli (normalizar_linha g r) = Stimuli r /\
  paciente_id (normalizar_linha g r) = paciente_id r /\
  grupo (normalizar_linha g r) = grupo r.
Proof.
  unfold normalizar_linha.
  destruct (series_min (map X g)), (series_max (map X g)),
           (series_min (map Y g)), (series_max (map Y g)); repeat split.
Qed.

(** Normalisation keeps the number and the order of the rows and changes
    nothing but the two coordinates: response code, time stamps, stimulus,
    subject and group of every row are as they were. *)
Theorem normalizar_so_altera_coordenadas (df : DataFrame) :
  length (normalizar_coordenadas df) = length df /\
  map Key (normalizar_coordenadas df) = map Key df /\
  map Timestamp (normalizar_coordenadas df) = map Timestamp df /\
  map t_sec (normalizar_coordenadas df) = map t_sec df /\
  map Stimuli (normalizar_coordenadas df) = map Stimuli df /\
  map paciente_id (normalizar_coordenadas df) = map paciente_id df /\
  map grupo (normalizar_coordenadas df) = map grupo df.
Proof.
  rewrite normalizar_map. rewrite length_map, !map_map.
  split; [reflexivity|].
  repeat split; apply map_ext; intros r;
    apply (normalizar_linha_columns (grupo_de (paciente_id r) df) r).
Qed.

Lemma escala_monotone (mn mx u v : Q) :
  u <= v -> escala mn mx u <= escala mn mx v.
Proof.
  intros H. unfold escala. destruct (Qltb RANGE_EPS (mx - mn)) eqn:E;
    [|apply Qle_refl].
  apply Qltb_true in E.
  assert (Hpos : 0 < mx - mn) by (eapply Qlt_trans; [|exact E]; reflexivity).
  unfold Qdiv. apply Qmult_le_compat_r; [lra|].
  apply Qlt_le_weak. now apply Qinv_lt_0_compat.
Qed.

Lemma fold_Qmin_In (l : list Q) (a : Q) : In (fold_left Qmin l a) (a :: l).
Proof.
  apply (fold_Qmin_closed (fun v => In v (a :: l))); [now left|].
  rewrite Forall_forall. intros x Hx. now right.
Qed.

Lemma fold_Qmax_In (l : list Q) (a : Q) : In (fold_left Qmax l a) (a :: l).
Proof.
  apply (fold_Qmax_closed (fun v => In v (a :: l))); [now left|].
  rewrite Forall_forall. intros x Hx. now right.
Qed.

(** Within one subject the normalisation never reverses the order of
    two coordinates; and when the range of a coordinate of the subject is
    above [1e-10], some row of the subject ends at 0 and some row at 1. *)
Theorem normalizar_crescente_e_sobre (df : DataFrame) :
  (forall i j a b a' b',
     nth_error df i = Some a -> nth_error df j = Some b ->
     nth_error (normalizar_coordenadas df) i = Some a' ->
     nth_error (normalizar_coordenadas df) j = Some b' ->
     paciente_id a = paciente_id b ->
     (X a <= X b -> X a' <= X b') /\ (Y a <= Y b -> Y a' <= Y b')) /\
  (forall p mn mx,
     series_min (map X (grupo_de p df)) = Some mn ->
     series_max (map X (grupo_de p df)) = Some mx ->
     RANGE_EPS < mx - mn ->
     (exists r, In r (normalizar_coordenadas df) /\ paciente_id r = p /\ X r == 0) /\
     (exists r, In r (normalizar_coordenadas df) /\ paciente_id r = p /\ X r == 1)).
Proof.
  split.
  - intros i j a b a' b' Hia Hjb Hia' Hjb' Hp.
    rewrite normalizar_map in Hia', Hjb'.
    rewrite (map_nth_error _ _ _ Hia) in Hia'.
    rewrite (map_nth_error _ _ _ Hjb) in Hjb'.
    injection Hia' as <-. injection Hjb' as <-.
    assert (Ha : In a df) by (eapply nth_error_In; eauto).
    rewrite <- Hp.
    set (g := grupo_de (paciente_id a) df).
    assert (Hg : g <> []).
    { intros E. assert (In a g) by (apply In_grupo_de; exact Ha).
      rewrite E in H. exact H. }
    destruct (series_defined (map X g)) as (x1 & x2 & H1 & H2).
    { intros E. apply map_eq_nil in E. contradiction. }
    destruct (series_defined (map Y g)) as (y1 & y2 & H3 & H4).
    { intros E. apply map_eq_nil in E. contradiction. }
    unfold normalizar_linha. rewrite H1, H2, H3, H4. cbn [X Y set_X set_Y].
    split; apply escala_monotone.
  - intros p mn mx H1 H2 Hr.
    assert (Hpos : 0 < mx - mn) by (eapply Qlt_trans; [|exact Hr]; reflexivity).
    assert (Hne : ~ mx - mn == 0) by lra.
    set (g := grupo_de p df) in *.
    destruct (series_defined (map Y g)) as (y1 & y2 & H3 & H4).
    { intros E. apply map_eq_nil in E. rewrite E in H1. discriminate. }
    assert (Hrow : forall v, In v (map X g) ->
              exists r, In r (normalizar_coordenadas df) /\ paciente_id r = p /\
                        X r = escala mn mx v).
    { intros v Hv. apply in_map_iff in Hv. destruct Hv as (r & <- & Hin).
      assert (Hd : In r df /\ paciente_id r = p).
      { apply filter_In in Hin. destruct Hin as (Hin & Hs).
        apply String.eqb_eq in Hs. tauto. }
      destruct Hd as (Hd & Hp).
      exists (normalizar_linha g r). split; [|split].
      - rewrite normalizar_map. apply in_map_iff. exists r.
        split; [|exact Hd]. now rewrite Hp.
      - rewrite <- Hp. apply normalizar_linha_columns.
      - unfold normalizar_linha. now rewrite H1, H2, H3, H4. }
    assert (Hmin : In mn (map X g)).
    { destruct (map X g) as [|v l]; [discriminate|]. cbn in H1.
      injection H1 as <-. apply fold_Qmin_In. }
    assert (Hmax : In mx (map X g)).
    { destruct (map X g) as [|v l]; [discriminate|]. cbn in H2.
      injection H2 as <-. apply fold_Qmax_In. }
    apply Qltb_true in Hr. split.
    + destruct (Hrow mn Hmin) as (r & Hin & Hp & Hx). exists r.
      split; [exact Hin|]. split; [exact Hp|].
      rewrite Hx. unfold escala. rewrite Hr. field. exact Hne.
    + destruct (Hrow mx Hmax) as (r & Hin & Hp & Hx). exists r.
      split; [exact Hin|]. split; [exact Hp|].
      rewrite Hx. unfold escala. rewrite Hr. field. exact Hne.
Qed.

Lemma normalizar_crescente_e_sobre_witness :
  exists r, In r (normalizar_coordenadas two_subjects) /\
            paciente_id r = "p2"%string /\ X r == 1.
Proof.
  apply (proj2 (normalizar_crescente_e_sobre two_subjects) "p2"%string 0 5);
    reflexivity.
Defined.

(** ** Clean data are left as they are *)

Lemma sort_by_id {A : Type} (leb : A -> A -> bool) (l : list A) :
  sorted_by leb l -> sort_by leb l = l.
Proof.
  induction 1 as [|a l Hs IH Ha]; [reflexivity|].
  cbn [sort_by]. rewrite IH. destruct l as [|b l]; [reflexivity|].
  cbn [insert_by]. inversion Ha as [|? ? Hab _]; subst. now rewrite Hab.
Qed.

Lemma select_all_true {A : Type} (l : list A) (m : list bool) :
  length m = length l -> Forall (fun b => b = true) m -> select l m = l.
Proof.
  revert m. induction l as [|a l IH]; intros [|b m] Hlen Hall;
    try discriminate; [reflexivity|].
  rewrite select_cons. apply Forall_cons_iff in Hall. destruct Hall as (-> & Hall).
  f_equal. apply IH; [now injection Hlen | exact Hall].
Qed.

Lemma iqr_stage_filter (d : DataFrame) :
  iqr_stage d =
  filter (fun r => dentro_iqr (grupo_de (paciente_id r) d) X r &&
                   dentro_iqr (grupo_de (paciente_id r) d) Y r) d.
Proof.
  destruct (1 <? n_pacientes d)%nat eqn:E.
  - unfold iqr_stage. rewrite E. unfold groupby_apply.
    rewrite (align_pointwise d _ (fun q => dentro_iqr (grupo_de q d) X))
      by (intros q; apply iqr_mask_pointwise).
    rewrite (align_pointwise d _ (fun q => dentro_iqr (grupo_de q d) Y))
      by (intros q; apply iqr_mask_pointwise).
    apply (select_pointwise
             (fun r => dentro_iqr (grupo_de (paciente_id r) d) X r)
             (fun r => dentro_iqr (grupo_de (paciente_id r) d) Y r)).
  - rewrite (iqr_stage_single d E), iqr_grupo_filter.
    apply filter_ext_in. intros r Hr.
    rewrite (grupo_de_all (paciente_id r) d); [reflexivity|].
    intros r' Hr'. now apply (n_pacientes_single d E).
Qed.

Lemma diff_from_strict (g : list Q) :
  forall prev, Forall (fun v => prev < v) g -> StronglySorted Qlt g ->
  Forall (fun o => dt_keep o = true) (diff_from prev g).
Proof.
  induction g as [|b g IH]; intros prev Hp Hs; [constructor|].
  cbn [diff_from]. apply Forall_cons_iff in Hp. destruct Hp as (Hb & _).
  inversion Hs as [|? ? Hs' Hall]; subst. constructor.
  - cbn [dt_keep]. apply negb_true_iff.
    destruct (Qeq_bool (b - prev) 0) eqn:E; [|reflexivity].
    apply Qeq_bool_iff in E. lra.
  - now apply IH.
Qed.

Lemma diff_strict (g : DataFrame) :
  StronglySorted (fun a b => t_sec a < t_sec b) g ->
  Forall (fun b => b = true) (map dt_keep (diff (map t_sec g))).
Proof.
  intros Hs. rewrite Forall_map.
  assert (S' : StronglySorted Qlt (map t_sec g)).
  { induction Hs as [|a g Hs IH Ha]; [constructor|]. cbn [map].
    constructor; [exact IH|]. now rewrite Forall_map. }
  destruct (map t_sec g) as [|a l]; [constructor|].
  cbn [diff]. constructor; [reflexivity|].
  inversion S'; subst. now apply diff_from_strict.
Qed.

Lemma dup_stage_id (d : DataFrame) :
  (forall p, StronglySorted (fun a b => t_sec a < t_sec b) (grupo_de p d)) ->
  dup_stage d = d.
Proof.
  intros H. unfold dup_stage. destruct (1 <? n_pacientes d)%nat eqn:E.
  - unfold groupby_apply.
    set (res := fun q => diff (map t_sec (grupo_de q d))).
    destruct (align_combine d res EmptyString) as (L & _).
    { intros q. unfold res. now rewrite diff_length, length_map. }
    apply select_all_true; [now rewrite length_map|].
    rewrite Forall_map, Forall_forall. intros o Ho.
    apply align_In in Ho. destruct Ho as (q & Ho).
    pose proof (diff_strict (grupo_de q d) (H q)) as F.
    rewrite Forall_map, Forall_forall in F. now apply F.
  - apply select_all_true; [now rewrite length_map, diff_length, length_map|].
    destruct d as [|x d]; [constructor|].
    rewrite <- (grupo_de_all (paciente_id x) (x :: d)) at 1.
    + apply diff_strict, H.
    + intros r Hr. apply (n_pacientes_single _ E); [exact Hr | now left].
Qed.

Lemma dentro_iqr_true (g : DataFrame) (col : Sample -> Q) (r : Sample) :
  g <> [] ->
  (forall q1 q3,
     percentile (map col g) 25 = Some q1 -> percentile (map col g) 75 = Some q3 ->
     q1 - (3 # 2) * (q3 - q1) <= col r <= q3 + (3 # 2) * (q3 - q1)) ->
  dentro_iqr g col r = true.
Proof.
  intros Hne H. unfold dentro_iqr.
  destruct (map col g) as [|v l] eqn:E.
  { apply map_eq_nil in E. contradiction. }
  cbn [percentile] in *.
  specialize (H _ _ eq_refl eq_refl). destruct H as (H1 & H2).
  apply andb_true_iff. split; now apply Qle_bool_iff.
Qed.

(** A table with no dropout, already ordered by subject and time, with
    every coordinate inside the IQR bounds of its subject and strictly
    increasing times within each subject comes out of the cleaning filter
    unchanged. *)
Theorem limpar_dados_limpos_inalterados (df : DataFrame) :
  Forall (fun r => ~ (X r == 0 /\ Y r == 0)) df ->
  sorted_by pid_t_leb df ->
  (forall r q1 q3, In r df ->
     percentile (map X (grupo_de (paciente_id r) df)) 25 = Some q1 ->
     percentile (map X (grupo_de (paciente_id r) df)) 75 = Some q3 ->
     q1 - (3 # 2) * (q3 - q1) <= X r <= q3 + (3 # 2) * (q3 - q1)) ->
  (forall r q1 q3, In r df ->
     percentile (map Y (grupo_de (paciente_id r) df)) 25 = Some q1 ->
     percentile (map Y (grupo_de (paciente_id r) df)) 75 = Some q3 ->
     q1 - (3 # 2) * (q3 - q1) <= Y r <= q3 + (3 # 2) * (q3 - q1)) ->
  (forall p, StronglySorted (fun a b => t_sec a < t_sec b) (grupo_de p df)) ->
  limpar_e_outliers df = df.
Proof.
  intros Hnz Hs Hx Hy Ht. rewrite limpar_e_outliers_stages.
  assert (F : filter nao_nulo df = df).
  { apply forallb_filter_id. apply forallb_forall. intros r Hr.
    rewrite Forall_forall in Hnz. apply nao_nulo_true. now apply Hnz. }
  rewrite F, (sort_by_id pid_t_leb df Hs).
  assert (I : iqr_stage df = df).
  { rewrite iqr_stage_filter. apply forallb_filter_id. apply forallb_forall.
    intros r Hr.
    assert (Hg : grupo_de (paciente_id r) df <> []).
    { intros E. pose proof (In_grupo_de r df Hr) as G. now rewrite E in G. }
    apply andb_true_iff. split.
    - apply dentro_iqr_true; [exact Hg | intros q1 q3; now apply Hx].
    - apply dentro_iqr_true; [exact Hg | intros q1 q3; now apply Hy]. }
  rewrite I. now apply dup_stage_id.
Qed.

Lemma limpar_dados_limpos_inalterados_witness :
  limpar_e_outliers tabela_limpa = tabela_limpa.
Proof.
  apply (limpar_dados_limpos_inalterados tabela_limpa).
  - repeat constructor; intros (H & _); discriminate.
  - repeat constructor.
  - intros r q1 q3 Hr. destruct Hr as [<-|[<-|[<-|[]]]];
      intros [= <-] [= <-]; split; vm_compute; discriminate.
  - intros r q1 q3 Hr. destruct Hr as [<-|[<-|[<-|[]]]];
      intros [= <-] [= <-]; split; vm_compute; discriminate.
  - intros p. unfold grupo_de, tabela_limpa. cbn [filter].
    unfold same_pid, amostra. cbn [paciente_id].
    destruct (String.eqb "p1" p); repeat constructor.
Defined.

(** ** The rows of the inter-group table *)

Lemma string_leb_total (a b : string) : String.leb a b = true \/ String.leb b a = true.
Proof. apply String.leb_total. Qed.

Lemma string_compare_refl (a : string) : String.compare a a = Eq.
Proof. apply (proj2 (String_as_OT.cmp_eq a a)). reflexivity. Qed.

Lemma string_compare_trans_le (a b c : string) :
  String.compare a b <> Gt -> String.compare b c <> Gt -> String.compare a c <> Gt.
Proof.
  intros H1 H2.
  destruct (String.compare a b) eqn:E1; [| |congruence];
    destruct (String.compare b c) eqn:E2; try congruence.
  - apply String.compare_eq_iff in E1. apply String.compare_eq_iff in E2.
    subst. rewrite string_compare_refl. discriminate.
  - apply String.compare_eq_iff in E1. subst. rewrite E2. discriminate.
  - apply String.compare_eq_iff in E2. subst. rewrite E1. discriminate.
  - rewrite (string_compare_lt_trans _ _ _ E1 E2). discriminate.
Qed.

Lemma string_leb_trans (a b c : string) :
  String.leb a b = true -> String.leb b c = true -> String.leb a c = true.
Proof.
  unfold String.leb. intros H1 H2.
  assert (N : String.compare a c <> Gt).
  { apply (string_compare_trans_le a b c).
    - destruct (String.compare a b); congruence.
    - destruct (String.compare b c); congruence. }
  destruct (String.compare a c); congruence.
Qed.

Lemma stat_leb_total (a b : Stat.t) : stat_leb a b = true \/ stat_leb b a = true.
Proof.
  unfold stat_leb.
  rewrite (String.compare_antisym (Stat.Stimuli a) (Stat.Stimuli b)).
  destruct (String.compare (Stat.Stimuli b) (Stat.Stimuli a)); cbn [CompOpp]; auto.
  apply String.leb_total.
Qed.

Lemma stat_leb_trans (a b c : Stat.t) :
  stat_leb a b = true -> stat_leb b c = true -> stat_leb a c = true.
Proof.
  unfold stat_leb.
  destruct (String.compare (Stat.Stimuli a) (Stat.Stimuli b)) eqn:E1;
    try discriminate;
    destruct (String.compare (Stat.Stimuli b) (Stat.Stimuli c)) eqn:E2;
    try discriminate.
  - apply String.compare_eq_iff in E1. apply String.compare_eq_iff in E2.
    rewrite E1, E2, string_compare_refl. apply string_leb_trans.
  - apply String.compare_eq_iff in E1. rewrite E1, E2. reflexivity.
  - apply String.compare_eq_iff in E2. rewrite <- E2, E1. reflexivity.
  - now rewrite (string_compare_lt_trans _ _ _ E1 E2).
Qed.

Section InterGroupRows.
Variable np_sqrt : Q -> Q.
Variable SCIPY_OK : bool.
Variable mannwhitneyu : list Q -> list Q -> option (Q * Q).

(** What a row appended by the inner loop looks like. *)
Lemma linha_inv (stim : string) (ctrl afa : list MetRow)
    (m : string * (Metrics -> option Q)) (row : Stat.t) :
  In row (linha np_sqrt SCIPY_OK mannwhitneyu stim
            (filter (fun r => String.eqb (met_Stimuli r) stim) ctrl)
            (filter (fun r => String.eqb (met_Stimuli r) stim) afa) m) ->
  Stat.Stimuli row = stim /\ Stat.Metrica row = fst m /\
  (valores m stim ctrl <> [] \/ valores m stim afa <> []) /\
  (Stat.Controle_media row = None <-> valores m stim ctrl = []) /\
  (Stat.Afasico_media row = None <-> valores m stim afa = []) /\
  (Stat.Controle_desvio row = None <-> (length (valores m stim ctrl) <= 1)%nat) /\
  (Stat.Afasico_desvio row = None <-> (length (valores m stim afa) <= 1)%nat) /\
  ((Stat.MannWhitney_U row <> None \/ Stat.p_value row <> None) ->
   SCIPY_OK = true /\ valores m stim ctrl <> [] /\ valores m stim afa <> [] /\
   mannwhitneyu (valores m stim ctrl) (valores m stim afa) <> None).
Proof.
  unfold linha. fold (valores m stim ctrl). fold (valores m stim afa).
  destruct (valores m stim ctrl) as [|c vc] eqn:Ec;
    destruct (valores m stim afa) as [|a va] eqn:Ea;
    cbn [is_empty andb]; [intros [] | | |];
    intros [<-|[]]; cbn [Stat.Stimuli Stat.Metrica Stat.Controle_media
      Stat.Afasico_media Stat.Controle_desvio Stat.Afasico_desvio
      Stat.MannWhitney_U Stat.p_value length Nat.ltb Nat.leb].
  - rewrite !andb_false_r. destruct va; cbn;
      repeat split; intros; try discriminate; try lia; try congruence;
      try (right; discriminate); intuition congruence.
  - rewrite !andb_false_r. destruct vc; cbn;
      repeat split; intros; try discriminate; try lia; try congruence;
      try (left; discriminate); intuition congruence.
  - destruct SCIPY_OK;
      destruct (mannwhitneyu (c :: vc) (a :: va)) as [[u p]|];
      destruct vc; destruct va; cbn;
      repeat split; intros; try discriminate; try lia; try congruence;
      try (left; discriminate); intuition congruence.
Qed.

Lemma estatisticas_In_inv (ctrl afa : list MetRow) (row : Stat.t) :
  In row (estatisticas_inter_grupo np_sqrt SCIPY_OK mannwhitneyu ctrl afa) ->
  exists stim m,
    In m METRICAS_COMPARAR /\
    In row (linha np_sqrt SCIPY_OK mannwhitneyu stim
              (filter (fun r => String.eqb (met_Stimuli r) stim) ctrl)
              (filter (fun r => String.eqb (met_Stimuli r) stim) afa) m).
Proof.
  unfold estatisticas_inter_grupo.
  destruct (is_empty ctrl && is_empty afa); [intros []|].
  intros H. apply sort_by_In in H. apply in_flat_map in H.
  destruct H as (stim & _ & H). apply in_flat_map in H.
  destruct H as (m & Hm & H). eauto.
Qed.

End InterGroupRows.

Section InterGroupTheorems.
Variable np_sqrt : Q -> Q.
Variable SCIPY_OK : bool.
Variable mannwhitneyu : list Q -> list Q -> option (Q * Q).

(** A row carries a rank statistic or a p-value only if SciPy is there,
    both groups have a value for the stimulus and metric of the row, and
    the rank test did not raise on them.  So without SciPy, or with a rank
    test that always raises, every row has both fields undefined. *)
Theorem teste_de_postos_so_com_dois_grupos (ctrl afa : list MetRow) :
  (forall row,
     In row (estatisticas_inter_grupo np_sqrt SCIPY_OK mannwhitneyu ctrl afa) ->
     Stat.MannWhitney_U row <> None \/ Stat.p_value row <> None ->
     SCIPY_OK = true /\
     exists m,
       In m METRICAS_COMPARAR /\ Stat.Metrica row = fst m /\
       valores m (Stat.Stimuli row) ctrl <> [] /\
       valores m (Stat.Stimuli row) afa <> [] /\
       mannwhitneyu (valores m (Stat.Stimuli row) ctrl)
         (valores m (Stat.Stimuli row) afa) <> None) /\
  (SCIPY_OK = false \/ (forall a b, mannwhitneyu a b = None) ->
   Forall (fun row => Stat.MannWhitney_U row = None /\ Stat.p_value row = None)
     (estatisticas_inter_grupo np_sqrt SCIPY_OK mannwhitneyu ctrl afa)).
Proof.
  assert (A : forall row,
     In row (estatisticas_inter_grupo np_sqrt SCIPY_OK mannwhitneyu ctrl afa) ->
     Stat.MannWhitney_U row <> None \/ Stat.p_value row <> None ->
     SCIPY_OK = true /\
     exists m,
       In m METRICAS_COMPARAR /\ Stat.Metrica row = fst m /\
       valores m (Stat.Stimuli row) ctrl <> [] /\
       valores m (Stat.Stimuli row) afa <> [] /\
       mannwhitneyu (valores m (Stat.Stimuli row) ctrl)
         (valores m (Stat.Stimuli row) afa) <> None).
  { intros row Hrow Hup.
    destruct (estatisticas_In_inv _ _ _ _ _ _ Hrow) as (stim & m & Hm & Hl).
    destruct (linha_inv _ _ _ _ _ _ _ _ Hl) as (Hs & Hn & _ & _ & _ & _ & _ & H).
    destruct (H Hup) as (S1 & S2 & S3 & S4). rewrite Hs.
    split; [exact S1|]. exists m. repeat split; assumption. }
  split; [exact A|].
  intros Hoff. rewrite Forall_forall. intros row Hrow.
  destruct (Stat.MannWhitney_U row) as [u|] eqn:U;
    destruct (Stat.p_value row) as [p|] eqn:P; try (split; reflexivity);
    exfalso;
    (destruct (A row Hrow) as (S1 & m & _ & _ & _ & _ & S4);
     [rewrite ?U, ?P; first [left; discriminate | right; discriminate]
     |destruct Hoff as [Hoff|Hoff]; [congruence | now apply S4]]).
Qed.

(** The table has a row for a stimulus and a compared metric exactly
    when at least one group has a non-missing value for them; in a row a
    mean is undefined exactly when its group has no value, a standard
    deviation exactly when its group has at most one; and the rows come
    out ordered by stimulus and then by metric name. *)
Theorem linhas_da_tabela_inter_grupo (ctrl afa : list MetRow) :
  sorted_by stat_leb
    (estatisticas_inter_grupo np_sqrt SCIPY_OK mannwhitneyu ctrl afa) /\
  (forall row,
     In row (estatisticas_inter_grupo np_sqrt SCIPY_OK mannwhitneyu ctrl afa) ->
     exists m,
       In m METRICAS_COMPARAR /\ Stat.Metrica row = fst m /\
       (valores m (Stat.Stimuli row) ctrl <> [] \/
        valores m (Stat.Stimuli row) afa <> []) /\
       (Stat.Controle_media row = None <->
        valores m (Stat.Stimuli row) ctrl = []) /\
       (Stat.Afasico_media row = None <->
        valores m (Stat.Stimuli row) afa = []) /\
       (Stat.Controle_desvio row = None <->
        (length (valores m (Stat.Stimuli row) ctrl) <= 1)%nat) /\
       (Stat.Afasico_desvio row = None <->
        (length (valores m (Stat.Stimuli row) afa) <= 1)%nat)) /\
  (forall stim m,
     In m METRICAS_COMPARAR ->
     valores m stim ctrl <> [] \/ valores m stim afa <> [] ->
     exists row,
       In row (estatisticas_inter_grupo np_sqrt SCIPY_OK mannwhitneyu ctrl afa) /\
       Stat.Stimuli row = stim /\ Stat.Metrica row = fst m).
Proof.
  split; [|split].
  - unfold estatisticas_inter_grupo.
    destruct (is_empty ctrl && is_empty afa); [constructor|].
    apply sort_by_sorted; [exact stat_leb_total | exact stat_leb_trans].
  - intros row Hrow.
    destruct (estatisticas_In_inv _ _ _ _ _ _ Hrow) as (stim & m & Hm & Hl).
    destruct (linha_inv _ _ _ _ _ _ _ _ Hl)
      as (Hs & Hn & H1 & H2 & H3 & H4 & H5 & _).
    rewrite Hs. exists m. repeat split; try assumption; tauto.
  - intros stim m Hm Hv.
    assert (Hs : In stim (map met_Stimuli ctrl ++ map met_Stimuli afa)).
    { apply in_or_app. destruct Hv as [Hv|Hv]; [left | right];
        eapply valores_stim; eauto. }
    destruct (linha np_sqrt SCIPY_OK mannwhitneyu stim
                (filter (fun r => String.eqb (met_Stimuli r) stim) ctrl)
                (filter (fun r => String.eqb (met_Stimuli r) stim) afa) m)
      as [|row rest] eqn:E.
    + exfalso. unfold linha in E.
      fold (valores m stim ctrl) in E. fold (valores m stim afa) in E.
      destruct (valores m stim ctrl), (valores m stim afa);
        cbn [is_empty andb] in E; try discriminate.
      destruct Hv; congruence.
    + assert (Hl : In row (linha np_sqrt SCIPY_OK mannwhitneyu stim
                (filter (fun r => String.eqb (met_Stimuli r) stim) ctrl)
                (filter (fun r => String.eqb (met_Stimuli r) stim) afa) m))
        by (rewrite E; now left).
      exists row. split.
      * now apply (linha_In np_sqrt SCIPY_OK mannwhitneyu ctrl afa stim m).
      * destruct (linha_inv _ _ _ _ _ _ _ _ Hl) as (H1 & H2 & _). tauto.
Qed.

End InterGroupTheorems.

Lemma teste_de_postos_so_com_dois_grupos_witness :
  Forall (fun row => Stat.MannWhitney_U row = None /\ Stat.p_value row = None)
    (estatisticas_inter_grupo sqrt_approx false (fun _ _ => Some (1, 1 # 2))
       mets_um_paciente mets_um_paciente).
Proof.
  apply (teste_de_postos_so_com_dois_grupos sqrt_approx false
           (fun _ _ => Some (1, 1 # 2)) mets_um_paciente mets_um_paciente).
  left. reflexivity.
Defined.

Lemma linhas_da_tabela_inter_grupo_witness :
  exists row,
    In row (estatisticas_inter_grupo sqrt_approx true (fun _ _ => None)
              mets_um_paciente []) /\
    Stat.Stimuli row = "trog1.png"%string /\
    Stat.Metrica row = "dispersao_area"%string.
Proof.
  apply (proj2 (proj2 (linhas_da_tabela_inter_grupo sqrt_approx true
                         (fun _ _ => None) mets_um_paciente []))
           "trog1.png"%string
           ("dispersao_area"%string, fun m => Some (dispersao_area m))).
  - repeat (first [left; reflexivity | right]).
  - left. discriminate.
Defined.

(** ** Rounding *)

Lemma round_half_even_bound (q : Q) :
  q - (1 # 2) <= inject_Z (round_half_even q) <= q + (1 # 2).
Proof.
  unfold round_half_even.
  pose proof (Qfloor_le q) as L. pose proof (Qlt_floor q) as U.
  assert (P1 : inject_Z (Qfloor q + 1) == inject_Z (Qfloor q) + 1)
    by (rewrite inject_Z_plus; reflexivity).
  rewrite P1 in U.
  assert (G : forall f : Q,
             f <= q -> q < f + 1 ->
             (q - f == 1 # 2 -> q - (1 # 2) <= f <= q + (1 # 2)) /\
             (q - f == 1 # 2 -> q - (1 # 2) <= f + 1 <= q + (1 # 2)) /\
             (q - f < 1 # 2 -> q - (1 # 2) <= f <= q + (1 # 2)) /\
             (1 # 2 < q - f -> q - (1 # 2) <= f + 1 <= q + (1 # 2))).
  { intros f Lf Uf. repeat split; lra. }
  destruct (G (inject_Z (Qfloor q)) L U) as (G1 & G2 & G3 & G4).
  destruct (Qcompare (q - inject_Z (Qfloor q)) (1 # 2)) eqn:C.
  - apply Qeq_alt in C. destruct (Z.even (Qfloor q)); rewrite ?P1; auto.
  - apply Qlt_alt in C. auto.
  - apply Qgt_alt in C. rewrite P1. auto.
Qed.

Lemma scale_pos (n : nat) : 0 < inject_Z (10 ^ Z.of_nat n).
Proof.
  change 0 with (inject_Z 0). rewrite <- Zlt_Qlt. apply Z.pow_pos_nonneg; lia.
Qed.

(** [round(x, n)] is within half a unit of the [n]-th decimal of [x]. *)
Lemma py_round_bound (q : Q) (n : nat) :
  q - (1 # 2) / inject_Z (10 ^ Z.of_nat n) <= py_round q n /\
  py_round q n <= q + (1 # 2) / inject_Z (10 ^ Z.of_nat n).
Proof.
  unfold py_round. pose proof (scale_pos n) as Hs.
  set (s := inject_Z (10 ^ Z.of_nat n)) in *.
  destruct (round_half_even_bound (q * s)) as (L & U).
  assert (Hne : ~ s == 0) by lra.
  split.
  - apply Qle_shift_div_l; [exact Hs|].
    setoid_replace ((q - (1 # 2) / s) * s) with (q * s - (1 # 2)) by (field; exact Hne).
    exact L.
  - apply Qle_shift_div_r; [exact Hs|].
    setoid_replace ((q + (1 # 2) / s) * s) with (q * s + (1 # 2)) by (field; exact Hne).
    exact U.
Qed.

(** Rounding keeps a value of the unit interval in the unit interval. *)
Lemma py_round_unit (q : Q) (n : nat) : 0 <= q <= 1 -> 0 <= py_round q n <= 1.
Proof.
  intros (H0 & H1). unfold py_round. pose proof (scale_pos n) as Hs.
  set (sz := (10 ^ Z.of_nat n)%Z) in *. set (s := inject_Z sz) in *.
  assert (Hq0 : 0 <= q * s) by (apply Qmult_le_0_compat; lra).
  assert (Hq1 : q * s <= s).
  { setoid_replace s with (1 * s) at 2 by ring.
    apply Qmult_le_compat_r; lra. }
  assert (F0 : (0 <= Qfloor (q * s))%Z).
  { change 0%Z with (Qfloor 0). now apply Qfloor_resp_le. }
  assert (F1 : (Qfloor (q * s) <= sz)%Z).
  { rewrite <- (Qfloor_Z sz). now apply Qfloor_resp_le. }
  assert (R : (0 <= round_half_even (q * s) <= sz)%Z).
  { unfold round_half_even.
    destruct (Z.eq_dec (Qfloor (q * s)) sz) as [E|N].
    - assert (Hf : inject_Z sz <= q * s) by (rewrite <- E; apply Qfloor_le).
      fold s in Hf.
      assert (C : Qcompare (q * s - inject_Z (Qfloor (q * s))) (1 # 2) = Lt).
      { apply Qlt_alt. rewrite E. fold s.
        assert (G : forall x y : Q, x <= y -> x - y < 1 # 2) by (intros; lra).
        now apply G. }
      rewrite C. lia.
    - destruct (Qcompare (q * s - inject_Z (Qfloor (q * s))) (1 # 2));
        try destruct (Z.even (Qfloor (q * s))); lia. }
  destruct R as (R0 & R1). split.
  - apply Qle_shift_div_l; [exact Hs|]. rewrite Qmult_0_l.
    change 0 with (inject_Z 0). now rewrite <- Zle_Qle.
  - apply Qle_shift_div_r; [exact Hs|]. rewrite Qmult_1_l.
    unfold s. now rewrite <- Zle_Qle.
Qed.

Section RoundedMetrics.
Variable np_sqrt : Q -> Q.

(** For a trial with a non-empty exploration window, the dispersion
    reported is within 0.0000005 of the bounding-box area of the window,
    the threshold reported within 0.00005 of the threshold used by the
    classifier, and the response time reported within 0.0005 of the
    response time of the extractor. *)
Theorem metricas_arredondadas (df : DataFrame) :
  jan_explore (janela_exploracao df) <> [] ->
  (dispersao_area_bb (jan_explore (janela_exploracao df)) - (1 # 2000000)
     <= dispersao_area (metricas_paciente_por_estimulo np_sqrt df)
     <= dispersao_area_bb (jan_explore (janela_exploracao df)) + (1 # 2000000)) /\
  (exists v,
     limiar_vt (metricas_paciente_por_estimulo np_sqrt df) = Some v /\
     snd (rotular_ivt np_sqrt (jan_explore (janela_exploracao df))) - (1 # 20000)
       <= v
       <= snd (rotular_ivt np_sqrt (jan_explore (janela_exploracao df)))
          + (1 # 20000)) /\
  (exists t v,
     jan_tempo_resposta (janela_exploracao df) = Some t /\
     tempo_resposta_s (metricas_paciente_por_estimulo np_sqrt df) = Some v /\
     t - (1 # 2000) <= v <= t + (1 # 2000)).
Proof.
  intros H. rewrite (metricas_janela_cheia np_sqrt df H).
  cbn [dispersao_area limiar_vt tempo_resposta_s].
  split; [|split].
  - destruct (py_round_bound
                (dispersao_area_bb (jan_explore (janela_exploracao df))) 6)
      as (L & U).
    split; [eapply Qle_trans; [|exact L] | eapply Qle_trans; [exact U|]];
      apply Qplus_le_r; discriminate.
  - eexists. split; [reflexivity|].
    destruct (py_round_bound
                (snd (rotular_ivt np_sqrt (jan_explore (janela_exploracao df)))) 4)
      as (L & U).
    split; [eapply Qle_trans; [|exact L] | eapply Qle_trans; [exact U|]];
      apply Qplus_le_r; discriminate.
  - assert (Hne : df <> []) by (intros ->; now apply H).
    destruct (janela_exploracao_cases df Hne) as (r0 & _ & C).
    assert (T : exists t, jan_tempo_resposta (janela_exploracao df) = Some t).
    { destruct C as [(k & r & _ & _ & ->)|(_ & ->)]; eexists; reflexivity. }
    destruct T as (t & ->). exists t. eexists.
    split; [reflexivity|]. split; [reflexivity|].
    destruct (py_round_bound t 3) as (L & U).
    split; [eapply Qle_trans; [|exact L] | eapply Qle_trans; [exact U|]];
      apply Qplus_le_r; discriminate.
Qed.

End RoundedMetrics.

Lemma metricas_arredondadas_witness :
  dispersao_area_bb (jan_explore (janela_exploracao scenario)) - (1 # 2000000)
    <= dispersao_area (metricas_paciente_por_estimulo sqrt_approx scenario)
    <= dispersao_area_bb (jan_explore (janela_exploracao scenario)) + (1 # 2000000).
Proof.
  apply (metricas_arredondadas sqrt_approx scenario). vm_compute. discriminate.
Defined.

(** ** The tables of a group *)

Lemma py_round_nonneg (q : Q) (n : nat) : 0 <= q -> 0 <= py_round q n.
Proof.
  intros Hq. unfold py_round. pose proof (scale_pos n) as Hs.
  apply Qle_shift_div_l; [exact Hs|]. rewrite Qmult_0_l.
  change 0 with (inject_Z 0). rewrite <- Zle_Qle.
  unfold round_half_even.
  assert (Hf : (0 <= Qfloor (q * inject_Z (10 ^ Z.of_nat n)))%Z).
  { change 0%Z with (Qfloor 0). apply Qfloor_resp_le.
    apply Qmult_le_0_compat; [exact Hq | now apply Qlt_le_weak]. }
  destruct (Qcompare _ _); try destruct (Z.even _); lia.
Qed.

Lemma normalizar_unit (df : DataFrame) (r : Sample) :
  In r (normalizar_coordenadas df) -> unit_coords r.
Proof.
  intros Hr. apply In_grupo_de in Hr. rewrite grupo_de_normalizar in Hr.
  apply (normalizar_grupo_unit (grupo_de (paciente_id r) df)); [|exact Hr].
  intros E. rewrite E in Hr. exact Hr.
Qed.

Lemma janela_explore_incl (df : DataFrame) :
  incl (jan_explore (janela_exploracao df)) df.
Proof.
  destruct df as [|x df]; [intros r []|].
  destruct (janela_exploracao_cases (x :: df)) as (r0 & _ & C); [discriminate|].
  destruct C as [(k & r & _ & _ & ->)|(_ & ->)]; unfold jan_explore; cbn [fst];
    intros y Hy; apply filter_In in Hy; destruct Hy as (Hy & _).
  - apply (sort_by_In t_leb). now apply (firstn_incl k).
  - now apply (sort_by_In t_leb).
Qed.

Lemma janela_tempo_definido (df : DataFrame) :
  df <> [] ->
  exists t, jan_tempo_resposta (janela_exploracao df) = Some t /\ 0 <= t.
Proof.
  intros Hne. destruct (janela_exploracao_cases df Hne) as (r0 & Hhd & C).
  pose proof (sort_values_t_sorted df) as Hs.
  destruct C as [(k & r & Hk & _ & ->)|(_ & ->)];
    unfold jan_tempo_resposta; cbn [fst snd]; eexists; (split; [reflexivity|]).
  - assert (t_sec r0 <= t_sec r).
    { apply (sorted_hd_le (sort_values_t df)); auto. eapply nth_error_In; eauto. }
    lra.
  - assert (t_sec r0 <= t_sec (last (sort_values_t df) r0)).
    { apply (sorted_hd_le (sort_values_t df)); auto. apply last_In.
      intros E. rewrite E in Hhd. discriminate. }
    lra.
Qed.

Section GroupFacts.
Variable np_sqrt : Q -> Q.

Lemma metricas_tempo (df : DataFrame) :
  tempo_resposta_s (metricas_paciente_por_estimulo np_sqrt df) =
  option_map (fun t => py_round t 3) (jan_tempo_resposta (janela_exploracao df)).
Proof.
  unfold metricas_paciente_por_estimulo.
  destruct df as [|x df]; [reflexivity|].
  destruct (janela_exploracao (x :: df)) as [[[[e t0] tr] tt] resp].
  unfold jan_tempo_resposta. cbn [fst snd].
  destruct e as [|y e]; [reflexivity|].
  destruct (rotular_ivt np_sqrt (y :: e)); reflexivity.
Qed.

Lemma metricas_tempo_definido (df : DataFrame) :
  df <> [] ->
  exists v, tempo_resposta_s (metricas_paciente_por_estimulo np_sqrt df) = Some v /\
            0 <= v.
Proof.
  intros Hne. rewrite metricas_tempo.
  destruct (janela_tempo_definido df Hne) as (t & -> & Ht).
  cbn [option_map]. eexists. split; [reflexivity|]. now apply py_round_nonneg.
Qed.

Lemma metricas_dispersao (df : DataFrame) :
  dispersao_area (metricas_paciente_por_estimulo np_sqrt df) = 0 \/
  dispersao_area (metricas_paciente_por_estimulo np_sqrt df) =
  py_round (dispersao_area_bb (jan_explore (janela_exploracao df))) 6.
Proof.
  unfold metricas_paciente_por_estimulo.
  destruct df as [|x df]; [now left|].
  destruct (janela_exploracao (x :: df)) as [[[[e t0] tr] tt] resp].
  unfold jan_explore. cbn [fst].
  destruct e as [|y e]; [now left|].
  destruct (rotular_ivt np_sqrt (y :: e)). now right.
Qed.

(** The rows built by the loops of lines 764-796. *)
Lemma segmentado_In_inv (df : DataFrame) (grupo : string) (row : MetRow) :
  In row (snd (processar_grupo_segmentado np_sqrt df grupo)) ->
  In (met_paciente_id row)
     (map paciente_id
        (filter (fun r => String.eqb (Stimuli r) (met_Stimuli row))
           (normalizar_coordenadas df))) /\
  met_grupo row = grupo /\
  met row =
  metricas_paciente_por_estimulo np_sqrt
    (filter (fun r => String.eqb (paciente_id r) (met_paciente_id row))
       (filter (fun r => String.eqb (Stimuli r) (met_Stimuli row))
          (normalizar_coordenadas df))).
Proof.
  unfold processar_grupo_segmentado.
  destruct (is_empty df); [intros []|]. cbn [snd].
  intros H. apply sort_by_In in H. apply in_flat_map in H.
  destruct H as (stim & _ & H). apply in_map_iff in H.
  destruct H as (pid & <- & Hpid). cbn [met_paciente_id met_Stimuli met_grupo met].
  apply (proj1 (unique_by_In_iff String.eqb String.eqb_eq _ _)) in Hpid.
  repeat split. exact Hpid.
Qed.

(** In the metric table of a group every row belongs to a subject and a
    stimulus that occur together in the data and carries the group name;
    its response time is defined and not negative; and, the coordinates
    having been normalised first, its dispersion lies in [0,1]. *)
Theorem tabela_do_grupo_linhas (df : DataFrame) (grupo : string) (row : MetRow) :
  In row (snd (processar_grupo_segmentado np_sqrt df grupo)) ->
  (exists r, In r df /\ Stimuli r = met_Stimuli row /\
             paciente_id r = met_paciente_id row) /\
  met_grupo row = grupo /\
  (exists v, tempo_resposta_s (met row) = Some v /\ 0 <= v) /\
  0 <= dispersao_area (met row) <= 1.
Proof.
  intros H. destruct (segmentado_In_inv df grupo row H) as (Hpid & Hg & Hm).
  apply in_map_iff in Hpid. destruct Hpid as (r' & Hp' & Hr').
  apply filter_In in Hr'. destruct Hr' as (Hn' & Hs').
  apply String.eqb_eq in Hs'.
  set (df_pac := filter (fun r => String.eqb (paciente_id r) (met_paciente_id row))
       (filter (fun r => String.eqb (Stimuli r) (met_Stimuli row))
          (normalizar_coordenadas df))) in *.
  assert (Hin : In r' df_pac).
  { unfold df_pac. apply filter_In. split.
    - apply filter_In. split; [exact Hn'|]. now apply String.eqb_eq.
    - now apply String.eqb_eq. }
  assert (Hne : df_pac <> []) by (intros E; rewrite E in Hin; exact Hin).
  split; [|split; [exact Hg|split]].
  - rewrite normalizar_map in Hn'. apply in_map_iff in Hn'.
    destruct Hn' as (r & <- & Hr). exists r. split; [exact Hr|].
    destruct (normalizar_linha_columns (grupo_de (paciente_id r) df) r)
      as (_ & _ & _ & E1 & E2 & _).
    rewrite <- Hs', <- Hp'. split; congruence.
  - rewrite Hm. now apply metricas_tempo_definido.
  - rewrite Hm. destruct (metricas_dispersao df_pac) as [->| ->].
    + split; discriminate.
    + apply py_round_unit. apply dispersao_unit. rewrite Forall_forall.
      intros y Hy. apply (normalizar_unit df).
      apply janela_explore_incl in Hy. unfold df_pac in Hy.
      apply filter_In in Hy. destruct Hy as (Hy & _).
      apply filter_In in Hy. tauto.
Qed.

End GroupFacts.

Lemma met_leb_total (a b : MetRow) : met_leb a b = true \/ met_leb b a = true.
Proof.
  unfold met_leb.
  rewrite (String.compare_antisym (met_Stimuli a) (met_Stimuli b)).
  destruct (String.compare (met_Stimuli b) (met_Stimuli a)); cbn [CompOpp]; auto.
  apply String.leb_total.
Qed.

Lemma met_leb_trans (a b c : MetRow) :
  met_leb a b = true -> met_leb b c = true -> met_leb a c = true.
Proof.
  unfold met_leb.
  destruct (String.compare (met_Stimuli a) (met_Stimuli b)) eqn:E1;
    try discriminate;
    destruct (String.compare (met_Stimuli b) (met_Stimuli c)) eqn:E2;
    try discriminate.
  - apply String.compare_eq_iff in E1. apply String.compare_eq_iff in E2.
    rewrite E1, E2, string_compare_refl. apply string_leb_trans.
  - apply String.compare_eq_iff in E1. rewrite E1, E2. reflexivity.
  - apply String.compare_eq_iff in E2. rewrite <- E2, E1. reflexivity.
  - now rewrite (string_compare_lt_trans _ _ _ E1 E2).
Qed.

Lemma NoDup_pairs {A B : Type} (f : A -> list B) (l : list A) :
  NoDup l -> (forall a, NoDup (f a)) ->
  NoDup (flat_map (fun a => map (pair a) (f a)) l).
Proof.
  intros Hl Hf. induction Hl as [|a l Hna Hnd IH]; [constructor|].
  cbn [flat_map]. apply NoDup_app.
  - assert (G : forall m : list B, NoDup m -> NoDup (map (pair a) m)).
    { induction 1 as [|b m Hb Hm IHm]; cbn [map]; constructor; auto.
      intros H. apply in_map_iff in H. destruct H as (b' & [= ->] & Hb').
      contradiction. }
    apply G, Hf.
  - exact IH.
  - intros [x y] H1 H2. apply in_map_iff in H1. destruct H1 as (b & [= <- <-] & _).
    apply in_flat_map in H2. destruct H2 as (a' & Ha' & H2).
    apply in_map_iff in H2. destruct H2 as (b' & [= -> _] & _). contradiction.
Qed.

Section GroupTableWhole.
Variable np_sqrt : Q -> Q.

(** The table returned with the metrics is the normalised table; the
    metric table has exactly one row for every pair of stimulus and
    subject that occur together in the data, ordered by stimulus and then
    by subject. *)
Theorem tabela_do_grupo_completa (df : DataFrame) (grupo : string) :
  fst (processar_grupo_segmentado np_sqrt df grupo) = normalizar_coordenadas df /\
  sorted_by met_leb (snd (processar_grupo_segmentado np_sqrt df grupo)) /\
  (forall r, In r df ->
     exists row,
       In row (snd (processar_grupo_segmentado np_sqrt df grupo)) /\
       met_Stimuli row = Stimuli r /\ met_paciente_id row = paciente_id r) /\
  NoDup (map (fun row => (met_Stimuli row, met_paciente_id row))
           (snd (processar_grupo_segmentado np_sqrt df grupo))).
Proof.
  unfold processar_grupo_segmentado.
  destruct df as [|x df]; cbn [is_empty fst snd].
  - repeat split; [constructor | intros r [] | constructor].
  - set (dfn := normalizar_coordenadas (x :: df)).
    split; [reflexivity|]. split; [|split].
    + apply sort_by_sorted; [exact met_leb_total | exact met_leb_trans].
    + intros r Hr.
      assert (Hn : In (normalizar_linha (grupo_de (paciente_id r) (x :: df)) r) dfn).
      { unfold dfn. rewrite normalizar_map. apply in_map_iff. now exists r. }
      destruct (normalizar_linha_columns (grupo_de (paciente_id r) (x :: df)) r)
        as (_ & _ & _ & E1 & E2 & _).
      set (r' := normalizar_linha (grupo_de (paciente_id r) (x :: df)) r) in *.
      exists (mkMetRow
                (metricas_paciente_por_estimulo np_sqrt
                   (filter (fun y => String.eqb (paciente_id y) (paciente_id r))
                      (filter (fun y => String.eqb (Stimuli y) (Stimuli r)) dfn)))
                (paciente_id r) grupo (Stimuli r)).
      split; [|split; reflexivity].
      apply sort_by_In. apply in_flat_map. exists (Stimuli r). split.
      * apply sort_by_In. apply (unique_by_In_iff String.eqb String.eqb_eq).
        rewrite <- E1. now apply in_map.
      * apply in_map_iff. exists (paciente_id r). split; [reflexivity|].
        apply (unique_by_In_iff String.eqb String.eqb_eq).
        rewrite <- E2. apply in_map. apply filter_In. split; [exact Hn|].
        rewrite E1. apply String.eqb_refl.
    + eapply Permutation_NoDup.
      * apply Permutation_map. apply sort_by_perm.
      * rewrite flat_map_concat_map, concat_map, map_map.
        rewrite <- flat_map_concat_map.
        erewrite flat_map_ext.
        2:{ intros stim. rewrite map_map. cbn [met_Stimuli met_paciente_id].
            reflexivity. }
        apply (NoDup_pairs
                 (fun stim => unique_by String.eqb
                    (map paciente_id
                       (filter (fun r => String.eqb (Stimuli r) stim) dfn)))).
        -- eapply Permutation_NoDup; [apply sort_by_perm|].
           apply unique_by_NoDup. exact String.eqb_eq.
        -- intros stim. apply unique_by_NoDup. exact String.eqb_eq.
Qed.

End GroupTableWhole.

(** ** The consolidated table *)

Lemma fold_acumular (ms : list Metrics) :
  forall acc,
    total_sac (fold_left acumular ms acc)
      = (total_sac acc + list_sum (map n_sacadas ms))%nat /\
    total_fix (fold_left acumular ms acc)
      = (total_fix acc + list_sum (map n_fixacoes ms))%nat /\
    ((forall m, In m ms -> tempo_resposta_s m <> None) ->
     n_estimulos (fold_left acumular ms acc) = (n_estimulos acc + length ms)%nat).
Proof.
  induction ms as [|m ms IH]; intros acc; cbn [fold_left map length].
  - change (list_sum []) with 0%nat.
    split; [lia|]. split; [lia|]. intros _. lia.
  - destruct (IH (acumular acc m)) as (H1 & H2 & H3).
    rewrite H1, H2, !list_sum_cons_eq. cbn [acumular total_sac total_fix].
    split; [lia|]. split; [lia|]. intros Hall.
    rewrite H3 by (intros m' Hm'; apply Hall; now right).
    cbn [acumular n_estimulos].
    destruct (tempo_resposta_s m) eqn:E; [lia|].
    exfalso. apply (Hall m); [now left | exact E].
Qed.

Section ConsolidatedFacts.
Variable np_sqrt : Q -> Q.

Lemma metricas_por_estimulo_tempo (df_pac : DataFrame) (m : Metrics) :
  In m (metricas_por_estimulo np_sqrt df_pac) -> tempo_resposta_s m <> None.
Proof.
  unfold metricas_por_estimulo. intros H. apply in_map_iff in H.
  destruct H as (stim & <- & Hs).
  apply (proj1 (unique_by_In_iff String.eqb String.eqb_eq _ _)) in Hs.
  apply in_map_iff in Hs. destruct Hs as (r & Hr & Hin).
  destruct (metricas_tempo_definido np_sqrt
              (filter (fun r => String.eqb (Stimuli r) stim) df_pac))
    as (v & -> & _); [|discriminate].
  intros E. assert (In r (filter (fun r => String.eqb (Stimuli r) stim) df_pac)).
  { apply filter_In. split; [exact Hin|]. now apply String.eqb_eq. }
  rewrite E in H. exact H.
Qed.

(** In the consolidated table every row is that of a subject of the
    data; its number of stimuli is the number of distinct stimuli of the
    subject and is at least one, so its mean response time is defined; its
    saccade and fixation totals are the sums of the per-stimulus counts;
    and its mean saccade (fixation) duration is undefined exactly when the
    subject has no saccade (no counted fixation) at all. *)
Theorem tabela_consolidada_linhas (df : DataFrame) (grupo : string)
    (row : Agrup.t) :
  In row (processar_grupo_agrupado np_sqrt df grupo) ->
  In (Agrup.paciente_id row) (map paciente_id df) /\
  Agrup.grupo row = grupo /\
  Agrup.n_estimulos row =
    length (unique_by String.eqb
              (map Stimuli
                 (filter (fun r => String.eqb (paciente_id r) (Agrup.paciente_id row))
                    df))) /\
  (1 <= Agrup.n_estimulos row)%nat /\
  Agrup.tempo_resposta_medio_s row <> None /\
  Agrup.total_sacadas row =
    list_sum (map n_sacadas
                (metricas_por_estimulo np_sqrt
                   (filter (fun r => String.eqb (paciente_id r) (Agrup.paciente_id row))
                      df))) /\
  Agrup.total_fixacoes row =
    list_sum (map n_fixacoes
                (metricas_por_estimulo np_sqrt
                   (filter (fun r => String.eqb (paciente_id r) (Agrup.paciente_id row))
                      df))) /\
  (Agrup.tempo_medio_sacada_s row = None <-> Agrup.total_sacadas row = 0%nat) /\
  (Agrup.duracao_media_fix_s row = None <-> Agrup.total_fixacoes row = 0%nat).
Proof.
  unfold processar_grupo_agrupado.
  destruct (is_empty df); [intros []|].
  intros H. apply sort_by_In in H. apply in_map_iff in H.
  destruct H as (pid & <- & Hpid).
  apply (proj1 (unique_by_In_iff String.eqb String.eqb_eq _ _)) in Hpid.
  set (df_pac := filter (fun r => String.eqb (paciente_id r) pid) df).
  set (ms := metricas_por_estimulo np_sqrt df_pac).
  destruct (fold_acumular ms (mkAcc 0 0 0 0 0 0 0)) as (H1 & H2 & H3).
  specialize (H3 (metricas_por_estimulo_tempo df_pac)).
  cbn [total_sac total_fix n_estimulos Nat.add] in H1, H2, H3.
  unfold linha_agrupada.
  cbn [Agrup.paciente_id Agrup.grupo Agrup.n_estimulos Agrup.total_sacadas
       Agrup.total_fixacoes Agrup.tempo_resposta_medio_s
       Agrup.tempo_medio_sacada_s Agrup.duracao_media_fix_s].
  fold df_pac. fold ms. rewrite H1, H2, H3.
  assert (Hlen : length ms =
                 length (unique_by String.eqb (map Stimuli df_pac)))
    by (unfold ms, metricas_por_estimulo; apply length_map).
  assert (Hpos : (1 <= length ms)%nat).
  { rewrite Hlen. apply in_map_iff in Hpid. destruct Hpid as (r & Hr & Hin).
    assert (Hs : In (Stimuli r) (unique_by String.eqb (map Stimuli df_pac))).
    { apply (unique_by_In_iff String.eqb String.eqb_eq). apply in_map.
      unfold df_pac. apply filter_In. split; [exact Hin|]. now apply String.eqb_eq. }
    destruct (unique_by String.eqb (map Stimuli df_pac)); [contradiction|].
    cbn. lia. }
  split; [exact Hpid|]. split; [reflexivity|]. split; [exact Hlen|].
  split; [exact Hpos|]. split.
  - destruct (length ms); [lia|]. discriminate.
  - split; [reflexivity|]. split; [reflexivity|]. split.
    + destruct (list_sum (map n_sacadas ms)); cbn; split; intros; try reflexivity;
        try discriminate.
    + destruct (list_sum (map n_fixacoes ms)); cbn; split; intros; try reflexivity;
        try discriminate.
Qed.

End ConsolidatedFacts.

Lemma tabela_do_grupo_linhas_witness :
  exists row,
    hd_error (snd (processar_grupo_segmentado sqrt_approx scenario "controle"))
      = Some row /\
    0 <= dispersao_area (met row) <= 1.
Proof.
  eexists. split; [vm_compute; reflexivity|].
  apply (tabela_do_grupo_linhas sqrt_approx scenario "controle").
  vm_compute. left. reflexivity.
Defined.

Lemma tabela_consolidada_linhas_witness :
  exists row,
    hd_error (processar_grupo_agrupado sqrt_approx scenario "controle") = Some row /\
    (1 <= Agrup.n_estimulos row)%nat /\
    Agrup.tempo_resposta_medio_s row <> None.
Proof.
  eexists. split; [vm_compute; reflexivity|].
  destruct (tabela_consolidada_linhas sqrt_approx scenario "controle" _
              ltac:(vm_compute; left; reflexivity))
    as (_ & _ & _ & H1 & H2 & _).
  split; [exact H1 | exact H2].
Defined.

(** ** File names *)

Example extrair_paciente_id_docstring :
  extrair_paciente_id "data/controle/saudavel_24_trog.csv" = "24_trog"%string /\
  extrair_paciente_id "semsublinhado.csv" = "semsublinhado"%string /\
  extrair_paciente_id ".oculto" = ".oculto"%string.
Proof. repeat split. Qed.

Lemma append_assoc_str (a b c : string) : ((a ++ b) ++ c = a ++ (b ++ c))%string.
Proof. induction a as [|x a IH]; [reflexivity|]. cbn [append]. now rewrite IH. Qed.

Lemma contem_app (c : ascii) (a b : string) :
  contem c (a ++ b) = contem c a || contem c b.
Proof.
  induction a as [|x a IH]; [reflexivity|].
  cbn [append contem]. now rewrite IH, orb_assoc.
Qed.

Lemma depois_do_ultimo_app (c : ascii) (d r : string) :
  contem c r = false -> depois_do_ultimo c (d ++ String c r) = r.
Proof.
  intros H. induction d as [|x d IH]; cbn [append depois_do_ultimo].
  - now rewrite H, Ascii.eqb_refl.
  - rewrite contem_app. cbn [contem]. rewrite Ascii.eqb_refl, orb_true_r.
    exact IH.
Qed.

Lemma depois_do_ultimo_none (c : ascii) (s : string) :
  contem c s = false -> depois_do_ultimo c s = s.
Proof.
  destruct s as [|x s]; [reflexivity|]. cbn [contem depois_do_ultimo].
  intros H. apply orb_false_iff in H. destruct H as (H1 & H2).
  now rewrite H1, H2.
Qed.

Lemma antes_do_ultimo_app (c : ascii) (d r : string) :
  contem c r = false -> antes_do_ultimo c (d ++ String c r) = d.
Proof.
  intros H. induction d as [|x d IH]; cbn [append antes_do_ultimo].
  - now rewrite H.
  - rewrite contem_app. cbn [contem]. rewrite Ascii.eqb_refl, orb_true_r.
    now rewrite IH.
Qed.

Lemma depois_do_primeiro_app (c : ascii) (g r : string) :
  contem c g = false -> depois_do_primeiro c (g ++ String c r) = Some r.
Proof.
  induction g as [|x g IH]; cbn [append depois_do_primeiro contem]; intros H.
  - now rewrite Ascii.eqb_refl.
  - apply orb_false_iff in H. destruct H as (H1 & H2). rewrite H1. now apply IH.
Qed.

Lemma depois_do_primeiro_none (c : ascii) (s : string) :
  contem c s = false -> depois_do_primeiro c s = None.
Proof.
  induction s as [|x s IH]; [reflexivity|]. cbn [contem depois_do_primeiro].
  intros H. apply orb_false_iff in H. destruct H as (H1 & H2).
  rewrite H1. now apply IH.
Qed.

Lemma so_pontos_app (a b : string) :
  so_pontos (a ++ b) = so_pontos a && so_pontos b.
Proof.
  induction a as [|x a IH]; [reflexivity|].
  cbn [append so_pontos]. now rewrite IH, andb_assoc.
Qed.

(** A file named [<group>_<id>.<ext>] in any directory gives back [<id>],
    whatever underscores and dots [<id>] itself contains; and a file name
    whose stem has no underscore gives back the stem. *)
Theorem extrair_paciente_id_recupera_id :
  (forall dir g id ext : string,
     contem "/" g = false -> contem "_" g = false ->
     contem "/" id = false -> contem "/" ext = false -> contem "." ext = false ->
     extrair_paciente_id (dir ++ String "/" (g ++ String "_" (id ++ String "." ext)))
     = id /\
     extrair_paciente_id (g ++ String "_" (id ++ String "." ext)) = id) /\
  (forall dir stem ext : string,
     contem "/" stem = false -> contem "_" stem = false ->
     so_pontos stem = false ->
     contem "/" ext = false -> contem "." ext = false ->
     extrair_paciente_id (dir ++ String "/" (stem ++ String "." ext)) = stem).
Proof.
  split.
  - intros dir g id ext Hg1 Hg2 Hi He1 He2.
    set (rest := (g ++ String "_" (id ++ String "." ext))%string).
    assert (Hrest : contem "/" rest = false).
    { unfold rest. rewrite contem_app. cbn [contem]. rewrite contem_app.
      cbn [contem]. rewrite Hg1, Hi, He1. reflexivity. }
    assert (Hstem : splitext_root rest = (g ++ String "_" id)%string).
    { unfold splitext_root, rest.
      assert (A : (g ++ String "_" (id ++ String "." ext))%string
                  = ((g ++ String "_" id) ++ String "." ext)%string).
      { now rewrite append_assoc_str. }
      rewrite A. rewrite contem_app. cbn [contem].
      rewrite Ascii.eqb_refl, orb_true_r. cbn zeta.
      rewrite (antes_do_ultimo_app "." _ _ He2).
      rewrite so_pontos_app. cbn [so_pontos].
      replace (Ascii.eqb "_" ".") with false by reflexivity.
      now rewrite andb_false_r. }
    assert (G : forall p, basename p = rest -> extrair_paciente_id p = id).
    { intros p Hp. unfold extrair_paciente_id. rewrite Hp, Hstem.
      now rewrite (depois_do_primeiro_app "_" g id Hg2). }
    split; apply G; unfold basename.
    + now apply depois_do_ultimo_app.
    + now apply depois_do_ultimo_none.
  - intros dir stem ext Hs1 Hs2 Hs3 He1 He2.
    unfold extrair_paciente_id, basename.
    assert (Hrest : contem "/" (stem ++ String "." ext) = false).
    { rewrite contem_app. cbn [contem]. now rewrite Hs1, He1. }
    rewrite (depois_do_ultimo_app "/" dir _ Hrest).
    unfold splitext_root. rewrite contem_app. cbn [contem].
    rewrite Ascii.eqb_refl, orb_true_r. cbn zeta.
    rewrite (antes_do_ultimo_app "." _ _ He2), Hs3.
    now rewrite (depois_do_primeiro_none "_" stem Hs2).
Qed.

Lemma extrair_paciente_id_recupera_id_witness :
  extrair_paciente_id "data/afasico/afasico_07_b.v2.csv" = "07_b.v2"%string.
Proof.
  apply (proj1 (proj1 extrair_paciente_id_recupera_id
                  "data/afasico"%string "afasico"%string "07_b.v2"%string
                  "csv"%string eq_refl eq_refl eq_refl eq_refl eq_refl)).
Defined.

(** ** From the cleaning filter to the classifier *)

Lemma StronglySorted_filter_rel {A : Type} (R : A -> A -> Prop) (P : A -> bool)
    (l : list A) :
  StronglySorted R l -> StronglySorted R (filter P l).
Proof.
  induction 1 as [|a l Hs IH Ha]; cbn [filter]; [constructor|].
  destruct (P a); [|exact IH]. constructor; [exact IH|].
  rewrite Forall_forall in Ha |- *. intros x Hx. apply Ha.
  apply filter_In in Hx. tauto.
Qed.

Lemma StronglySorted_firstn_rel {A : Type} (R : A -> A -> Prop) (k : nat)
    (l : list A) :
  StronglySorted R l -> StronglySorted R (firstn k l).
Proof.
  intros H. revert k. induction H as [|a l Hs IH Ha]; intros [|k];
    cbn [firstn]; try constructor.
  - apply IH.
  - rewrite Forall_forall in Ha |- *. intros x Hx. apply Ha.
    now apply (firstn_incl k).
Qed.

Lemma strict_sorted_by (g : DataFrame) :
  StronglySorted (fun a b => t_sec a < t_sec b) g -> sorted_by t_leb g.
Proof.
  induction 1 as [|a l Hs IH Ha]; constructor; [exact IH|].
  eapply Forall_impl; [|exact Ha]. intros x Hx. cbv beta in Hx.
  apply Qle_bool_iff. now apply Qlt_le_weak.
Qed.

Lemma grupo_limpo_strict (df : DataFrame) (p : string) :
  StronglySorted (fun a b => t_sec a < t_sec b)
    (grupo_de p (limpar_e_outliers df)).
Proof.
  rewrite limpar_e_outliers_stages, grupo_de_dup_stage.
  apply dup_grupo_strict. apply (sorted_pid_t_same_pid p).
  - unfold grupo_de. apply sorted_by_filter. unfold iqr_stage.
    apply select_sorted.
    apply sort_by_sorted; [exact pid_t_leb_total | exact pid_t_leb_trans].
  - intros r Hr. apply filter_In in Hr. destruct Hr as (_ & Hr).
    now apply String.eqb_eq in Hr.
Qed.

Lemma janela_strict (trial : DataFrame) :
  StronglySorted (fun a b => t_sec a < t_sec b) trial ->
  StronglySorted (fun a b => t_sec a < t_sec b)
    (jan_explore (janela_exploracao trial)).
Proof.
  intros Hs. destruct trial as [|x trial]; [constructor|].
  destruct (janela_exploracao_cases (x :: trial)) as (r0 & _ & C); [discriminate|].
  assert (E : sort_values_t (x :: trial) = x :: trial).
  { apply sort_by_id. now apply strict_sorted_by. }
  rewrite E in C.
  destruct C as [(k & r & _ & _ & ->)|(_ & ->)]; unfold jan_explore; cbn [fst].
  - apply StronglySorted_filter_rel. now apply StronglySorted_firstn_rel.
  - now apply StronglySorted_filter_rel.
Qed.

Section CleanToClassifier.
Variable np_sqrt : Q -> Q.

(** Taken from a cleaned table, the exploration window of any subject
    and stimulus has strictly increasing times, and the classifier keeps
    its rows in that order: no zero or negative time delta reaches the
    speed computation. *)
Theorem janela_de_dados_limpos (df : DataFrame) (p stim : string) :
  StronglySorted (fun a b => t_sec a < t_sec b)
    (jan_explore
       (janela_exploracao
          (filter (fun r => String.eqb (Stimuli r) stim)
             (grupo_de p (limpar_e_outliers df))))) /\
  map sample
    (fst (rotular_ivt np_sqrt
            (jan_explore
               (janela_exploracao
                  (filter (fun r => String.eqb (Stimuli r) stim)
                     (grupo_de p (limpar_e_outliers df)))))))
  = jan_explore
      (janela_exploracao
         (filter (fun r => String.eqb (Stimuli r) stim)
            (grupo_de p (limpar_e_outliers df)))) /\
  (forall i a b,
     nth_error
       (fst (rotular_ivt np_sqrt
               (jan_explore
                  (janela_exploracao
                     (filter (fun r => String.eqb (Stimuli r) stim)
                        (grupo_de p (limpar_e_outliers df))))))) i = Some a ->
     nth_error
       (fst (rotular_ivt np_sqrt
               (jan_explore
                  (janela_exploracao
                     (filter (fun r => String.eqb (Stimuli r) stim)
                        (grupo_de p (limpar_e_outliers df))))))) (S i) = Some b ->
     0 < t_sec (sample b) - t_sec (sample a)).
Proof.
  set (w := jan_explore
       (janela_exploracao
          (filter (fun r => String.eqb (Stimuli r) stim)
             (grupo_de p (limpar_e_outliers df))))).
  assert (Hw : StronglySorted (fun a b => t_sec a < t_sec b) w).
  { apply janela_strict. apply StronglySorted_filter_rel. apply grupo_limpo_strict. }
  assert (Hm : map sample (fst (rotular_ivt np_sqrt w)) = w).
  { destruct (Nat.lt_ge_cases (length w) 3) as [H|H].
    - rewrite rotular_ivt_small by assumption. cbn [fst].
      rewrite map_map. cbn [sample]. apply map_id.
    - destruct (rotular_ivt_normal np_sqrt w H) as (_ & _ & E & _).
      rewrite E. apply sort_by_id. now apply strict_sorted_by. }
  split; [exact Hw|]. split; [exact Hm|].
  intros i a b Ha Hb.
  assert (Sa : nth_error w i = Some (sample a))
    by (rewrite <- Hm; now apply map_nth_error).
  assert (Sb : nth_error w (S i) = Some (sample b))
    by (rewrite <- Hm; now apply map_nth_error).
  assert (L : t_sec (sample a) < t_sec (sample b)).
  { apply (StronglySorted_nth_error _ w Hw i (S i)); auto. }
  lra.
Qed.

End CleanToClassifier.

(** ** Windows without fast samples *)

Lemma seg_ids_all_fix (labels : list Label) :
  Forall (fun l => l = lbl_fix) labels ->
  Forall (fun s => s = 1%Z) (seg_ids labels).
Proof.
  intros H. destruct labels as [|l0 rest]; [constructor|].
  rewrite seg_ids_cons. constructor; [reflexivity|].
  apply Forall_cons_iff in H. destruct H as (-> & H).
  induction H as [|l rest -> Hr IH]; [constructor|].
  cbn [seg_from Label_eqb negb]. change (1 + 0)%Z with 1%Z.
  constructor; [reflexivity | exact IH].
Qed.

Section SlowWindows.
Variable np_sqrt : Q -> Q.

(** When no sample of a window is faster than the velocity floor (in
    particular in every window of fewer than three samples), every sample
    is a fixation in segment 1 and the segment table has no saccade. *)
Theorem janela_lenta_sem_sacadas (explore : DataFrame) :
  Forall (fun r => speed r <= VEL_MIN) (fst (rotular_ivt np_sqrt explore)) ->
  Forall (fun r => label r = lbl_fix /\ seg_id r = 1%Z)
    (fst (rotular_ivt np_sqrt explore)) /\
  sac_segments (segmentos_por_label (fst (rotular_ivt np_sqrt explore))) = [] /\
  (length (segmentos_por_label (fst (rotular_ivt np_sqrt explore))) <= 1)%nat.
Proof.
  intros Hslow.
  assert (Hvt : VEL_MIN <= snd (rotular_ivt np_sqrt explore)).
  { destruct (Nat.lt_ge_cases (length explore) 3) as [H|H].
    - rewrite rotular_ivt_small by assumption. apply Qle_refl.
    - destruct (rotular_ivt_normal np_sqrt explore H) as (-> & _).
      apply limiar_lower. }
  assert (Hlab : forall r, In r (fst (rotular_ivt np_sqrt explore)) ->
                           label r = lbl_fix).
  { intros r Hr.
    destruct (Nat.lt_ge_cases (length explore) 3) as [H|H].
    - rewrite rotular_ivt_small in Hr by assumption. cbn [fst] in Hr.
      apply in_map_iff in Hr. destruct Hr as (x & <- & _). reflexivity.
    - rewrite Forall_forall in Hslow. specialize (Hslow r Hr).
      destruct (rotular_ivt_normal np_sqrt explore H)
        as (Ev & _ & _ & _ & _ & _ & E4 & E5 & _).
      rewrite <- E4 in Ev. rewrite <- E4, map_map in E5. rewrite <- Ev in E5.
      rewrite (ext_in_map E5 r Hr).
      assert (L : Qle_bool (speed r) (snd (rotular_ivt np_sqrt explore)) = true).
      { apply Qle_bool_iff. eapply Qle_trans; eauto. }
      now rewrite L. }
  assert (Hseg : forall r, In r (fst (rotular_ivt np_sqrt explore)) ->
                           seg_id r = 1%Z).
  { intros r Hr.
    assert (F : Forall (fun s => s = 1%Z)
                  (map seg_id (fst (rotular_ivt np_sqrt explore)))).
    { rewrite rotular_ivt_seg_ids. apply seg_ids_all_fix.
      rewrite Forall_map, Forall_forall. exact Hlab. }
    rewrite Forall_map, Forall_forall in F. now apply F. }
  split; [|split].
  - rewrite Forall_forall. intros r Hr. split; auto.
  - unfold sac_segments. apply filter_none. intros s Hs.
    destruct (segmentos_In _ s Hs) as (r0 & g & E & _).
    assert (Hr0 : In r0 (filter (fun r => seg_key_eqb (seg_key r)
                                   (Seg.seg_id s, Seg.label s))
                           (fst (rotular_ivt np_sqrt explore))))
      by (rewrite E; now left).
    apply filter_In in Hr0. destruct Hr0 as (Hin & Hk).
    apply seg_key_eqb_eq in Hk. unfold seg_key in Hk. injection Hk as _ Hl.
    unfold is_sac. rewrite <- Hl, (Hlab r0 Hin). reflexivity.
  - unfold segmentos_por_label.
    set (rows := fst (rotular_ivt np_sqrt explore)) in *.
    assert (K : forall k, In k (unique_by seg_key_eqb (map seg_key rows)) ->
                          k = (1%Z, lbl_fix)).
    { intros k Hk. apply (proj1 (unique_by_In_iff _ seg_key_eqb_eq _ _)) in Hk.
      apply in_map_iff in Hk. destruct Hk as (r & <- & Hr).
      unfold seg_key. now rewrite (Hseg r Hr), (Hlab r Hr). }
    pose proof (unique_by_NoDup _ seg_key_eqb_eq (map seg_key rows)) as N.
    assert (L : (length (unique_by seg_key_eqb (map seg_key rows)) <= 1)%nat).
    { destruct (unique_by seg_key_eqb (map seg_key rows)) as [|a [|b u]];
        cbn [length]; try lia.
      exfalso. inversion N as [|? ? Hna _]; subst. apply Hna.
      rewrite (K a (or_introl eq_refl)), (K b (or_intror (or_introl eq_refl))).
      now left. }
    rewrite <- (sort_by_length seg_key_leb) in L.
    destruct (sort_by seg_key_leb (unique_by seg_key_eqb (map seg_key rows)))
      as [|k [|k' ks]]; cbn [length] in L; try lia.
    + cbn. lia.
    + cbn [flat_map]. rewrite app_nil_r. unfold agg_group.
      destruct (filter _ rows); cbn; lia.
Qed.

End SlowWindows.

Lemma janela_lenta_sem_sacadas_witness :
  sac_segments
    (segmentos_por_label (fst (rotular_ivt sqrt_approx (firstn 2 scenario)))) = [].
Proof.
  apply (janela_lenta_sem_sacadas sqrt_approx (firstn 2 scenario)).
  repeat constructor; discriminate.
Defined.

(** ** Exchanging the two groups *)

Section InterGroupSymmetry.
Variable np_sqrt : Q -> Q.
Variable SCIPY_OK : bool.
Variable mannwhitneyu : list Q -> list Q -> option (Q * Q).

(** For estatisticas_inter_grupo: the descriptive columns do not depend on
    which table is passed first.  Every row of the comparison of [ctrl]
    with [afa] has a counterpart, for the same stimulus and metric, in the
    comparison of [afa] with [ctrl], whose control mean and deviation are
    the aphasic ones of the row and conversely. *)
Theorem descritivas_trocam_com_os_grupos (ctrl afa : list MetRow) (row : Stat.t) :
  In row (estatisticas_inter_grupo np_sqrt SCIPY_OK mannwhitneyu ctrl afa) ->
  exists row',
    In row' (estatisticas_inter_grupo np_sqrt SCIPY_OK mannwhitneyu afa ctrl) /\
    Stat.Stimuli row' = Stat.Stimuli row /\
    Stat.Metrica row' = Stat.Metrica row /\
    Stat.Controle_media row' = Stat.Afasico_media row /\
    Stat.Controle_desvio row' = Stat.Afasico_desvio row /\
    Stat.Afasico_media row' = Stat.Controle_media row /\
    Stat.Afasico_desvio row' = Stat.Controle_desvio row.
Proof.
  intros Hrow.
  destruct (estatisticas_In_inv _ _ _ _ _ _ Hrow) as (stim & m & Hm & Hl).
  destruct (linha_inv _ _ _ _ _ _ _ _ Hl) as (_ & _ & Hv & _).
  assert (Hs : In stim (map met_Stimuli afa ++ map met_Stimuli ctrl)).
  { apply in_or_app. destruct Hv as [Hv|Hv]; [right | left];
      eapply valores_stim; eauto. }
  assert (K : exists row',
             In row' (linha np_sqrt SCIPY_OK mannwhitneyu stim
                        (filter (fun r => String.eqb (met_Stimuli r) stim) afa)
                        (filter (fun r => String.eqb (met_Stimuli r) stim) ctrl) m) /\
             Stat.Stimuli row' = Stat.Stimuli row /\
             Stat.Metrica row' = Stat.Metrica row /\
             Stat.Controle_media row' = Stat.Afasico_media row /\
             Stat.Controle_desvio row' = Stat.Afasico_desvio row /\
             Stat.Afasico_media row' = Stat.Controle_media row /\
             Stat.Afasico_desvio row' = Stat.Controle_desvio row).
  { clear Hrow Hv Hs. revert Hl. unfold linha.
    fold (valores m stim ctrl). fold (valores m stim afa).
    destruct (valores m stim ctrl) as [|c vc];
      destruct (valores m stim afa) as [|a va];
      cbn [is_empty andb]; [intros [] | | |];
      intros [<-|[]]; eexists; (split; [now left|]);
      cbn [Stat.Stimuli Stat.Metrica Stat.Controle_media Stat.Afasico_media
           Stat.Controle_desvio Stat.Afasico_desvio];
      repeat split; reflexivity. }
  destruct K as (row' & Hl' & K).
  exists row'. split; [|exact K].
  now apply (linha_In np_sqrt SCIPY_OK mannwhitneyu afa ctrl stim m).
Qed.

End InterGroupSymmetry.

Lemma descritivas_trocam_com_os_grupos_witness :
  exists row row',
    In row (estatisticas_inter_grupo sqrt_approx true (fun _ _ => None)
              mets_um_paciente []) /\
    In row' (estatisticas_inter_grupo sqrt_approx true (fun _ _ => None)
               [] mets_um_paciente) /\
    Stat.Afasico_media row' = Stat.Controle_media row.
Proof.
  pose (row := hd (Stat.mk EmptyString EmptyString None None None None None None)
                 (estatisticas_inter_grupo sqrt_approx true (fun _ _ => None)
                    mets_um_paciente [])).
  assert (H : In row (estatisticas_inter_grupo sqrt_approx true (fun _ _ => None)
                        mets_um_paciente [])).
  { vm_compute. left. reflexivity. }
  destruct (descritivas_trocam_com_os_grupos sqrt_approx true (fun _ _ => None)
              mets_um_paciente [] row H) as (row' & H1 & _ & _ & _ & _ & H2 & _).
  exists row, row'. split; [exact H | split; [exact H1 | exact H2]].
Defined.
